(** * Nightcore gateway: external-request admission and lifecycle

    A shallow embedding of [src/gateway/server.cpp] (the admission core of
    the gateway: [NewExternalFuncCall], [DispatchExternalFuncCall],
    [OnRecvMessage], [ProcessDiscardedFuncCallIfNecessary], [OnNewGrpcCall],
    [OnConnectionClose] and the [ExternalFuncCallContext] class) and of
    [src/watchdog/gateway_connection.cpp] (the watchdog side connection state
    machine), then of the front end of the gateway (the table of request
    handlers with [MatchRequest], the IO worker pools with the accept
    callbacks, and [OnNewHandshake]), followed by the properties proved
    about them.

    Conventions.
    - The gateway is modelled one handler at a time: a handler is a function
      from the [Server] state to a new state and the list of [Effect]s it
      performed, in program order.  The sections the source runs while
      holding [mu_] are separate definitions whose names end in [_locked].
    - Collaborators that live outside these two files (the dispatcher, the
      shared memory layer, the worker manager) are oracles gathered in [Env];
      every handler invocation receives its own [Env].  A collaborator
      answers and does not call back into the server while a handler runs:
      the calls it makes to [DiscardFuncCall] are events of their own.
    - Handlers run one after the other; the interleaving of handlers of
      different threads between two critical sections is not modelled.
    - Logging, [StatisticsCollector] samples and the clock are not modelled;
      [stat::Counter] ticks are.
    - Of libuv only what the methods decide is modelled: the binding and
      closing of the listening handles in [StartInternal] and
      [StopInternal], and the buffer and write request pools of the watchdog
      connection, are left out. *)

From Stdlib Require Import ZArith Lia Sorted.
From stdpp Require Import gmap strings list fin_maps pretty.

Open Scope N_scope.

(** ** Protocol data *)

(** Modelled from the spec: [protocol::FuncCall] is declared in protocol.h.
    Its bit fields share storage with the 64-bit [full_call_id], so two calls
    have the same [full_call_id] exactly when all their fields agree; tables
    keyed by [full_call_id] are keyed by the [FuncCall] itself here. *)
Record FuncCall := mkFuncCall {
  func_id : N;
  method_id : N;
  client_id : N;
  call_id : N
}.

Definition full_call_id (c : FuncCall) : FuncCall := c.

#[global] Instance FuncCall_eq_dec : EqDecision FuncCall.
Proof. solve_decision. Defined.

Definition FuncCall_to_tuple (c : FuncCall) : N * N * N * N :=
  (func_id c, method_id c, client_id c, call_id c).

Definition FuncCall_of_tuple (t : N * N * N * N) : FuncCall :=
  let '(f, m, c, i) := t in mkFuncCall f m c i.

#[global] Instance FuncCall_countable : Countable FuncCall.
Proof.
  apply (inj_countable' FuncCall_to_tuple FuncCall_of_tuple).
  by intros [].
Defined.

(** Modelled from the spec: [protocol::NewFuncCall] and
    [protocol::NewFuncCallWithMethod] (protocol.h) fill the fields. *)
Definition NewFuncCallWithMethod (f m c i : N) : FuncCall := mkFuncCall f m c i.
Definition NewFuncCall (f c i : N) : FuncCall := mkFuncCall f 0 c i.

Inductive MessageType :=
| INVALID
| LAUNCHER_HANDSHAKE
| FUNC_WORKER_HANDSHAKE
| HANDSHAKE_RESPONSE
| INVOKE_FUNC
| FUNC_CALL_COMPLETE
| FUNC_CALL_FAILED.

#[global] Instance MessageType_eq_dec : EqDecision MessageType.
Proof. solve_decision. Defined.

(** Modelled from the spec: [protocol::Message] (protocol.h).  [payload_size]
    is a signed 32-bit integer; the inline tail that
    [GetInlineDataFromMessage] returns is the field [inline_data]. *)
Record Message := mkMessage {
  message_type : MessageType;
  msg_func_call : FuncCall;
  parent_call_id : FuncCall;
  payload_size : Z;
  processing_time : Z;
  dispatch_delay : Z;
  inline_data : string
}.

Definition GetFuncCallFromMessage (m : Message) : FuncCall := msg_func_call m.
Definition GetInlineDataFromMessage (m : Message) : string := inline_data m.
Definition IsInvokeFuncMessage (m : Message) : bool :=
  bool_decide (message_type m = INVOKE_FUNC).
Definition IsFuncCallCompleteMessage (m : Message) : bool :=
  bool_decide (message_type m = FUNC_CALL_COMPLETE).
Definition IsFuncCallFailedMessage (m : Message) : bool :=
  bool_decide (message_type m = FUNC_CALL_FAILED).

(** ** Response sinks *)

Inductive GrpcStatus := GRPC_OK | NOT_FOUND | UNKNOWN | UNIMPLEMENTED.

#[global] Instance GrpcStatus_eq_dec : EqDecision GrpcStatus.
Proof. solve_decision. Defined.

(** Modelled from the spec: [HttpAsyncRequestContext] (the HTTP ingress
    layer).  The record keeps what the gateway core reads ([path], [body])
    and what it writes through [AppendToResponseBody], [SetStatus] and
    [Finish]; [http_finish_calls] counts the calls of [Finish]. *)
Record HttpAsyncRequestContext := mkHttp {
  http_path : string;
  http_body : string;
  http_response_body : string;
  http_status : Z;
  http_finish_calls : nat
}.

(** Modelled from the spec: [GrpcCallContext] (the gRPC ingress layer). *)
Record GrpcCallContext := mkGrpc {
  grpc_service_name : string;
  grpc_method_name : string;
  grpc_request_body : string;
  grpc_response_body : string;
  grpc_status : GrpcStatus;
  grpc_finish_calls : nat
}.

Definition http_AppendToResponseBody (data : string) (h : HttpAsyncRequestContext) :=
  mkHttp (http_path h) (http_body h) (http_response_body h +:+ data)
         (http_status h) (http_finish_calls h).
Definition http_SetStatus (st : Z) (h : HttpAsyncRequestContext) :=
  mkHttp (http_path h) (http_body h) (http_response_body h) st (http_finish_calls h).
Definition http_Finish (h : HttpAsyncRequestContext) :=
  mkHttp (http_path h) (http_body h) (http_response_body h) (http_status h)
         (S (http_finish_calls h)).

Definition grpc_AppendToResponseBody (data : string) (g : GrpcCallContext) :=
  mkGrpc (grpc_service_name g) (grpc_method_name g) (grpc_request_body g)
         (grpc_response_body g +:+ data) (grpc_status g) (grpc_finish_calls g).
Definition set_grpc_status (st : GrpcStatus) (g : GrpcCallContext) :=
  mkGrpc (grpc_service_name g) (grpc_method_name g) (grpc_request_body g)
         (grpc_response_body g) st (grpc_finish_calls g).
Definition grpc_Finish (g : GrpcCallContext) :=
  mkGrpc (grpc_service_name g) (grpc_method_name g) (grpc_request_body g)
         (grpc_response_body g) (grpc_status g) (S (grpc_finish_calls g)).

(** The two constructors of [ExternalFuncCallContext] set exactly one of
    [http_context_] and [grpc_context_]; the pair of nullable pointers is the
    sum below, and the [LOG(FATAL)] branches for "both null" have no case. *)
Inductive ResponseSink :=
| HttpSink (h : HttpAsyncRequestContext)
| GrpcSink (g : GrpcCallContext).

(** Modelled from the spec: [ipc::ShmRegion] (ipc/shm_region.h): the mapped
    bytes and the remove-on-destruction flag. *)
Record ShmRegion := mkShm {
  shm_contents : string;
  shm_remove_on_destruction : bool
}.

Definition EnableRemoveOnDestruction (r : ShmRegion) : ShmRegion :=
  mkShm (shm_contents r) true.

(** ** [Server::ExternalFuncCallContext] *)

Record ExternalFuncCallContext := mkCtx {
  call_ : FuncCall;
  sink_ : ResponseSink;
  input_region_ : option ShmRegion;
  output_region_ : option ShmRegion
}.

Definition newline : string := String (Ascii.ascii_of_nat 10) EmptyString.

Definition with_sink (k : ResponseSink) (c : ExternalFuncCallContext) :=
  mkCtx (call_ c) k (input_region_ c) (output_region_ c).

Definition GetInput (c : ExternalFuncCallContext) : string :=
  match sink_ c with
  | HttpSink h => http_body h
  | GrpcSink g => grpc_request_body g
  end.

Definition AppendToResponseBody (data : string) (c : ExternalFuncCallContext) :=
  match sink_ c with
  | HttpSink h => with_sink (HttpSink (http_AppendToResponseBody data h)) c
  | GrpcSink g => with_sink (GrpcSink (grpc_AppendToResponseBody data g)) c
  end.

Definition Finish (c : ExternalFuncCallContext) :=
  match sink_ c with
  | HttpSink h => with_sink (HttpSink (http_Finish h)) c
  | GrpcSink g => with_sink (GrpcSink (grpc_Finish g)) c
  end.

Definition FinishWithOutput (output : string) (c : ExternalFuncCallContext) :=
  Finish (if (0 <? String.length output)%nat
          then AppendToResponseBody output c else c).

Definition FinishWithError (c : ExternalFuncCallContext) :=
  Finish
    match sink_ c with
    | HttpSink h =>
        with_sink (HttpSink (http_SetStatus 500
          (http_AppendToResponseBody ("Function call failed" +:+ newline) h))) c
    | GrpcSink g => with_sink (GrpcSink (set_grpc_status UNKNOWN g)) c
    end.

Definition FinishWithDispatchFailure (c : ExternalFuncCallContext) :=
  Finish
    match sink_ c with
    | HttpSink h =>
        with_sink (HttpSink (http_SetStatus 404
          (http_AppendToResponseBody
             ("Dispatch failed for func_id " +:+ pretty (func_id (call_ c)) +:+ newline)
             h))) c
    | GrpcSink g => with_sink (GrpcSink (set_grpc_status UNIMPLEMENTED g)) c
    end.

(** [opened] is what [ipc::ShmOpen] returned for the output region of the
    call: [None] stands for [nullptr]. *)
Definition FinishWithShmOutput (opened : option ShmRegion)
    (c : ExternalFuncCallContext) :=
  match opened with
  | None => FinishWithError c
  | Some r =>
      let r := EnableRemoveOnDestruction r in
      let c := mkCtx (call_ c) (sink_ c) (input_region_ c) (Some r) in
      Finish (if (0 <? String.length (shm_contents r))%nat
              then AppendToResponseBody (shm_contents r) c else c)
  end.

(** [created] tells whether [ipc::ShmCreate] returned a region.  On success
    the body is copied into the region; on failure the context is finalized
    through [FinishWithError]. *)
Definition CreateShmInput (created : bool) (c : ExternalFuncCallContext)
    : ExternalFuncCallContext * bool :=
  if created
  then (mkCtx (call_ c) (sink_ c)
              (Some (EnableRemoveOnDestruction (mkShm (GetInput c) false)))
              (output_region_ c), true)
  else (FinishWithError c, false).

(** What the client of a context observes: how often [Finish] ran on its
    sink, the response body, and the HTTP status code or gRPC status. *)
Definition finish_calls (c : ExternalFuncCallContext) : nat :=
  match sink_ c with
  | HttpSink h => http_finish_calls h
  | GrpcSink g => grpc_finish_calls g
  end.

Definition response_body (c : ExternalFuncCallContext) : string :=
  match sink_ c with
  | HttpSink h => http_response_body h
  | GrpcSink g => grpc_response_body g
  end.

Definition response_status (c : ExternalFuncCallContext) : Z + GrpcStatus :=
  match sink_ c with
  | HttpSink h => inl (http_status h)
  | GrpcSink g => inr (grpc_status g)
  end.

Definition is_http (c : ExternalFuncCallContext) : bool :=
  match sink_ c with HttpSink _ => true | GrpcSink _ => false end.

(** ** Function configuration *)

(** Modelled from the spec: [FuncConfig] (common/func_config.h) is immutable
    after load and answers lookups by function name and by function id; a
    gRPC service [svc] is the entry named ["grpc:svc"], with its methods in
    [grpc_method_ids]. *)
Record FuncConfigEntry := mkEntry {
  func_name : string;
  entry_func_id : N;
  grpc_method_ids : gmap string N
}.

Definition FuncConfig := list FuncConfigEntry.

Definition find_by_func_name (cfg : FuncConfig) (name : string)
    : option FuncConfigEntry :=
  List.find (fun e => bool_decide (func_name e = name)) cfg.

Definition find_by_func_id (cfg : FuncConfig) (f : N) : option FuncConfigEntry :=
  List.find (fun e => bool_decide (entry_func_id e = f)) cfg.

(** ** Collaborators and effects *)

(** The answers of the collaborators during one handler invocation:
    whether [ipc::ShmCreate] succeeds for the input region of a call, what
    [ipc::ShmOpen] returns for its output region, what
    [Dispatcher::OnNewFuncCall] returns for it, and the calls that
    [WorkerManager::OnLauncherDisconnected] and
    [WorkerManager::OnFuncWorkerDisconnected] hand to
    [Server::DiscardFuncCall] for the connection they are given. *)
Record Env := mkEnv {
  ShmCreate_input : FuncCall -> bool;
  ShmOpen_output : FuncCall -> option ShmRegion;
  OnNewFuncCall : FuncCall -> bool;
  OnLauncherDisconnected : N -> list FuncCall;
  OnFuncWorkerDisconnected : N -> list FuncCall
}.

(** What a handler does besides updating the tables, in program order. *)
Inductive Effect :=
| ECreated (c : ExternalFuncCallContext)
    (* the constructor of ExternalFuncCallContext *)
| EPendingPush (c : ExternalFuncCallContext)
    (* pending_external_func_calls_.push *)
| EPendingPop (c : ExternalFuncCallContext)
    (* pending_external_func_calls_.front() and pop() *)
| EDispatchExternal (call : FuncCall)
    (* entry into DispatchExternalFuncCall *)
| EOnNewFuncCall (call parent : FuncCall) (input_size : N)
    (inline_input : string) (shm_input : bool)
| EOnFuncCallCompleted (call : FuncCall) (processing dispatch : Z)
    (output_size : N)
| EOnFuncCallFailed (call : FuncCall) (dispatch : Z)
| EFuncCallFinished (call : FuncCall) (success : bool)
    (* worker_lib::FuncCallFinished *)
| EDestroyed (c : ExternalFuncCallContext)
    (* ~ExternalFuncCallContext: the owner of the context dropped it *)
| EGrpcFinished (g : GrpcCallContext).
    (* a gRPC call finished without entering the core *)

(** ** The [Server] state *)

Inductive ConnectionType :=
| HttpConnection | GrpcConnection | MessageConnection | OtherConnection.

(** Modelled from the spec: what [OnConnectionClose] reads from a
    [server::ConnectionBase]; [conn_id] stands for the object's address. *)
Record ConnectionBase := mkConn {
  conn_type : ConnectionType;
  conn_id : N;
  handshake_done : bool;
  is_launcher_connection : bool
}.

Record Server := mkServer {
  max_running_external_requests_ : N;
  func_config_ : FuncConfig;
  next_call_id_ : N;
  inflight_external_requests_ : Z;
  running_external_func_calls_ : gmap FuncCall ExternalFuncCallContext;
  pending_external_func_calls_ : list ExternalFuncCallContext;
  dispatchers_ : gset N;
  discarded_func_calls_ : list FuncCall;
  incoming_external_requests_stat_ : N;
  input_use_shm_stat_ : N;
  output_use_shm_stat_ : N;
  discarded_func_call_stat_ : N;
  http_connections_ : gset N;
  grpc_connections_ : gset N;
  message_connections_ : gset N
}.

(** The state the constructor [Server::Server] builds, for a given value of
    the flag [max_running_external_requests] and a loaded configuration. *)
Definition Server_init (cap : N) (cfg : FuncConfig) : Server :=
  mkServer cap cfg 1 0 ∅ [] ∅ [] 0 0 0 0 ∅ ∅ ∅.

Definition set_next_call_id (v : N) (s : Server) : Server :=
  mkServer (max_running_external_requests_ s) (func_config_ s) v
    (inflight_external_requests_ s) (running_external_func_calls_ s)
    (pending_external_func_calls_ s) (dispatchers_ s) (discarded_func_calls_ s)
    (incoming_external_requests_stat_ s) (input_use_shm_stat_ s)
    (output_use_shm_stat_ s) (discarded_func_call_stat_ s)
    (http_connections_ s) (grpc_connections_ s) (message_connections_ s).

Definition set_inflight (v : Z) (s : Server) : Server :=
  mkServer (max_running_external_requests_ s) (func_config_ s) (next_call_id_ s)
    v (running_external_func_calls_ s)
    (pending_external_func_calls_ s) (dispatchers_ s) (discarded_func_calls_ s)
    (incoming_external_requests_stat_ s) (input_use_shm_stat_ s)
    (output_use_shm_stat_ s) (discarded_func_call_stat_ s)
    (http_connections_ s) (grpc_connections_ s) (message_connections_ s).

Definition set_running (v : gmap FuncCall ExternalFuncCallContext) (s : Server)
    : Server :=
  mkServer (max_running_external_requests_ s) (func_config_ s) (next_call_id_ s)
    (inflight_external_requests_ s) v
    (pending_external_func_calls_ s) (dispatchers_ s) (discarded_func_calls_ s)
    (incoming_external_requests_stat_ s) (input_use_shm_stat_ s)
    (output_use_shm_stat_ s) (discarded_func_call_stat_ s)
    (http_connections_ s) (grpc_connections_ s) (message_connections_ s).

Definition set_pending (v : list ExternalFuncCallContext) (s : Server) : Server :=
  mkServer (max_running_external_requests_ s) (func_config_ s) (next_call_id_ s)
    (inflight_external_requests_ s) (running_external_func_calls_ s)
    v (dispatchers_ s) (discarded_func_calls_ s)
    (incoming_external_requests_stat_ s) (input_use_shm_stat_ s)
    (output_use_shm_stat_ s) (discarded_func_call_stat_ s)
    (http_connections_ s) (grpc_connections_ s) (message_connections_ s).

Definition set_dispatchers (v : gset N) (s : Server) : Server :=
  mkServer (max_running_external_requests_ s) (func_config_ s) (next_call_id_ s)
    (inflight_external_requests_ s) (running_external_func_calls_ s)
    (pending_external_func_calls_ s) v (discarded_func_calls_ s)
    (incoming_external_requests_stat_ s) (input_use_shm_stat_ s)
    (output_use_shm_stat_ s) (discarded_func_call_stat_ s)
    (http_connections_ s) (grpc_connections_ s) (message_connections_ s).

Definition set_discarded (v : list FuncCall) (s : Server) : Server :=
  mkServer (max_running_external_requests_ s) (func_config_ s) (next_call_id_ s)
    (inflight_external_requests_ s) (running_external_func_calls_ s)
    (pending_external_func_calls_ s) (dispatchers_ s) v
    (incoming_external_requests_stat_ s) (input_use_shm_stat_ s)
    (output_use_shm_stat_ s) (discarded_func_call_stat_ s)
    (http_connections_ s) (grpc_connections_ s) (message_connections_ s).

(** The four [stat::Counter]s, addressed by name. *)
Inductive Counter :=
| incoming_external_requests | input_use_shm | output_use_shm
| discarded_func_call.

#[global] Instance Counter_eq_dec : EqDecision Counter.
Proof. solve_decision. Defined.

Definition Tick (k : Counter) (s : Server) : Server :=
  let bump (k' : Counter) (v : N) :=
    if bool_decide (k = k') then v + 1 else v in
  mkServer (max_running_external_requests_ s) (func_config_ s) (next_call_id_ s)
    (inflight_external_requests_ s) (running_external_func_calls_ s)
    (pending_external_func_calls_ s) (dispatchers_ s) (discarded_func_calls_ s)
    (bump incoming_external_requests (incoming_external_requests_stat_ s))
    (bump input_use_shm (input_use_shm_stat_ s))
    (bump output_use_shm (output_use_shm_stat_ s))
    (bump discarded_func_call (discarded_func_call_stat_ s))
    (http_connections_ s) (grpc_connections_ s) (message_connections_ s).

Definition set_connections (h g m : gset N) (s : Server) : Server :=
  mkServer (max_running_external_requests_ s) (func_config_ s) (next_call_id_ s)
    (inflight_external_requests_ s) (running_external_func_calls_ s)
    (pending_external_func_calls_ s) (dispatchers_ s) (discarded_func_calls_ s)
    (incoming_external_requests_stat_ s) (input_use_shm_stat_ s)
    (output_use_shm_stat_ s) (discarded_func_call_stat_ s) h g m.

(** ** The handlers of [Server] *)

Section Gateway.

(** Constants of headers that are not part of these two files:
    [MESSAGE_INLINE_DATA_SIZE] and [protocol::kInvalidFuncCall] (protocol.h)
    and the system's [PIPE_BUF]. *)
Variable MESSAGE_INLINE_DATA_SIZE : N.
Variable PIPE_BUF : N.
Variable kInvalidFuncCall : FuncCall.

(** [max_running_external_requests_ == 0 ||
     running_external_func_calls_.size() < max_running_external_requests_] *)
Definition cap_permits (s : Server) : bool :=
  (max_running_external_requests_ s =? 0)
  || (N.of_nat (size (running_external_func_calls_ s))
        <? max_running_external_requests_ s).

(** [~ExternalFuncCallContext]: the in-flight counter goes down by one. *)
Definition destroy (c : ExternalFuncCallContext) (s : Server)
    : Server * list Effect :=
  (set_inflight (inflight_external_requests_ s - 1)%Z s, [EDestroyed c]).

(** [running_external_func_calls_[full_call_id] = std::move(ctx)]: a context
    already stored under the key is destroyed by the assignment. *)
Definition running_assign (c : ExternalFuncCallContext) (s : Server)
    : Server * list Effect :=
  let k := full_call_id (call_ c) in
  let '(s1, l) :=
    match running_external_func_calls_ s !! k with
    | Some old => destroy old s
    | None => (s, [])
    end in
  (set_running (<[k := c]> (running_external_func_calls_ s1)) s1, l).

(** [running_external_func_calls_.erase(full_call_id)] *)
Definition running_erase (k : FuncCall) (s : Server) : Server * list Effect :=
  match running_external_func_calls_ s !! k with
  | Some c =>
      destroy c (set_running (delete k (running_external_func_calls_ s)) s)
  | None => (s, [])
  end.

(** The result is [true] when the returned pointer is not [nullptr]. *)
Definition GetOrCreateDispatcherLocked (f : N) (s : Server) : Server * bool :=
  if bool_decide (f ∈ dispatchers_ s) then (s, true)
  else match find_by_func_id (func_config_ s) f with
       | Some _ => (set_dispatchers ({[f]} ∪ dispatchers_ s) s, true)
       | None => (s, false)
       end.

(** [func_call_context] is a raw pointer to a context owned by
    [running_external_func_calls_]: it is the key [k] of the slot, and what
    the function does to the context is done to the slot.  (A pointer whose
    slot was reassigned or erased meanwhile dangles in the source, which
    needs two contexts with one [full_call_id]; here the function acts on
    what the slot holds, and fails when it holds nothing.) *)
Definition DispatchExternalFuncCall (env : Env) (k : FuncCall) (s : Server)
    : Server * bool * list Effect :=
  match running_external_func_calls_ s !! k with
  | None => (s, false, [EDispatchExternal k])
  | Some c =>
      let func_call := call_ c in
      let input := GetInput c in
      let large := MESSAGE_INLINE_DATA_SIZE <? N.of_nat (String.length input) in
      let '(c1, created) :=
        if large then CreateShmInput (ShmCreate_input env func_call) c
        else (c, true) in
      let store c' s' :=
        set_running (<[k := c']> (running_external_func_calls_ s')) s' in
      if negb created then (store c1 s, false, [EDispatchExternal k])
      else
        let s1 := if large then Tick input_use_shm s else s in
        let '(s2, dispatcher) := GetOrCreateDispatcherLocked (func_id func_call) s1 in
        if negb dispatcher
        then (store (FinishWithDispatchFailure c1) s2, false, [EDispatchExternal k])
        else
          let success := OnNewFuncCall env func_call in
          (store (if success then c1 else FinishWithDispatchFailure c1) s2,
           success,
           [EDispatchExternal k;
            EOnNewFuncCall func_call kInvalidFuncCall
              (N.of_nat (String.length input))
              (if large then EmptyString else input) large])
  end.

(** The statement that follows each of the three places where a context is
    marked for dispatch:
    [if (!DispatchExternalFuncCall(p)) { lock; running.erase(p->call()) }]. *)
Definition dispatch_or_erase (env : Env) (k : FuncCall) (s : Server)
    : Server * list Effect :=
  let '(s1, ok, l1) := DispatchExternalFuncCall env k s in
  if ok then (s1, l1)
  else let '(s2, l2) := running_erase k s1 in (s2, l1 ++ l2).

(** The critical section of [NewExternalFuncCall]; the second component is
    [func_call_for_dispatch]. *)
Definition NewExternalFuncCall_locked (c : ExternalFuncCallContext) (s : Server)
    : Server * option FuncCall * list Effect :=
  let s := Tick incoming_external_requests s in
  if cap_permits s then
    let '(s1, l) := running_assign c s in
    (s1, Some (full_call_id (call_ c)), l)
  else
    (set_pending (pending_external_func_calls_ s ++ [c]) s, None,
     [EPendingPush c]).

Definition NewExternalFuncCall (env : Env) (c : ExternalFuncCallContext)
    (s : Server) : Server * list Effect :=
  let '(s1, for_dispatch, l1) := NewExternalFuncCall_locked c s in
  match for_dispatch with
  | Some k => let '(s2, l2) := dispatch_or_erase env k s1 in (s2, l1 ++ l2)
  | None => (s1, l1)
  end.

(** The promotion of the front of the pending queue, as both
    [OnRecvMessage] and [ProcessDiscardedFuncCallIfNecessary] write it:
    [front()], [pop()], then the assignment into the running table. *)
Definition promote_front (p : ExternalFuncCallContext)
    (rest : list ExternalFuncCallContext) (s : Server) : Server * list Effect :=
  let '(s1, l) := running_assign p (set_pending rest s) in
  (s1, EPendingPop p :: l).

(** The first loop of [ProcessDiscardedFuncCallIfNecessary], over
    [discarded_func_calls_]: the accumulators are
    [discarded_external_func_calls] and [discarded_internal_func_calls]. *)
Fixpoint collect_discarded (calls : list FuncCall) (s : Server)
    (ext : list ExternalFuncCallContext) (int : list FuncCall)
    : Server * list ExternalFuncCallContext * list FuncCall :=
  match calls with
  | [] => (s, ext, int)
  | func_call :: rest =>
      if client_id func_call =? 0 then
        match running_external_func_calls_ s !! full_call_id func_call with
        | Some c =>
            collect_discarded rest
              (set_running (delete (full_call_id func_call)
                              (running_external_func_calls_ s)) s)
              (ext ++ [c]) int
        | None => collect_discarded rest s ext int
        end
      else collect_discarded rest s ext (int ++ [func_call])
  end.

(** The [while] loop of [ProcessDiscardedFuncCallIfNecessary]; [queue] is
    [pending_external_func_calls_], one element shorter at each turn.  The
    second component is [func_calls_for_dispatch]. *)
Fixpoint promote_pending (queue : list ExternalFuncCallContext) (s : Server)
    : Server * list FuncCall * list Effect :=
  match queue with
  | [] => (s, [], [])
  | p :: rest =>
      if cap_permits s then
        let '(s1, l1) := promote_front p rest s in
        let '(s2, ds, l2) := promote_pending rest s1 in
        (s2, full_call_id (call_ p) :: ds, l1 ++ l2)
      else (s, [], [])
  end.

Definition ProcessDiscardedFuncCallIfNecessary_locked (s : Server)
    : Server * list ExternalFuncCallContext * list FuncCall * list FuncCall
      * list Effect :=
  let '(s1, ext, int) := collect_discarded (discarded_func_calls_ s) s [] [] in
  let s2 := set_discarded [] s1 in
  let '(s3, ds, l) := promote_pending (pending_external_func_calls_ s2) s2 in
  (s3, ext, int, ds, l).

(** [FinishWithDispatchFailure] on every element, then [clear()]. *)
Fixpoint destroy_all (cs : list ExternalFuncCallContext) (s : Server)
    : Server * list Effect :=
  match cs with
  | [] => (s, [])
  | c :: rest =>
      let '(s1, l1) := destroy c s in
      let '(s2, l2) := destroy_all rest s1 in
      (s2, l1 ++ l2)
  end.

Fixpoint dispatch_all (env : Env) (ks : list FuncCall) (s : Server)
    : Server * list Effect :=
  match ks with
  | [] => (s, [])
  | k :: rest =>
      let '(s1, l1) := dispatch_or_erase env k s in
      let '(s2, l2) := dispatch_all env rest s1 in
      (s2, l1 ++ l2)
  end.

Definition ProcessDiscardedFuncCallIfNecessary (env : Env) (s : Server)
    : Server * list Effect :=
  let '(s1, ext, int, ds, l1) := ProcessDiscardedFuncCallIfNecessary_locked s in
  let '(s2, l2) := destroy_all (map FinishWithDispatchFailure ext) s1 in
  let l3 := map (fun func_call => EFuncCallFinished func_call false) int in
  let '(s3, l4) := dispatch_all env ds s2 in
  (s3, l1 ++ l2 ++ l3 ++ l4).

(** [Server::GetOrCreateDispatcher], the locking wrapper. *)
Definition GetOrCreateDispatcher (f : N) (s : Server) : Server * bool :=
  GetOrCreateDispatcherLocked f s.

(** [Server::DiscardFuncCall] *)
Definition DiscardFuncCall (func_call : FuncCall) (s : Server) : Server :=
  Tick discarded_func_call
    (set_discarded (discarded_func_calls_ s ++ [func_call]) s).

(** Conversion of an [int32_t] to [size_t] (64 bits). *)
Definition size_t_of_int (z : Z) : N := Z.to_N (z mod 2 ^ 64).

(** The critical section of the Complete/Failed branch of [OnRecvMessage].
    The components of the result are the state, [func_call_context],
    [func_call_for_dispatch] and whether [dispatcher] is not [nullptr]. *)
Definition OnRecvMessage_finished_locked (m : Message) (s : Server)
    : Server * option ExternalFuncCallContext * option FuncCall * bool
      * list Effect :=
  let func_call := GetFuncCallFromMessage m in
  let s :=
    if IsFuncCallCompleteMessage m
       && (((client_id func_call =? 0) && (payload_size m <? 0)%Z)
           || ((0 <? client_id func_call)
               && (PIPE_BUF <? (size_t_of_int (payload_size m) + 4) mod 2 ^ 64)))
    then Tick output_use_shm s else s in
  let '(s1, ctx, for_dispatch, l) :=
    if client_id func_call =? 0 then
      match running_external_func_calls_ s !! full_call_id func_call with
      | Some c =>
          let s1 := set_running (delete (full_call_id func_call)
                                   (running_external_func_calls_ s)) s in
          match pending_external_func_calls_ s1 with
          | p :: rest =>
              if cap_permits s1 then
                let '(s2, l) := promote_front p rest s1 in
                (s2, Some c, Some (full_call_id (call_ p)), l)
              else (s1, Some c, None, [])
          | [] => (s1, Some c, None, [])
          end
      | None => (s, None, None, [])
      end
    else (s, None, None, []) in
  let '(s2, dispatcher) := GetOrCreateDispatcherLocked (func_id func_call) s1 in
  (s2, ctx, for_dispatch, dispatcher, l).

(** How the Complete/Failed branch finalizes the context it found. *)
Definition finish_for_message (env : Env) (m : Message)
    (c : ExternalFuncCallContext) : ExternalFuncCallContext :=
  if IsFuncCallCompleteMessage m then
    if (payload_size m <? 0)%Z
    then FinishWithShmOutput (ShmOpen_output env (full_call_id (call_ c))) c
    else FinishWithOutput (GetInlineDataFromMessage m) c
  else FinishWithError c.

Definition OnRecvMessage (env : Env) (m : Message) (s : Server)
    : Server * list Effect :=
  let func_call := GetFuncCallFromMessage m in
  let '(s1, l1) :=
    if IsInvokeFuncMessage m then
      let s := if (payload_size m <? 0)%Z then Tick input_use_shm s else s in
      let '(s1, dispatcher) := GetOrCreateDispatcherLocked (func_id func_call) s in
      if dispatcher then
        if (payload_size m <? 0)%Z then
          (s1, [EOnNewFuncCall func_call (parent_call_id m)
                  (Z.to_N (- payload_size m)) EmptyString true])
        else
          (s1, [EOnNewFuncCall func_call (parent_call_id m)
                  (Z.to_N (payload_size m)) (GetInlineDataFromMessage m) false])
      else (s1, [])
    else if IsFuncCallCompleteMessage m || IsFuncCallFailedMessage m then
      let '(s1, ctx, for_dispatch, dispatcher, l1) :=
        OnRecvMessage_finished_locked m s in
      let l2 :=
        if dispatcher then
          if IsFuncCallCompleteMessage m
          then [EOnFuncCallCompleted func_call (processing_time m)
                  (dispatch_delay m) (Z.to_N (Z.abs (payload_size m)))]
          else [EOnFuncCallFailed func_call (dispatch_delay m)]
        else [] in
      let ctx :=
        if client_id func_call =? 0
        then option_map (finish_for_message env m) ctx else ctx in
      let '(s2, l3) :=
        match for_dispatch with
        | Some k => dispatch_or_erase env k s1
        | None => (s1, [])
        end in
      let '(s3, l4) :=
        match ctx with
        | Some c => destroy c s2
        | None => (s2, [])
        end in
      (s3, l1 ++ l2 ++ l3 ++ l4)
    else (s, []) in
  let '(s2, l2) := ProcessDiscardedFuncCallIfNecessary env s1 in
  (s2, l1 ++ l2).

(** [next_call_id_.fetch_add(1)] on a 32-bit counter, then the constructor
    of [ExternalFuncCallContext], which counts the context as in flight. *)
Definition new_context (mk_call : N -> FuncCall) (k : ResponseSink) (s : Server)
    : ExternalFuncCallContext * Server :=
  let c := mkCtx (mk_call (next_call_id_ s)) k None None in
  (c, set_inflight (inflight_external_requests_ s + 1)%Z
        (set_next_call_id ((next_call_id_ s + 1) mod 2 ^ 32) s)).

Definition prepend (l0 : list Effect) (r : Server * list Effect)
    : Server * list Effect :=
  (r.1, l0 ++ r.2).

Definition OnNewGrpcCall (env : Env) (call_context : GrpcCallContext)
    (s : Server) : Server * list Effect :=
  let not_found :=
    (s, [EGrpcFinished (grpc_Finish (set_grpc_status NOT_FOUND call_context))]) in
  match find_by_func_name (func_config_ s)
          ("grpc:" +:+ grpc_service_name call_context) with
  | None => not_found
  | Some func_entry =>
      match grpc_method_ids func_entry !! grpc_method_name call_context with
      | None => not_found
      | Some method =>
          let '(c, s1) :=
            new_context (NewFuncCallWithMethod (entry_func_id func_entry) method 0)
                        (GrpcSink call_context) s in
          prepend [ECreated c] (NewExternalFuncCall env c s1)
      end
  end.

Definition OnExternalFuncCall (env : Env) (f : N)
    (http_context : HttpAsyncRequestContext) (s : Server)
    : Server * list Effect :=
  let '(c, s1) := new_context (NewFuncCall f 0) (HttpSink http_context) s in
  prepend [ECreated c] (NewExternalFuncCall env c s1).

(** Modelled from the spec: the worker manager lives outside this file; on
    a disconnect it pushes the calls in flight on the connection onto
    [discarded_func_calls_], through [DiscardFuncCall]. *)
Definition worker_manager_discards (env : Env) (connection : ConnectionBase)
    : list FuncCall :=
  if is_launcher_connection connection
  then OnLauncherDisconnected env (conn_id connection)
  else OnFuncWorkerDisconnected env (conn_id connection).

(** [Server::OnConnectionClose] *)
Definition OnConnectionClose (env : Env) (connection : ConnectionBase)
    (s : Server) : Server :=
  let id := conn_id connection in
  match conn_type connection with
  | HttpConnection =>
      set_connections (http_connections_ s ∖ {[id]}) (grpc_connections_ s)
                      (message_connections_ s) s
  | GrpcConnection =>
      set_connections (http_connections_ s) (grpc_connections_ s ∖ {[id]})
                      (message_connections_ s) s
  | MessageConnection =>
      let s1 :=
        if handshake_done connection
        then foldl (fun s' func_call => DiscardFuncCall func_call s') s
                   (worker_manager_discards env connection)
        else s in
      set_connections (http_connections_ s1) (grpc_connections_ s1)
                      (message_connections_ s1 ∖ {[id]}) s1
  | OtherConnection => s
  end.

(** ** Runs of the gateway *)

(** One invocation of an entry point of the server.  [ProcessDiscarded] is
    the sweep that [OnNewHandshake] starts after a function worker
    registered; [Discard] and [GetDispatcher] are calls of [DiscardFuncCall]
    and [GetOrCreateDispatcher] by the dispatcher or the worker manager. *)
Inductive Event :=
| ExternalFuncCall (env : Env) (f : N) (http_context : HttpAsyncRequestContext)
| NewGrpcCall (env : Env) (call_context : GrpcCallContext)
| RecvMessage (env : Env) (m : Message)
| ProcessDiscarded (env : Env)
| Discard (func_call : FuncCall)
| GetDispatcher (f : N)
| ConnectionClose (env : Env) (connection : ConnectionBase).

Definition handle (e : Event) (s : Server) : Server * list Effect :=
  match e with
  | ExternalFuncCall env f h => OnExternalFuncCall env f h s
  | NewGrpcCall env g => OnNewGrpcCall env g s
  | RecvMessage env m => OnRecvMessage env m s
  | ProcessDiscarded env => ProcessDiscardedFuncCallIfNecessary env s
  | Discard func_call => (DiscardFuncCall func_call s, [])
  | GetDispatcher f => ((GetOrCreateDispatcher f s).1, [])
  | ConnectionClose env c => (OnConnectionClose env c s, [])
  end.

(** The state after a sequence of events and all effects so far. *)
Fixpoint run (es : list Event) (s : Server) : Server * list Effect :=
  match es with
  | [] => (s, [])
  | e :: rest =>
      let '(s1, l1) := handle e s in
      let '(s2, l2) := run rest s1 in
      (s2, l1 ++ l2)
  end.

End Gateway.

(** ** The watchdog side: [watchdog::GatewayConnection] *)

Module Watchdog.

Inductive State := kCreated | kHandshake | kRunning | kClosing | kClosed.

#[global] Instance State_eq_dec : EqDecision State.
Proof. solve_decision. Defined.

(** Which read callback [uv_read_start] installed on the pipe, if any. *)
Inductive ReadCallback := ReadHandshakeResponse | ReadMessage.

#[global] Instance ReadCallback_eq_dec : EqDecision ReadCallback.
Proof. solve_decision. Defined.

(** The connection: [state_], the bytes gathered in [message_buffer_], and
    the part of the libuv pipe handle that the methods drive: whether
    [uv_close] was requested and which read callback is installed. *)
Record GatewayConnection := mkGatewayConnection {
  state_ : State;
  message_buffer_ : string;
  uv_closing : bool;
  uv_reading : option ReadCallback
}.

(** The constructor. *)
Definition GatewayConnection_new : GatewayConnection :=
  mkGatewayConnection kCreated EmptyString false None.

Definition set_state (st : State) (c : GatewayConnection) :=
  mkGatewayConnection st (message_buffer_ c) (uv_closing c) (uv_reading c).

(** The [DCHECK] of the destructor. *)
Definition destructor_DCHECK (c : GatewayConnection) : bool :=
  bool_decide (state_ c = kCreated) || bool_decide (state_ c = kClosed).

(** The [DCHECK] of [Start]. *)
Definition Start_DCHECK (c : GatewayConnection) : bool :=
  bool_decide (state_ c = kCreated).

Definition Start (c : GatewayConnection) : GatewayConnection :=
  set_state kHandshake c.

Definition ScheduleClose (c : GatewayConnection) : GatewayConnection :=
  if bool_decide (state_ c = kHandshake) || bool_decide (state_ c = kRunning)
  then mkGatewayConnection kClosing (message_buffer_ c) true (uv_reading c)
  else c.

(** [accepted] is the result of [Watchdog::OnRecvHandshakeResponse]. *)
Definition RecvHandshakeResponse (accepted : bool) (c : GatewayConnection)
    : GatewayConnection :=
  let c := mkGatewayConnection (state_ c) (message_buffer_ c) (uv_closing c) None in
  if accepted
  then mkGatewayConnection kRunning EmptyString (uv_closing c) (Some ReadMessage)
  else c.

Definition ConnectCallback (status : Z) (c : GatewayConnection) :=
  if bool_decide (status ≠ 0%Z) then ScheduleClose c else c.

Definition WriteHandshakeCallback (status : Z) (c : GatewayConnection) :=
  if bool_decide (status ≠ 0%Z) then ScheduleClose c
  else mkGatewayConnection (state_ c) (message_buffer_ c) (uv_closing c)
         (Some ReadHandshakeResponse).

(** [sizeof_HandshakeResponse] is [sizeof(HandshakeResponse)]; [data] are the
    [nread] bytes of the buffer when [nread] is positive. *)
Definition ReadHandshakeResponseCallback (sizeof_HandshakeResponse : nat)
    (nread : Z) (data : string) (accepted : bool) (c : GatewayConnection) :=
  if (nread <? 0)%Z then ScheduleClose c
  else if (nread =? 0)%Z then c
  else
    let c := mkGatewayConnection (state_ c) (message_buffer_ c +:+ data)
               (uv_closing c) (uv_reading c) in
    if bool_decide (String.length (message_buffer_ c) = sizeof_HandshakeResponse)
    then RecvHandshakeResponse accepted c else c.

(** [utils::ReadMessages] hands the complete messages to
    [Watchdog::OnRecvMessage]; [rest] is what it leaves in
    [message_buffer_]. *)
Definition ReadMessageCallback (nread : Z) (rest : string)
    (c : GatewayConnection) :=
  if (nread <? 0)%Z then ScheduleClose c
  else if (nread =? 0)%Z then c
  else mkGatewayConnection (state_ c) rest (uv_closing c) (uv_reading c).

Definition WriteMessageCallback (status : Z) (c : GatewayConnection) :=
  if bool_decide (status ≠ 0%Z) then ScheduleClose c else c.

Definition CloseCallback (c : GatewayConnection) : GatewayConnection :=
  set_state kClosed c.

(** Everything that can happen to a connection. *)
Inductive Event :=
| EvStart
| EvScheduleClose
| EvConnect (status : Z)
| EvWriteHandshake (status : Z)
| EvReadHandshakeResponse (nread : Z) (data : string) (accepted : bool)
| EvReadMessage (nread : Z) (rest : string)
| EvWriteMessage (status : Z)
| EvClose.

Definition step (sizeof_HandshakeResponse : nat) (e : Event)
    (c : GatewayConnection) : GatewayConnection :=
  match e with
  | EvStart => Start c
  | EvScheduleClose => ScheduleClose c
  | EvConnect status => ConnectCallback status c
  | EvWriteHandshake status => WriteHandshakeCallback status c
  | EvReadHandshakeResponse nread data accepted =>
      ReadHandshakeResponseCallback sizeof_HandshakeResponse nread data accepted c
  | EvReadMessage nread rest => ReadMessageCallback nread rest c
  | EvWriteMessage status => WriteMessageCallback status c
  | EvClose => CloseCallback c
  end.

(** When an event can occur: [Start] under its [DCHECK]; libuv delivers a
    read callback only while that callback is installed and the handle is
    not closing, and the close callback only after [uv_close]. *)
Definition enabled (e : Event) (c : GatewayConnection) : bool :=
  match e with
  | EvStart => Start_DCHECK c
  | EvReadHandshakeResponse _ _ _ =>
      negb (uv_closing c)
      && bool_decide (uv_reading c = Some ReadHandshakeResponse)
  | EvReadMessage _ _ =>
      negb (uv_closing c) && bool_decide (uv_reading c = Some ReadMessage)
  | EvClose => uv_closing c
  | _ => true
  end.

(** [trace n c es c']: the events [es], each enabled when it occurs, lead
    from [c] to [c']. *)
Inductive trace (n : nat) : GatewayConnection -> list Event -> GatewayConnection -> Prop :=
| trace_nil c : trace n c [] c
| trace_cons c e es c' :
    enabled e c = true -> trace n (step n e c) es c' -> trace n c (e :: es) c'.

(** The order of the states along the life of a connection. *)
Definition rank (st : State) : nat :=
  match st with
  | kCreated => 0 | kHandshake => 1 | kRunning => 2 | kClosing => 3 | kClosed => 4
  end.

(** On a connection that libuv can drive, a closing or closed state means
    that [uv_close] was requested. *)
Definition closing_recorded (c : GatewayConnection) : Prop :=
  state_ c = kClosing \/ state_ c = kClosed -> uv_closing c = true.

End Watchdog.

(** ** Vocabulary of the properties *)

(** The contexts a log creates, destroys, pushes onto the pending queue and
    pops from it, each in the order of the log. *)
Definition created (l : list Effect) : list ExternalFuncCallContext :=
  omap (fun e => match e with ECreated c => Some c | _ => None end) l.
Definition destroyed (l : list Effect) : list ExternalFuncCallContext :=
  omap (fun e => match e with EDestroyed c => Some c | _ => None end) l.
Definition pushed (l : list Effect) : list ExternalFuncCallContext :=
  omap (fun e => match e with EPendingPush c => Some c | _ => None end) l.
Definition popped (l : list Effect) : list ExternalFuncCallContext :=
  omap (fun e => match e with EPendingPop c => Some c | _ => None end) l.
Definition dispatched (l : list Effect) : list FuncCall :=
  omap (fun e => match e with EDispatchExternal k => Some k | _ => None end) l.

(** The four ways in which a context is finalized. *)
Inductive FinishVariant :=
| ShmOutput (r : ShmRegion)
| InlineOutput (output : string)
| Error
| DispatchFailure.

Definition finish_with (v : FinishVariant) (c : ExternalFuncCallContext)
    : ExternalFuncCallContext :=
  match v with
  | ShmOutput r => FinishWithShmOutput (Some r) c
  | InlineOutput output => FinishWithOutput output c
  | Error => FinishWithError c
  | DispatchFailure => FinishWithDispatchFailure c
  end.

(** [cap_ok s]: the running table respects a nonzero cap. *)
Definition cap_ok (s : Server) : Prop :=
  max_running_external_requests_ s <> 0 ->
  N.of_nat (size (running_external_func_calls_ s))
    <= max_running_external_requests_ s.

(** What the properties below observe of a server and of the log of its
    past: the cap, the call id counter, the two tables and the contexts the
    log created, destroyed, pushed and popped. *)
Record View := mkView {
  v_cap : N;
  v_next : N;
  v_running : gmap FuncCall ExternalFuncCallContext;
  v_pending : list ExternalFuncCallContext;
  v_created : list ExternalFuncCallContext;
  v_destroyed : list ExternalFuncCallContext;
  v_pushed : list ExternalFuncCallContext;
  v_popped : list ExternalFuncCallContext
}.

Definition view (s : Server) (l : list Effect) : View :=
  mkView (max_running_external_requests_ s) (next_call_id_ s)
         (running_external_func_calls_ s) (pending_external_func_calls_ s)
         (created l) (destroyed l) (pushed l) (popped l).

Definition v_permits (v : View) : bool :=
  (v_cap v =? 0) || (N.of_nat (size (v_running v)) <? v_cap v).

(** The context that an assignment to the slot of [k] destroys. *)
Definition overwritten (k : FuncCall)
    (m : gmap FuncCall ExternalFuncCallContext) : list ExternalFuncCallContext :=
  match m !! k with Some old => [old] | None => [] end.

Definition fresh_context (v : View) (c : ExternalFuncCallContext) : Prop :=
  call_id (call_ c) = v_next v.

(** The moves from which every handler is composed, as seen through
    [view]: a new context enters the running table or the pending queue;
    the front of the queue is promoted; a running context is updated in
    place without touching its sink; a running context is removed,
    finalized and destroyed; and the order of the destructions recorded so
    far is immaterial. *)
Inductive move : View -> View -> Prop :=
| move_create_run v c :
    v_permits v = true -> fresh_context v c ->
    move v (mkView (v_cap v) ((v_next v + 1) mod 2 ^ 32)
              (<[call_ c := c]> (v_running v)) (v_pending v)
              (v_created v ++ [c])
              (v_destroyed v ++ overwritten (call_ c) (v_running v))
              (v_pushed v) (v_popped v))
| move_create_pend v c :
    v_permits v = false -> fresh_context v c ->
    move v (mkView (v_cap v) ((v_next v + 1) mod 2 ^ 32)
              (v_running v) (v_pending v ++ [c])
              (v_created v ++ [c]) (v_destroyed v)
              (v_pushed v ++ [c]) (v_popped v))
| move_promote v p rest :
    v_pending v = p :: rest -> v_permits v = true ->
    move v (mkView (v_cap v) (v_next v)
              (<[call_ p := p]> (v_running v)) rest
              (v_created v)
              (v_destroyed v ++ overwritten (call_ p) (v_running v))
              (v_pushed v) (v_popped v ++ [p]))
| move_update v k c c1 :
    v_running v !! k = Some c -> call_ c1 = call_ c -> sink_ c1 = sink_ c ->
    move v (mkView (v_cap v) (v_next v)
              (<[k := c1]> (v_running v)) (v_pending v)
              (v_created v) (v_destroyed v) (v_pushed v) (v_popped v))
| move_finish v k c c1 fv :
    v_running v !! k = Some c -> call_ c1 = call_ c -> sink_ c1 = sink_ c ->
    move v (mkView (v_cap v) (v_next v)
              (delete k (v_running v)) (v_pending v)
              (v_created v) (v_destroyed v ++ [finish_with fv c1])
              (v_pushed v) (v_popped v))
| move_reorder v d :
    d ≡ₚ v_destroyed v ->
    move v (mkView (v_cap v) (v_next v) (v_running v) (v_pending v)
              (v_created v) d (v_pushed v) (v_popped v)).

(** [tables_of v s]: the view [v] shows the tables of [s]; [extend v s l]
    is the view after the server went on to [s] and logged [l]. *)
Definition tables_of (v : View) (s : Server) : Prop :=
  v_cap v = max_running_external_requests_ s
  /\ v_next v = next_call_id_ s
  /\ v_running v = running_external_func_calls_ s
  /\ v_pending v = pending_external_func_calls_ s.

Definition extend (v : View) (s : Server) (l : list Effect) : View :=
  mkView (max_running_external_requests_ s) (next_call_id_ s)
         (running_external_func_calls_ s) (pending_external_func_calls_ s)
         (v_created v ++ created l) (v_destroyed v ++ destroyed l)
         (v_pushed v ++ pushed l) (v_popped v ++ popped l).

(** The cap and the queue discipline, read off a view: the running table
    respects a nonzero cap, and what was pushed is what was popped followed
    by what still waits. *)
Definition v_cap_ok (v : View) : Prop :=
  v_cap v <> 0 -> N.of_nat (size (v_running v)) <= v_cap v.


(** The contexts the server owns: the waiting ones and the running ones. *)
Definition running_contexts (m : gmap FuncCall ExternalFuncCallContext)
    : list ExternalFuncCallContext :=
  (map_to_list m).*2.

Definition alive (s : Server) : list ExternalFuncCallContext :=
  pending_external_func_calls_ s
  ++ running_contexts (running_external_func_calls_ s).

Definition v_alive (v : View) : list ExternalFuncCallContext :=
  v_pending v ++ running_contexts (v_running v).

(** [finalized_once c0 c']: [c'] is the context created as [c0] after exactly
    one finalization, by one of the four variants; in between only its
    shared memory regions may have changed. *)
Definition finalized_once (c0 c' : ExternalFuncCallContext) : Prop :=
  exists fv c1,
    call_ c1 = call_ c0 /\ sink_ c1 = sink_ c0 /\ c' = finish_with fv c1.

(** The life cycle of the contexts, read off a view: the call ids were
    handed out in sequence from 1; a context is stored under its own call;
    the contexts created are, call by call, those destroyed and those
    alive; an alive context has the sink it was created with; a destroyed
    one was finalized once. *)
Definition v_lifecycle (v : View) : Prop :=
  v_next v = 1 + N.of_nat (length (v_created v))
  /\ (forall i c, v_created v !! i = Some c ->
        call_id (call_ c) = 1 + N.of_nat i)
  /\ (forall k c, v_running v !! k = Some c -> call_ c = k)
  /\ map call_ (v_created v) ≡ₚ map call_ (v_destroyed v ++ v_alive v)
  /\ (forall c, c ∈ v_alive v ->
        exists c0, c0 ∈ v_created v /\ call_ c0 = call_ c /\ sink_ c0 = sink_ c)
  /\ (forall c', c' ∈ v_destroyed v ->
        exists c0, c0 ∈ v_created v /\ finalized_once c0 c').

(** ** Sample data for the examples

    A configuration with one HTTP function and one gRPC service, collaborators
    that accept everything or refuse one thing, and the constants of the
    scenarios: an inline limit of 1024 bytes and a [PIPE_BUF] of 4096. *)
Definition sample_config : FuncConfig :=
  [mkEntry "echo" 1 ∅; mkEntry "grpc:svc" 2 {["Do" := 3]}].

Definition sample_invalid_call : FuncCall := mkFuncCall 0 0 0 0.

Definition env_ready : Env :=
  mkEnv (fun _ => true) (fun _ => Some (mkShm "out" false)) (fun _ => true)
        (fun _ => []) (fun _ => []).

Definition env_no_shm : Env :=
  mkEnv (fun _ => false) (fun _ => None) (fun _ => true) (fun _ => [])
        (fun _ => []).

Definition env_no_worker : Env :=
  mkEnv (fun _ => true) (fun _ => None) (fun _ => false) (fun _ => [])
        (fun _ => []).

(** The worker manager discards call 1 of function 1 when a function
    worker disconnects. *)
Definition env_worker_gone : Env :=
  mkEnv (fun _ => true) (fun _ => None) (fun _ => true) (fun _ => [])
        (fun _ => [mkFuncCall 1 0 0 1]).

Definition sample_http (body : string) : HttpAsyncRequestContext :=
  mkHttp "/function/echo" body EmptyString 200 0.

Definition sample_grpc (method : string) : GrpcCallContext :=
  mkGrpc "svc" method "in" EmptyString GRPC_OK 0.

Definition big_body : string := String.concat EmptyString (replicate 1025 "x").

Definition sample_context (i : N) (body : string) : ExternalFuncCallContext :=
  mkCtx (NewFuncCall 1 0 i) (HttpSink (sample_http body)) None None.

Definition sample_run (es : list Event) : Server * list Effect :=
  run 1024 4096 sample_invalid_call es (Server_init 2 sample_config).

(** Three requests against a cap of two. *)
Definition three_requests : list Event :=
  [ExternalFuncCall env_ready 1 (sample_http "a");
   ExternalFuncCall env_ready 1 (sample_http "b");
   ExternalFuncCall env_ready 1 (sample_http "c")].

Definition complete_first : Message :=
  mkMessage FUNC_CALL_COMPLETE (mkFuncCall 1 0 0 1) sample_invalid_call 2 0 0
            "ok".

(** ** Vocabulary of the further properties *)

(** [accounts s l s']: going from [s] to [s'] while logging [l] keeps the
    books of the server: the configuration is the same; dispatchers are only
    added, and only for configured functions; the in-flight counter moved by
    the contexts created minus the contexts destroyed; the counter of
    incoming requests moved by the contexts created; and whatever waits in
    the pending queue waited there before or was created on the way. *)
Definition accounts (s : Server) (l : list Effect) (s' : Server) : Prop :=
  func_config_ s' = func_config_ s
  /\ dispatchers_ s ⊆ dispatchers_ s'
  /\ (forall f, f ∈ dispatchers_ s' ->
        f ∈ dispatchers_ s \/ is_Some (find_by_func_id (func_config_ s) f))
  /\ inflight_external_requests_ s'
     = (inflight_external_requests_ s + Z.of_nat (length (created l))
        - Z.of_nat (length (destroyed l)))%Z
  /\ incoming_external_requests_stat_ s'
     = incoming_external_requests_stat_ s + N.of_nat (length (created l))
  /\ (forall c, c ∈ pending_external_func_calls_ s' ->
        c ∈ pending_external_func_calls_ s \/ c ∈ created l).

(** The fields that [accounts] reads. *)
Definition books (s : Server) :=
  (func_config_ s, dispatchers_ s, inflight_external_requests_ s,
   incoming_external_requests_stat_ s, pending_external_func_calls_ s).

(** Every dispatcher belongs to a configured function. *)
Definition dispatchers_ok (s : Server) : Prop :=
  forall f, f ∈ dispatchers_ s -> is_Some (find_by_func_id (func_config_ s) f).

(** A context that was never dispatched owns no shared memory region. *)
Definition no_regions (c : ExternalFuncCallContext) : Prop :=
  input_region_ c = None /\ output_region_ c = None.

(** [input_region_ok limit c]: the context either has no input region, or
    its input is longer than [limit] and the region holds that input and is
    removed when the context is destroyed. *)
Definition input_region_ok (limit : N) (c : ExternalFuncCallContext) : Prop :=
  input_region_ c = None
  \/ (limit < N.of_nat (String.length (GetInput c))
      /\ input_region_ c = Some (mkShm (GetInput c) true)).

(** [contexts_ok limit s]: the contexts the server owns are well formed.  A
    waiting context is an external call without shared memory regions; a
    running one is stored under its own call, is an external call, has no
    output region, and its input region is as [input_region_ok] says. *)
Definition contexts_ok (limit : N) (s : Server) : Prop :=
  (forall c, c ∈ pending_external_func_calls_ s ->
     client_id (call_ c) = 0 /\ no_regions c)
  /\ (forall k c, running_external_func_calls_ s !! k = Some c ->
        call_ c = k /\ client_id k = 0
        /\ output_region_ c = None /\ input_region_ok limit c).


(** * The front end of the gateway

    The parts of [Server] around the core: the table of HTTP request
    handlers, the pools of IO workers with the accept callbacks, and the
    handshake of a message connection. *)

(** ** HTTP request routing *)

(** [absl::StartsWith] and [absl::StripPrefix] on [std::string_view]. *)
Definition StartsWith (text prefix : string) : bool := String.prefix prefix text.

Definition StripPrefix (text prefix : string) : string :=
  if StartsWith text prefix
  then String.substring (String.length prefix)
         (String.length text - String.length prefix) text
  else text.

(** [gsl::narrow_cast<uint16_t>] *)
Definition narrow_cast_uint16 (n : N) : N := n mod 2 ^ 16.

(** Modelled from the spec: [HttpSyncRequestContext] (the HTTP ingress
    layer); the handlers of this file only append to its response body. *)
Record HttpSyncRequestContext := mkSync {
  sync_response_body : string
}.

Definition sync_AppendToResponseBody (data : string) (h : HttpSyncRequestContext) :=
  mkSync (sync_response_body h +:+ data).

(** The two kinds of handler of a [RequestHandler].  A synchronous handler
    returns the context and whether it called [ScheduleStop]; an
    asynchronous one acts on the server, and has no result when its
    [DCHECK] fails. *)
Inductive RequestHandlerFn :=
| SyncRequestHandler
    (handler : HttpSyncRequestContext -> HttpSyncRequestContext * bool)
| AsyncRequestHandler
    (handler : Env -> HttpAsyncRequestContext -> Server
               -> option (Server * list Effect)).

(** A matcher is a closure that may capture [this]: it is given the server
    when it runs. *)
Record RequestHandler := mkRequestHandler {
  matcher_ : Server -> string -> string -> bool;
  handler_ : RequestHandlerFn
}.

Section Frontend.

Variable MESSAGE_INLINE_DATA_SIZE : N.
Variable kInvalidFuncCall : FuncCall.

(** Constants and a constructor of headers that are not part of these two
    files: [docker_utils::kContainerIdLength],
    [docker_utils::kInvalidContainerId] and
    [protocol::NewHandshakeResponseMessage]. *)
Variable kContainerIdLength : nat.
Variable kInvalidContainerId : string.
Variable NewHandshakeResponseMessage : nat -> Message.

Definition RegisterSyncRequestHandler
    (matcher : Server -> string -> string -> bool)
    (handler : HttpSyncRequestContext -> HttpSyncRequestContext * bool)
    (request_handlers_ : list RequestHandler) : list RequestHandler :=
  request_handlers_ ++ [mkRequestHandler matcher (SyncRequestHandler handler)].

Definition RegisterAsyncRequestHandler
    (matcher : Server -> string -> string -> bool)
    (handler : Env -> HttpAsyncRequestContext -> Server
               -> option (Server * list Effect))
    (request_handlers_ : list RequestHandler) : list RequestHandler :=
  request_handlers_ ++ [mkRequestHandler matcher (AsyncRequestHandler handler)].

(** The three pairs of closures of [RegisterInternalRequestHandlers]. *)
Definition shutdown_matcher (s : Server) (method path : string) : bool :=
  bool_decide (method = "POST") && bool_decide (path = "/shutdown").

Definition shutdown_handler (context : HttpSyncRequestContext)
    : HttpSyncRequestContext * bool :=
  (sync_AppendToResponseBody ("Server is shutting down" +:+ newline) context,
   true).

Definition hello_matcher (s : Server) (method path : string) : bool :=
  bool_decide (method = "GET") && bool_decide (path = "/hello").

Definition hello_handler (context : HttpSyncRequestContext)
    : HttpSyncRequestContext * bool :=
  (sync_AppendToResponseBody ("Hello world" +:+ newline) context, false).

Definition function_matcher (s : Server) (method path : string) : bool :=
  if negb (bool_decide (method = "POST")) || negb (StartsWith path "/function/")
  then false
  else
    let func_name := StripPrefix path "/function/" in
    match find_by_func_name (func_config_ s) func_name with
    | Some _ => true
    | None => false
    end.

Definition function_handler (env : Env) (context : HttpAsyncRequestContext)
    (s : Server) : option (Server * list Effect) :=
  match find_by_func_name (func_config_ s)
          (StripPrefix (http_path context) "/function/") with
  | Some func_entry =>
      Some (OnExternalFuncCall MESSAGE_INLINE_DATA_SIZE kInvalidFuncCall env
              (narrow_cast_uint16 (entry_func_id func_entry)) context s)
  | None => None
  end.

Definition RegisterInternalRequestHandlers
    (request_handlers_ : list RequestHandler) : list RequestHandler :=
  RegisterAsyncRequestHandler function_matcher function_handler
    (RegisterSyncRequestHandler hello_matcher hello_handler
       (RegisterSyncRequestHandler shutdown_matcher shutdown_handler
          request_handlers_)).

(** [Server::MatchRequest]: the first entry whose matcher accepts. *)
Definition MatchRequest (request_handlers_ : list RequestHandler) (s : Server)
    (method path : string) : option RequestHandler :=
  List.find (fun entry => matcher_ entry s method path) request_handlers_.

(** ** IO workers and the accept callbacks *)

(** Modelled from the spec: an IO worker ([server::IOWorker]) is known by
    the name that [CreateIOWorker] was given. *)
Definition IOWorker := string.

(** Modelled from the spec: the counters of connection ids are [int]
    members (their declaration, in server.h, is not among the sources).
    [x++] on such a member, as the compiled code performs it: two's
    complement wrap-around at 32 bits. *)
Definition int_succ (x : Z) : Z := ((x + 1 + 2 ^ 31) mod 2 ^ 32 - 2 ^ 31)%Z.

(** The members of [Server] on the accept side, kept in a record of their
    own: the two pools of IO workers, the round-robin cursors ([size_t])
    and the counters of connection ids ([int]).  The state of the C++
    object is a [Server] together with a [Listener]; the accept callbacks
    act on the pair. *)
Record Listener := mkListener {
  http_workers_ : list IOWorker;
  ipc_workers_ : list IOWorker;
  next_http_worker_id_ : nat;
  next_ipc_worker_id_ : nat;
  next_http_connection_id_ : Z;
  next_grpc_connection_id_ : Z
}.

(** The pools that [StartInternal] builds from [num_http_workers_],
    [num_ipc_workers_] and [num_io_workers_]; no result when one of its
    [CHECK_GT]s fails. *)
Definition StartInternal_workers
    (num_http_workers_ num_ipc_workers_ num_io_workers_ : Z)
    : option (list IOWorker * list IOWorker) :=
  if (num_io_workers_ =? -1)%Z then
    if (0 <? num_http_workers_)%Z && (0 <? num_ipc_workers_)%Z then
      Some ((fun i : Z => "Http-" +:+ pretty i) <$> seqZ 0 num_http_workers_,
            (fun i : Z => "Ipc-" +:+ pretty i) <$> seqZ 0 num_ipc_workers_)
    else None
  else if (0 <? num_io_workers_)%Z then
    let io_workers := (fun i : Z => "IO-" +:+ pretty i) <$> seqZ 0 num_io_workers_ in
    Some (io_workers, io_workers)
  else None.

(** The listener after the constructor of [Server], which sets cursors and
    counters to zero, and the part of [StartInternal] that starts the IO
    workers. *)
Definition Listener_start
    (num_http_workers_ num_ipc_workers_ num_io_workers_ : Z) : option Listener :=
  match StartInternal_workers num_http_workers_ num_ipc_workers_
          num_io_workers_ with
  | Some (http_workers, ipc_workers) =>
      Some (mkListener http_workers ipc_workers 0 0 0 0)
  | None => None
  end.

(** [http_workers_[next_http_worker_id_]], then the cursor moves on; no
    result when the index is out of range. *)
Definition PickHttpWorker (w : Listener) : option (IOWorker * Listener) :=
  match http_workers_ w !! next_http_worker_id_ w with
  | Some io_worker =>
      Some (io_worker,
            mkListener (http_workers_ w) (ipc_workers_ w)
              ((next_http_worker_id_ w + 1) mod length (http_workers_ w))%nat
              (next_ipc_worker_id_ w)
              (next_http_connection_id_ w) (next_grpc_connection_id_ w))
  | None => None
  end.

Definition PickIpcWorker (w : Listener) : option (IOWorker * Listener) :=
  match ipc_workers_ w !! next_ipc_worker_id_ w with
  | Some io_worker =>
      Some (io_worker,
            mkListener (http_workers_ w) (ipc_workers_ w)
              (next_http_worker_id_ w)
              ((next_ipc_worker_id_ w + 1) mod length (ipc_workers_ w))%nat
              (next_http_connection_id_ w) (next_grpc_connection_id_ w))
  | None => None
  end.

(** What [RegisterConnection] is given: the IO worker, and the new
    connection with its type, its address and, for HTTP and gRPC, its id. *)
Record Registration := mkRegistration {
  reg_worker : IOWorker;
  reg_type : ConnectionType;
  reg_connection : N;
  reg_id : option Z
}.

(** The three accept callbacks.  [status] is the argument of the callback,
    [connection] the address of the connection object that [new] returns,
    and [accepted] tells whether [uv_accept] returned zero. *)
Definition HttpConnectionCallback (status : Z) (connection : N) (accepted : bool)
    (st : Server * Listener) : option (Server * Listener * option Registration) :=
  let '(s, w) := st in
  if bool_decide (status ≠ 0%Z) then Some (s, w, None)
  else
    let id := next_http_connection_id_ w in
    let w := mkListener (http_workers_ w) (ipc_workers_ w)
               (next_http_worker_id_ w) (next_ipc_worker_id_ w)
               (int_succ id) (next_grpc_connection_id_ w) in
    if accepted then
      match PickHttpWorker w with
      | Some (io_worker, w) =>
          Some (set_connections ({[connection]} ∪ http_connections_ s)
                  (grpc_connections_ s) (message_connections_ s) s,
                w,
                Some (mkRegistration io_worker HttpConnection connection (Some id)))
      | None => None
      end
    else Some (s, w, None).

Definition GrpcConnectionCallback (status : Z) (connection : N) (accepted : bool)
    (st : Server * Listener) : option (Server * Listener * option Registration) :=
  let '(s, w) := st in
  if bool_decide (status ≠ 0%Z) then Some (s, w, None)
  else
    let id := next_grpc_connection_id_ w in
    let w := mkListener (http_workers_ w) (ipc_workers_ w)
               (next_http_worker_id_ w) (next_ipc_worker_id_ w)
               (next_http_connection_id_ w) (int_succ id) in
    if accepted then
      match PickHttpWorker w with
      | Some (io_worker, w) =>
          Some (set_connections (http_connections_ s)
                  ({[connection]} ∪ grpc_connections_ s)
                  (message_connections_ s) s,
                w,
                Some (mkRegistration io_worker GrpcConnection connection (Some id)))
      | None => None
      end
    else Some (s, w, None).

Definition MessageConnectionCallback (status : Z) (connection : N)
    (accepted : bool) (st : Server * Listener)
    : option (Server * Listener * option Registration) :=
  let '(s, w) := st in
  if bool_decide (status ≠ 0%Z) then Some (s, w, None)
  else if accepted then
    match PickIpcWorker w with
    | Some (io_worker, w) =>
        Some (set_connections (http_connections_ s) (grpc_connections_ s)
                ({[connection]} ∪ message_connections_ s) s,
              w,
              Some (mkRegistration io_worker MessageConnection connection None))
    | None => None
    end
  else Some (s, w, None).

(** One accept callback, and a sequence of them with the registrations
    they make, in order. *)
Inductive AcceptEvent :=
| AcceptHttp (status : Z) (connection : N) (accepted : bool)
| AcceptGrpc (status : Z) (connection : N) (accepted : bool)
| AcceptMessage (status : Z) (connection : N) (accepted : bool).

Definition accept (e : AcceptEvent) (st : Server * Listener)
    : option (Server * Listener * option Registration) :=
  match e with
  | AcceptHttp status connection accepted =>
      HttpConnectionCallback status connection accepted st
  | AcceptGrpc status connection accepted =>
      GrpcConnectionCallback status connection accepted st
  | AcceptMessage status connection accepted =>
      MessageConnectionCallback status connection accepted st
  end.

Fixpoint accept_all (es : list AcceptEvent) (st : Server * Listener)
    : option (Server * Listener * list Registration) :=
  match es with
  | [] => Some (st, [])
  | e :: rest =>
      match accept e st with
      | Some (s, w, r) =>
          match accept_all rest (s, w) with
          | Some (st', rs) => Some (st', option_list r ++ rs)
          | None => None
          end
      | None => None
      end
  end.

(** ** The handshake of a message connection *)

(** Modelled from the spec: [protocol::IsLauncherHandshakeMessage] and
    [protocol::IsFuncWorkerHandshakeMessage] (protocol.h). *)
Definition IsLauncherHandshakeMessage (m : Message) : bool :=
  bool_decide (message_type m = LAUNCHER_HANDSHAKE).
Definition IsFuncWorkerHandshakeMessage (m : Message) : bool :=
  bool_decide (message_type m = FUNC_WORKER_HANDSHAKE).

(** What [OnNewHandshake] leaves behind: the server, the effects of the
    drain, the call of [Monitor::OnNewFuncContainer] if there was one, and
    the response with its payload when the result is [true]. *)
Record Handshake := mkHandshake {
  hs_server : Server;
  hs_effects : list Effect;
  hs_new_func_container : option (N * string);
  hs_response : option (Message * string)
}.

(** [Server::OnNewHandshake].  [monitor] tells whether [monitor_] is not
    [nullptr]; [func_config_json_] is the member of that name;
    [OnLauncherConnected] and [OnFuncWorkerConnected] are the answers of
    the worker manager for this connection. *)
Definition OnNewHandshake (env : Env) (monitor : bool)
    (func_config_json_ : string)
    (OnLauncherConnected OnFuncWorkerConnected : bool)
    (handshake_message : Message) (s : Server) : Handshake :=
  let response :=
    (NewHandshakeResponseMessage (String.length func_config_json_),
     func_config_json_) in
  if negb (IsLauncherHandshakeMessage handshake_message)
     && negb (IsFuncWorkerHandshakeMessage handshake_message)
  then mkHandshake s [] None None
  else
    let func_id := func_id (msg_func_call handshake_message) in
    match find_by_func_id (func_config_ s) func_id with
    | None => mkHandshake s [] None None
    | Some _ =>
        if IsLauncherHandshakeMessage handshake_message then
          let payload := GetInlineDataFromMessage handshake_message in
          if negb (bool_decide (String.length payload = kContainerIdLength))
          then mkHandshake s [] None None
          else
            let container :=
              if monitor && negb (bool_decide (payload = kInvalidContainerId))
              then Some (func_id, payload) else None in
            mkHandshake s [] container
              (if OnLauncherConnected then Some response else None)
        else
          let '(s1, l) :=
            ProcessDiscardedFuncCallIfNecessary MESSAGE_INLINE_DATA_SIZE
              kInvalidFuncCall env s in
          mkHandshake s1 l None
            (if OnFuncWorkerConnected then Some response else None)
    end.

End Frontend.


(** ** Vocabulary of the properties of the front end *)

(** The cursors of a listener point into its pools. *)
Definition listener_ok (w : Listener) : Prop :=
  (next_http_worker_id_ w < length (http_workers_ w))%nat
  /\ (next_ipc_worker_id_ w < length (ipc_workers_ w))%nat.

(** Whether a registration was served from the pool of HTTP workers. *)
Definition on_http_pool (r : Registration) : bool :=
  match reg_type r with
  | HttpConnection | GrpcConnection => true
  | _ => false
  end.

Definition on_ipc_pool (r : Registration) : bool :=
  match reg_type r with
  | MessageConnection => true
  | _ => false
  end.

(** A configuration with a function whose id does not fit 16 bits, and a
    listener with three HTTP workers and two IPC workers. *)
Definition wide_config : FuncConfig :=
  [mkEntry "echo" 1 ∅; mkEntry "wide" 65537 ∅].

Definition sample_listener : Listener :=
  mkListener ["Http-0"; "Http-1"; "Http-2"] ["Ipc-0"; "Ipc-1"] 0 0 0 0.


(** The accept callbacks that take a connection id: those of an HTTP or of
    a gRPC connection whose [status] is zero, whether or not [uv_accept]
    succeeds afterwards. *)
Definition http_attempt (e : AcceptEvent) : bool :=
  match e with
  | AcceptHttp status _ _ => bool_decide (status = 0%Z)
  | _ => false
  end.

Definition grpc_attempt (e : AcceptEvent) : bool :=
  match e with
  | AcceptGrpc status _ _ => bool_decide (status = 0%Z)
  | _ => false
  end.

(** The ids given to the registered HTTP connections and to the registered
    gRPC connections, each in the order of registration. *)
Definition http_ids (rs : list Registration) : list Z :=
  omap (fun r => match reg_type r with
                 | HttpConnection => reg_id r
                 | _ => None
                 end) rs.

Definition grpc_ids (rs : list Registration) : list Z :=
  omap (fun r => match reg_type r with
                 | GrpcConnection => reg_id r
                 | _ => None
                 end) rs.


(** The callbacks of the watchdog connection that report a failure: a
    nonzero [status], or a negative [nread]. *)
Definition reports_error (e : Watchdog.Event) : bool :=
  match e with
  | Watchdog.EvConnect status
  | Watchdog.EvWriteHandshake status
  | Watchdog.EvWriteMessage status => bool_decide (status ≠ 0%Z)
  | Watchdog.EvReadHandshakeResponse nread _ _
  | Watchdog.EvReadMessage nread _ => (nread <? 0)%Z
  | _ => false
  end.


(** [notice_ok limit invalid src e]: if [e] is a call of
    [Dispatcher::OnNewFuncCall], then it is the one that
    [DispatchExternalFuncCall] makes for a context [c] of [src]: it names the
    call of [c] and no parent, the input size is the length of the input of
    [c], the input travels through shared memory exactly when it is longer
    than [limit], and otherwise the whole input of [c] is passed inline. *)
Definition notice_ok (limit : N) (invalid : FuncCall)
    (src : list ExternalFuncCallContext) (e : Effect) : Prop :=
  match e with
  | EOnNewFuncCall call parent input_size inline_input shm_input =>
      parent = invalid
      /\ exists c,
           c ∈ src /\ call_ c = call
           /\ input_size = N.of_nat (String.length (GetInput c))
           /\ shm_input = (limit <? input_size)
           /\ inline_input = (if shm_input then EmptyString else GetInput c)
  | _ => True
  end.

(** [slots_ok src keys s]: what the running table holds under the keys
    [keys] are contexts of [src], up to what a dispatch changes of a
    context. *)
Definition slots_ok (src : list ExternalFuncCallContext) (keys : list FuncCall)
    (s : Server) : Prop :=
  forall k c, k ∈ keys -> running_external_func_calls_ s !! k = Some c ->
    exists p, p ∈ src /\ call_ p = call_ c /\ GetInput p = GetInput c.

(** An event other than the arrival of an Invoke message, which carries
    the request of a worker. *)
Definition not_invoke (e : Event) : Prop :=
  match e with
  | RecvMessage _ m => IsInvokeFuncMessage m = false
  | _ => True
  end.


(** Sample data for the handshake: container ids of four characters, an
    invalid container id, and a response that records the payload size. *)
Definition sample_handshake_response (payload_size : nat) : Message :=
  mkMessage HANDSHAKE_RESPONSE sample_invalid_call sample_invalid_call
            (Z.of_nat payload_size) 0 0 EmptyString.

Definition sample_handshake (type : MessageType) (f : N) (container : string)
    : Message :=
  mkMessage type (mkFuncCall f 0 0 0) sample_invalid_call 0 0 0 container.

Definition sample_OnNewHandshake (env : Env) (launcher worker : bool)
    (m : Message) (s : Server) : Handshake :=
  OnNewHandshake 1024 sample_invalid_call 4 "none" sample_handshake_response
    env true "{}" launcher worker m s.


(** ** Vocabulary of the promotion and of the drain *)

(** The running table after the contexts [ps] were stored in it, one after
    the other, each under its own call. *)
Definition promoted (ps : list ExternalFuncCallContext)
    (m : gmap FuncCall ExternalFuncCallContext)
    : gmap FuncCall ExternalFuncCallContext :=
  foldl (fun m p => <[call_ p := p]> m) m ps.

(** The running table without the entries of the external calls among
    [calls]. *)
Definition without_discarded (calls : list FuncCall)
    (m : gmap FuncCall ExternalFuncCallContext)
    : gmap FuncCall ExternalFuncCallContext :=
  filter (fun kc => ~ (client_id kc.1 = 0 /\ kc.1 ∈ calls)) m.

(** A list of calls without its repetitions: each call stays where it is
    mentioned first. *)
Fixpoint first_occurrences (l : list FuncCall) : list FuncCall :=
  match l with
  | [] => []
  | x :: rest => x :: filter (fun y => y <> x) (first_occurrences rest)
  end.

(** The contexts that the running table [m] holds for the external calls
    among [calls], in the order in which these are mentioned first. *)
Definition discarded_contexts (calls : list FuncCall)
    (m : gmap FuncCall ExternalFuncCallContext) : list ExternalFuncCallContext :=
  omap (fun fc => m !! fc)
       (first_occurrences (filter (fun fc => client_id fc = 0) calls)).



(** * Properties *)

(** ** The watchdog connection *)

Section WatchdogProperties.

Import Watchdog.

Variable sizeof_HandshakeResponse : nat.

Local Abbreviation step := (Watchdog.step sizeof_HandshakeResponse).
Local Abbreviation trace := (Watchdog.trace sizeof_HandshakeResponse).

Lemma ScheduleClose_state (c : GatewayConnection) :
  state_ (ScheduleClose c)
  = if bool_decide (state_ c = kHandshake) || bool_decide (state_ c = kRunning)
    then kClosing else state_ c.
Proof. unfold ScheduleClose. by destruct (_ || _). Qed.

Lemma ScheduleClose_closing (c : GatewayConnection) :
  uv_closing (ScheduleClose c)
  = bool_decide (state_ c = kHandshake) || bool_decide (state_ c = kRunning)
    || uv_closing c.
Proof. unfold ScheduleClose. by destruct (_ || _). Qed.

Lemma ScheduleClose_rank (c : GatewayConnection) :
  (rank (state_ c) <= rank (state_ (ScheduleClose c)))%nat.
Proof. rewrite ScheduleClose_state. destruct (state_ c); simpl; lia. Qed.

Lemma ScheduleClose_not_closed (c : GatewayConnection) :
  state_ (ScheduleClose c) = kClosed -> state_ c = kClosed.
Proof. rewrite ScheduleClose_state. by destruct (state_ c). Qed.

Lemma ScheduleClose_closing_recorded (c : GatewayConnection) :
  closing_recorded c -> closing_recorded (ScheduleClose c).
Proof.
  unfold closing_recorded.
  rewrite ScheduleClose_state, ScheduleClose_closing.
  destruct (state_ c); simpl; intuition congruence.
Qed.

Lemma step_closing_recorded (e : Event) (c : GatewayConnection) :
  enabled e c = true -> closing_recorded c -> closing_recorded (step e c).
Proof.
  intros He Hc.
  destruct e; simpl in *;
    unfold ConnectCallback, WriteHandshakeCallback, WriteMessageCallback,
      ReadMessageCallback, ReadHandshakeResponseCallback, RecvHandshakeResponse;
    repeat case_match; simpl;
    try (by apply ScheduleClose_closing_recorded);
    try done.
  all: unfold closing_recorded; simpl; intros [?|?]; done.
Qed.

Lemma trace_closing_recorded (c c' : GatewayConnection) (es : list Event) :
  trace c es c' -> closing_recorded c -> closing_recorded c'.
Proof.
  induction 1 as [|c e es c' He _ IH]; [done|].
  intros Hc. apply IH. by apply step_closing_recorded.
Qed.

Lemma step_forward (e : Event) (c : GatewayConnection) :
  enabled e c = true -> closing_recorded c ->
  (rank (state_ c) <= rank (state_ (step e c)))%nat.
Proof.
  intros He Hc.
  destruct e; simpl in *;
    unfold ConnectCallback, WriteHandshakeCallback, WriteMessageCallback,
      ReadMessageCallback, ReadHandshakeResponseCallback, RecvHandshakeResponse;
    repeat case_match; simpl;
    try (by apply ScheduleClose_rank);
    try lia.
  - unfold Start_DCHECK in He. apply bool_decide_eq_true in He.
    rewrite He. simpl. lia.
  - apply andb_true_iff in He as [He _]. unfold closing_recorded in Hc.
    destruct (state_ c); simpl; try lia;
      rewrite Hc in He by auto; discriminate.
  - destruct (state_ c); simpl; lia.
Qed.

Lemma step_closed_only_by_close (e : Event) (c : GatewayConnection) :
  state_ (step e c) = kClosed -> state_ c <> kClosed -> e = EvClose.
Proof.
  intros H Hn.
  destruct e; simpl in *; try done; exfalso;
    unfold ConnectCallback, WriteHandshakeCallback, WriteMessageCallback,
      ReadMessageCallback, ReadHandshakeResponseCallback, RecvHandshakeResponse in H;
    repeat case_match; simpl in *;
    try (apply ScheduleClose_not_closed in H); try done.
Qed.

(** C10.  The close path of the watchdog's [GatewayConnection] only moves
    forward.  [ScheduleClose] sets [kClosing] exactly when the state is
    [kHandshake] or [kRunning] and changes nothing in any other state, so a
    second call is harmless; a step that reaches [kClosed] from another state
    is the close callback; the destructor's check accepts exactly [kCreated]
    and [kClosed]; and along every run from a fresh connection no step lowers
    the rank of the state. *)
Theorem gateway_connection_close_path :
  (forall c, state_ c = kHandshake \/ state_ c = kRunning ->
             state_ (ScheduleClose c) = kClosing)
  /\ (forall c, state_ c <> kHandshake -> state_ c <> kRunning ->
                ScheduleClose c = c)
  /\ (forall c, ScheduleClose (ScheduleClose c) = ScheduleClose c)
  /\ (forall e c, state_ (step e c) = kClosed -> state_ c <> kClosed ->
                  e = EvClose)
  /\ (forall c, state_ (CloseCallback c) = kClosed)
  /\ (forall c, destructor_DCHECK c = true <->
                state_ c = kCreated \/ state_ c = kClosed)
  /\ (forall es c e, trace GatewayConnection_new es c -> enabled e c = true ->
                     (rank (state_ c) <= rank (state_ (step e c)))%nat).
Proof.
  repeat split.
  - intros c Hc. rewrite ScheduleClose_state.
    destruct Hc as [-> | ->]; reflexivity.
  - intros c H1 H2. unfold ScheduleClose.
    rewrite !bool_decide_eq_false_2 by done. reflexivity.
  - intros c. unfold ScheduleClose at 1. rewrite ScheduleClose_state.
    destruct (state_ c); reflexivity.
  - apply step_closed_only_by_close.
  - unfold destructor_DCHECK. intros H.
    apply orb_true_iff in H as [H | H]; apply bool_decide_eq_true in H; auto.
  - unfold destructor_DCHECK. intros [H | H]; rewrite H; reflexivity.
  - intros es c e Ht He. apply step_forward; [done|].
    eapply trace_closing_recorded; [exact Ht|].
    unfold closing_recorded. simpl. intros [?|?]; discriminate.
Qed.

End WatchdogProperties.

Lemma gateway_connection_close_path_witness :
  let c := Watchdog.Start Watchdog.GatewayConnection_new in
  Watchdog.state_ (Watchdog.ScheduleClose c) = Watchdog.kClosing
  /\ Watchdog.ScheduleClose (Watchdog.ScheduleClose c) = Watchdog.ScheduleClose c
  /\ (Watchdog.rank (Watchdog.state_ c)
       <= Watchdog.rank (Watchdog.state_
            (Watchdog.step 64 Watchdog.EvScheduleClose c)))%nat.
Proof.
  intros c.
  destruct (gateway_connection_close_path 64) as (H1 & _ & H3 & _ & _ & _ & H7).
  split; [|split].
  - apply H1. left. reflexivity.
  - apply H3.
  - apply (H7 [Watchdog.EvStart]).
    + apply Watchdog.trace_cons; [reflexivity|]. apply Watchdog.trace_nil.
    + reflexivity.
Defined.

(** ** Finalization of a context *)

Lemma string_app_empty_r (s : string) : s +:+ EmptyString = s.
Proof.
  induction s as [|a s IH]; [reflexivity|].
  change (String a (s +:+ EmptyString) = String a s). by rewrite IH.
Qed.

Lemma Finish_spec (c : ExternalFuncCallContext) :
  call_ (Finish c) = call_ c
  /\ finish_calls (Finish c) = S (finish_calls c)
  /\ response_body (Finish c) = response_body c
  /\ response_status (Finish c) = response_status c
  /\ input_region_ (Finish c) = input_region_ c
  /\ output_region_ (Finish c) = output_region_ c.
Proof.
  unfold Finish, finish_calls, response_body, response_status.
  by destruct c as [k [h|g] i o].
Qed.

Lemma AppendToResponseBody_spec (data : string) (c : ExternalFuncCallContext) :
  call_ (AppendToResponseBody data c) = call_ c
  /\ finish_calls (AppendToResponseBody data c) = finish_calls c
  /\ response_body (AppendToResponseBody data c) = response_body c +:+ data
  /\ response_status (AppendToResponseBody data c) = response_status c
  /\ input_region_ (AppendToResponseBody data c) = input_region_ c
  /\ output_region_ (AppendToResponseBody data c) = output_region_ c.
Proof.
  unfold AppendToResponseBody, finish_calls, response_body, response_status.
  by destruct c as [k [h|g] i o].
Qed.

Lemma FinishWithOutput_spec (output : string) (c : ExternalFuncCallContext) :
  call_ (FinishWithOutput output c) = call_ c
  /\ finish_calls (FinishWithOutput output c) = S (finish_calls c)
  /\ response_body (FinishWithOutput output c) = response_body c +:+ output
  /\ response_status (FinishWithOutput output c) = response_status c.
Proof.
  unfold FinishWithOutput.
  destruct (Finish_spec
    (if (0 <? String.length output)%nat
     then AppendToResponseBody output c else c)) as (-> & -> & -> & -> & _).
  destruct (AppendToResponseBody_spec output c) as (Ha & Hb & Hc & Hd & _).
  destruct output as [|a output]; simpl.
  - by rewrite string_app_empty_r.
  - by rewrite Ha, Hb, Hc, Hd.
Qed.

Lemma FinishWithError_spec (c : ExternalFuncCallContext) :
  call_ (FinishWithError c) = call_ c
  /\ finish_calls (FinishWithError c) = S (finish_calls c)
  /\ response_status (FinishWithError c)
     = (if is_http c then inl 500%Z else inr UNKNOWN)
  /\ response_body (FinishWithError c)
     = (if is_http c
        then response_body c +:+ "Function call failed" +:+ newline
        else response_body c)
  /\ input_region_ (FinishWithError c) = input_region_ c
  /\ output_region_ (FinishWithError c) = output_region_ c.
Proof.
  unfold FinishWithError, Finish, finish_calls, response_body, response_status,
    is_http.
  by destruct c as [k [h|g] i o].
Qed.

Lemma FinishWithDispatchFailure_spec (c : ExternalFuncCallContext) :
  call_ (FinishWithDispatchFailure c) = call_ c
  /\ finish_calls (FinishWithDispatchFailure c) = S (finish_calls c)
  /\ response_status (FinishWithDispatchFailure c)
     = (if is_http c then inl 404%Z else inr UNIMPLEMENTED)
  /\ response_body (FinishWithDispatchFailure c)
     = (if is_http c
        then response_body c +:+ "Dispatch failed for func_id "
               +:+ pretty (func_id (call_ c)) +:+ newline
        else response_body c)
  /\ input_region_ (FinishWithDispatchFailure c) = input_region_ c
  /\ output_region_ (FinishWithDispatchFailure c) = output_region_ c.
Proof.
  unfold FinishWithDispatchFailure, Finish, finish_calls, response_body,
    response_status, is_http.
  by destruct c as [k [h|g] i o].
Qed.

Lemma FinishWithShmOutput_spec (r : ShmRegion) (c : ExternalFuncCallContext) :
  call_ (FinishWithShmOutput (Some r) c) = call_ c
  /\ finish_calls (FinishWithShmOutput (Some r) c) = S (finish_calls c)
  /\ response_body (FinishWithShmOutput (Some r) c)
     = response_body c +:+ shm_contents r
  /\ response_status (FinishWithShmOutput (Some r) c) = response_status c
  /\ output_region_ (FinishWithShmOutput (Some r) c)
     = Some (mkShm (shm_contents r) true).
Proof.
  unfold FinishWithShmOutput. simpl.
  set (c1 := mkCtx (call_ c) (sink_ c) (input_region_ c)
               (Some (EnableRemoveOnDestruction r))).
  destruct (Finish_spec
    (if (0 <? String.length (shm_contents r))%nat
     then AppendToResponseBody (shm_contents r) c1 else c1))
    as (-> & -> & -> & -> & _ & ->).
  destruct (AppendToResponseBody_spec (shm_contents r) c1)
    as (Ha & Hb & Hc & Hd & _ & Hf).
  assert (EnableRemoveOnDestruction r = mkShm (shm_contents r) true) as Hr
    by reflexivity.
  destruct (shm_contents r) as [|a out] eqn:E; simpl.
  - rewrite string_app_empty_r, Hr. done.
  - rewrite Ha, Hb, Hc, Hd, Hf. simpl. rewrite Hr. done.
Qed.

(** ** Handlers as sequences of moves *)

Lemma created_app (l1 l2 : list Effect) :
  created (l1 ++ l2) = created l1 ++ created l2.
Proof. apply omap_app. Qed.
Lemma destroyed_app (l1 l2 : list Effect) :
  destroyed (l1 ++ l2) = destroyed l1 ++ destroyed l2.
Proof. apply omap_app. Qed.
Lemma pushed_app (l1 l2 : list Effect) :
  pushed (l1 ++ l2) = pushed l1 ++ pushed l2.
Proof. apply omap_app. Qed.
Lemma popped_app (l1 l2 : list Effect) :
  popped (l1 ++ l2) = popped l1 ++ popped l2.
Proof. apply omap_app. Qed.
Lemma dispatched_app (l1 l2 : list Effect) :
  dispatched (l1 ++ l2) = dispatched l1 ++ dispatched l2.
Proof. apply omap_app. Qed.

Lemma view_extend (s s' : Server) (l l' : list Effect) :
  view s' (l ++ l') = extend (view s l) s' l'.
Proof.
  unfold view, extend. simpl.
  by rewrite created_app, destroyed_app, pushed_app, popped_app.
Qed.

Lemma tables_of_view (s : Server) (l : list Effect) : tables_of (view s l) s.
Proof. by unfold tables_of. Qed.

Lemma tables_of_extend (v : View) (s : Server) (l : list Effect) :
  tables_of (extend v s l) s.
Proof. by unfold tables_of. Qed.

Lemma extend_extend (v : View) (s1 s2 : Server) (l1 l2 : list Effect) :
  extend (extend v s1 l1) s2 l2 = extend v s2 (l1 ++ l2).
Proof.
  unfold extend. simpl.
  by rewrite created_app, destroyed_app, pushed_app, popped_app, !app_assoc.
Qed.

(** A step that leaves the tables alone and logs none of the four kinds of
    effect does not change the view. *)
Lemma extend_frame (v : View) (s0 s : Server) (l : list Effect) :
  tables_of v s0 -> tables_of (view s0 []) s ->
  created l = [] -> destroyed l = [] -> pushed l = [] -> popped l = [] ->
  extend v s l = v.
Proof.
  intros (H1 & H2 & H3 & H4) (G1 & G2 & G3 & G4) E1 E2 E3 E4.
  simpl in *. unfold extend. rewrite E1, E2, E3, E4, !app_nil_r.
  rewrite <- G1, <- G2, <- G3, <- G4, <- H1, <- H2, <- H3, <- H4.
  by destruct v.
Qed.

Lemma moves_frame (v : View) (s0 s : Server) (l : list Effect) :
  tables_of v s0 -> tables_of (view s0 []) s ->
  created l = [] -> destroyed l = [] -> pushed l = [] -> popped l = [] ->
  rtc move v (extend v s l).
Proof. intros. by erewrite extend_frame. Qed.

Lemma moves_update (v : View) (s0 s : Server) (l : list Effect) k c c1 :
  tables_of v s0 ->
  running_external_func_calls_ s0 !! k = Some c ->
  call_ c1 = call_ c -> sink_ c1 = sink_ c ->
  max_running_external_requests_ s = max_running_external_requests_ s0 ->
  next_call_id_ s = next_call_id_ s0 ->
  running_external_func_calls_ s = <[k := c1]> (running_external_func_calls_ s0) ->
  pending_external_func_calls_ s = pending_external_func_calls_ s0 ->
  created l = [] -> destroyed l = [] -> pushed l = [] -> popped l = [] ->
  rtc move v (extend v s l).
Proof.
  intros (H1 & H2 & H3 & H4) Hk Hc Hs G1 G2 G3 G4 E1 E2 E3 E4.
  apply rtc_once. unfold extend.
  rewrite E1, E2, E3, E4, !app_nil_r, G1, G2, G3, G4.
  rewrite <- H1, <- H2, <- H3, <- H4.
  apply (move_update v k c c1); [by rewrite H3 | done | done].
Qed.

Lemma moves_finish (v : View) (s0 s : Server) (l : list Effect) k c c1 fv :
  tables_of v s0 ->
  running_external_func_calls_ s0 !! k = Some c ->
  call_ c1 = call_ c -> sink_ c1 = sink_ c ->
  max_running_external_requests_ s = max_running_external_requests_ s0 ->
  next_call_id_ s = next_call_id_ s0 ->
  running_external_func_calls_ s = delete k (running_external_func_calls_ s0) ->
  pending_external_func_calls_ s = pending_external_func_calls_ s0 ->
  created l = [] -> destroyed l = [finish_with fv c1] ->
  pushed l = [] -> popped l = [] ->
  rtc move v (extend v s l).
Proof.
  intros (H1 & H2 & H3 & H4) Hk Hc Hs G1 G2 G3 G4 E1 E2 E3 E4.
  apply rtc_once. unfold extend.
  rewrite E1, E2, E3, E4, !app_nil_r, G1, G2, G3, G4.
  rewrite <- H1, <- H2, <- H3, <- H4.
  apply (move_finish v k c c1 fv); [by rewrite H3 | done | done].
Qed.

Section GatewayProperties.

Variable MESSAGE_INLINE_DATA_SIZE : N.
Variable PIPE_BUF : N.
Variable kInvalidFuncCall : FuncCall.

Local Abbreviation Dispatch :=
  (DispatchExternalFuncCall MESSAGE_INLINE_DATA_SIZE kInvalidFuncCall).
Local Abbreviation dispatch_or_erase' :=
  (dispatch_or_erase MESSAGE_INLINE_DATA_SIZE kInvalidFuncCall).
Local Abbreviation dispatch_all' :=
  (dispatch_all MESSAGE_INLINE_DATA_SIZE kInvalidFuncCall).
Local Abbreviation NewExternalFuncCall' :=
  (NewExternalFuncCall MESSAGE_INLINE_DATA_SIZE kInvalidFuncCall).
Local Abbreviation ProcessDiscarded' :=
  (ProcessDiscardedFuncCallIfNecessary MESSAGE_INLINE_DATA_SIZE kInvalidFuncCall).
Local Abbreviation OnRecvMessage' :=
  (OnRecvMessage MESSAGE_INLINE_DATA_SIZE PIPE_BUF kInvalidFuncCall).
Local Abbreviation OnNewGrpcCall' :=
  (OnNewGrpcCall MESSAGE_INLINE_DATA_SIZE kInvalidFuncCall).
Local Abbreviation OnExternalFuncCall' :=
  (OnExternalFuncCall MESSAGE_INLINE_DATA_SIZE kInvalidFuncCall).
Local Abbreviation handle' :=
  (handle MESSAGE_INLINE_DATA_SIZE PIPE_BUF kInvalidFuncCall).
Local Abbreviation run' :=
  (run MESSAGE_INLINE_DATA_SIZE PIPE_BUF kInvalidFuncCall).

Lemma GetOrCreateDispatcherLocked_tables (f : N) (s s' : Server) (d : bool) :
  GetOrCreateDispatcherLocked f s = (s', d) ->
  tables_of (view s []) s'
  /\ discarded_func_calls_ s' = discarded_func_calls_ s
  /\ inflight_external_requests_ s' = inflight_external_requests_ s
  /\ func_config_ s' = func_config_ s.
Proof.
  unfold GetOrCreateDispatcherLocked. intros H.
  repeat case_match; simplify_eq; done.
Qed.

Lemma Dispatch_dangling (env : Env) (k : FuncCall) (s : Server) :
  running_external_func_calls_ s !! k = None ->
  Dispatch env k s = (s, false, [EDispatchExternal k]).
Proof. intros H. unfold DispatchExternalFuncCall. by rewrite H. Qed.

(** What a dispatch does to the slot it is given: on success the context
    stays, with its sink untouched; on failure the context in the slot has
    been finalized, through [FinishWithError] when the input region could not
    be created and through [FinishWithDispatchFailure] otherwise. *)
Lemma Dispatch_slot (env : Env) (k : FuncCall) (s s' : Server) (ok : bool)
    (l : list Effect) (c : ExternalFuncCallContext) :
  running_external_func_calls_ s !! k = Some c ->
  Dispatch env k s = (s', ok, l) ->
  exists c1 c',
    running_external_func_calls_ s' = <[k := c']> (running_external_func_calls_ s)
    /\ pending_external_func_calls_ s' = pending_external_func_calls_ s
    /\ max_running_external_requests_ s' = max_running_external_requests_ s
    /\ next_call_id_ s' = next_call_id_ s
    /\ discarded_func_calls_ s' = discarded_func_calls_ s
    /\ inflight_external_requests_ s' = inflight_external_requests_ s
    /\ created l = [] /\ destroyed l = [] /\ pushed l = [] /\ popped l = []
    /\ dispatched l = [k]
    /\ call_ c1 = call_ c /\ sink_ c1 = sink_ c
    /\ (if ok then c' = c1
        else if (MESSAGE_INLINE_DATA_SIZE <? N.of_nat (String.length (GetInput c)))
                && negb (ShmCreate_input env (call_ c))
             then c' = FinishWithError c1
             else c' = FinishWithDispatchFailure c1).
Proof.
  intros Hk. unfold DispatchExternalFuncCall. rewrite Hk.
  unfold CreateShmInput.
  destruct (MESSAGE_INLINE_DATA_SIZE <? _) eqn:Hlarge;
    [destruct (ShmCreate_input env (call_ c)) eqn:Hcreate|]; simpl.
  - destruct (GetOrCreateDispatcherLocked _ _) as [s2 d] eqn:Hd.
    apply GetOrCreateDispatcherLocked_tables in Hd
      as ((T1 & T2 & T3 & T4) & T5 & T6 & _).
    simpl in *.
    set (c1 := mkCtx (call_ c) (sink_ c)
                 (Some (EnableRemoveOnDestruction (mkShm (GetInput c) false)))
                 (output_region_ c)).
    destruct d; simpl; [destruct (OnNewFuncCall env (call_ c))|];
      intros [= <- <- <-]; simpl;
      eexists c1, _;
      (split; [rewrite <- T3; reflexivity|]);
      repeat split; simpl; congruence.
  - intros [= <- <- <-]. simpl.
    exists c, (FinishWithError c). by repeat split.
  - destruct (GetOrCreateDispatcherLocked _ _) as [s2 d] eqn:Hd.
    apply GetOrCreateDispatcherLocked_tables in Hd
      as ((T1 & T2 & T3 & T4) & T5 & T6 & _).
    simpl in *.
    destruct d; simpl; [destruct (OnNewFuncCall env (call_ c))|];
      intros [= <- <- <-]; simpl;
      eexists c, _;
      (split; [rewrite <- T3; reflexivity|]);
      repeat split; simpl; congruence.
Qed.

Lemma dispatch_or_erase_dangling (env : Env) (k : FuncCall) (s : Server) :
  running_external_func_calls_ s !! k = None ->
  dispatch_or_erase' env k s = (s, [EDispatchExternal k]).
Proof.
  intros H. unfold dispatch_or_erase, running_erase.
  rewrite (Dispatch_dangling _ _ _ H). by rewrite H.
Qed.

(** The failure branch: the slot is erased and the finalized context
    destroyed. *)
Lemma dispatch_or_erase_failed (env : Env) (k : FuncCall) (s s1 : Server)
    (l1 : list Effect) (c' : ExternalFuncCallContext) :
  Dispatch env k s = (s1, false, l1) ->
  running_external_func_calls_ s1 !! k = Some c' ->
  dispatch_or_erase' env k s
  = (set_inflight (inflight_external_requests_ s1 - 1)%Z
       (set_running (delete k (running_external_func_calls_ s1)) s1),
     l1 ++ [EDestroyed c']).
Proof.
  intros HD Hk. unfold dispatch_or_erase, running_erase. rewrite HD, Hk.
  reflexivity.
Qed.

Lemma dispatch_or_erase_moves (env : Env) (k : FuncCall) (s s' : Server)
    (l : list Effect) (v : View) :
  tables_of v s -> dispatch_or_erase' env k s = (s', l) ->
  rtc move v (extend v s' l).
Proof.
  intros Hv. destruct (running_external_func_calls_ s !! k) as [c|] eqn:Hk.
  - destruct (Dispatch env k s) as [[s1 ok] l1] eqn:HD.
    destruct (Dispatch_slot _ _ _ _ _ _ _ Hk HD)
      as (c1 & c' & R & P & M & Nx & _ & _ & Cr & De & Pu & Po & _ & Hc & Hs & Hok).
    destruct ok.
    + unfold dispatch_or_erase. rewrite HD. intros [= <- <-]. subst c'.
      by eapply (moves_update v s s1 l1 k c c1).
    + erewrite dispatch_or_erase_failed; [|exact HD|by rewrite R, lookup_insert_eq].
      intros [= <- <-].
      eapply (moves_finish v s _ _ k c c1
                (if (MESSAGE_INLINE_DATA_SIZE <? N.of_nat (String.length (GetInput c)))
                    && negb (ShmCreate_input env (call_ c))
                 then Error else DispatchFailure)); simpl; try done.
      * by rewrite R, delete_insert_eq.
      * by rewrite created_app, Cr.
      * rewrite destroyed_app, De. simpl. by destruct (_ && _); subst c'.
      * by rewrite pushed_app, Pu.
      * by rewrite popped_app, Po.
  - rewrite (dispatch_or_erase_dangling _ _ _ Hk). intros [= <- <-].
    by eapply moves_frame.
Qed.

Lemma running_assign_spec (c : ExternalFuncCallContext) (s s' : Server)
    (l : list Effect) :
  running_assign c s = (s', l) ->
  running_external_func_calls_ s'
    = <[call_ c := c]> (running_external_func_calls_ s)
  /\ pending_external_func_calls_ s' = pending_external_func_calls_ s
  /\ max_running_external_requests_ s' = max_running_external_requests_ s
  /\ next_call_id_ s' = next_call_id_ s
  /\ discarded_func_calls_ s' = discarded_func_calls_ s
  /\ l = map EDestroyed (overwritten (call_ c) (running_external_func_calls_ s)).
Proof.
  unfold running_assign, overwritten, full_call_id, destroy.
  destruct (running_external_func_calls_ s !! call_ c);
    intros [= <- <-]; by repeat split.
Qed.

Lemma created_map_EDestroyed cs : created (map EDestroyed cs) = [].
Proof. by induction cs. Qed.
Lemma destroyed_map_EDestroyed cs : destroyed (map EDestroyed cs) = cs.
Proof. induction cs; simpl; [done|]. unfold destroyed in *. simpl. by f_equal. Qed.
Lemma pushed_map_EDestroyed cs : pushed (map EDestroyed cs) = [].
Proof. by induction cs. Qed.
Lemma popped_map_EDestroyed cs : popped (map EDestroyed cs) = [].
Proof. by induction cs. Qed.
Lemma dispatched_map_EDestroyed cs : dispatched (map EDestroyed cs) = [].
Proof. by induction cs. Qed.

Lemma v_permits_tables (v : View) (s : Server) :
  tables_of v s -> v_permits v = cap_permits s.
Proof. intros (H1 & _ & H3 & _). unfold v_permits, cap_permits. by rewrite H1, H3. Qed.

Lemma promote_front_spec (p : ExternalFuncCallContext)
    (rest : list ExternalFuncCallContext) (s s' : Server) (l : list Effect) :
  promote_front p rest s = (s', l) ->
  running_external_func_calls_ s'
    = <[call_ p := p]> (running_external_func_calls_ s)
  /\ pending_external_func_calls_ s' = rest
  /\ max_running_external_requests_ s' = max_running_external_requests_ s
  /\ next_call_id_ s' = next_call_id_ s
  /\ discarded_func_calls_ s' = discarded_func_calls_ s
  /\ l = EPendingPop p
         :: map EDestroyed (overwritten (call_ p) (running_external_func_calls_ s)).
Proof.
  unfold promote_front.
  destruct (running_assign p (set_pending rest s)) as [s1 l1] eqn:E.
  apply running_assign_spec in E as (R & P & M & Nx & D & L).
  intros [= <- <-]. simpl in *. by rewrite L.
Qed.

Lemma promote_front_moves (p : ExternalFuncCallContext)
    (rest : list ExternalFuncCallContext) (s s' : Server) (l : list Effect)
    (v : View) :
  tables_of v s ->
  pending_external_func_calls_ s = p :: rest -> cap_permits s = true ->
  promote_front p rest s = (s', l) ->
  rtc move v (extend v s' l).
Proof.
  intros Hv Hp Hcap E.
  apply promote_front_spec in E as (R & P & M & Nx & _ & ->).
  pose proof (v_permits_tables _ _ Hv) as Hperm.
  destruct Hv as (H1 & H2 & H3 & H4).
  apply rtc_once. unfold extend.
  rewrite R, P, M, Nx. simpl.
  change (created (EPendingPop p :: ?l)) with (created l).
  change (destroyed (EPendingPop p :: ?l)) with (destroyed l).
  change (pushed (EPendingPop p :: ?l)) with (pushed l).
  change (popped (EPendingPop p :: ?l)) with (p :: popped l).
  rewrite created_map_EDestroyed, destroyed_map_EDestroyed,
    pushed_map_EDestroyed, popped_map_EDestroyed, !app_nil_r.
  rewrite <- H1, <- H2, <- H3.
  apply move_promote; [by rewrite H4 | by rewrite Hperm].
Qed.

(** A new context and its admission, together. *)
Lemma admission_moves (env : Env) (mk_call : N -> FuncCall) (k : ResponseSink)
    (s s' : Server) (l : list Effect) (v : View) :
  (forall i, call_id (mk_call i) = i) ->
  tables_of v s ->
  (let '(c, s1) := new_context mk_call k s in
   prepend [ECreated c] (NewExternalFuncCall' env c s1)) = (s', l) ->
  rtc move v (extend v s' l).
Proof.
  intros Hmk Hv. unfold new_context, NewExternalFuncCall, NewExternalFuncCall_locked.
  set (c := mkCtx (mk_call (next_call_id_ s)) k None None).
  set (s1 := Tick incoming_external_requests _).
  pose proof (v_permits_tables _ _ Hv) as Hperm.
  assert (cap_permits s1 = cap_permits s) as -> by reflexivity.
  assert (fresh_context v c) as Hfresh.
  { unfold fresh_context. simpl. rewrite Hmk. by destruct Hv as (_ & -> & _). }
  destruct (cap_permits s) eqn:Hcap.
  - destruct (running_assign c s1) as [s2 l2] eqn:E2.
    apply running_assign_spec in E2 as (R & P & M & Nx & _ & ->).
    destruct (dispatch_or_erase' env (full_call_id (call_ c)) s2) as [s3 l3] eqn:E3.
    unfold prepend. simpl. intros [= <- <-].
    eapply rtc_l; [apply (move_create_run v c); [by rewrite Hperm | done]|].
    match goal with
    | |- rtc move ?v1 (extend v s3 ?L) =>
        set (v1' := v1); replace (extend v s3 L) with (extend v1' s3 l3)
    end.
    2: { unfold extend, v1'. simpl.
      change (created (ECreated c :: ?l)) with (c :: created l).
      change (destroyed (ECreated c :: ?l)) with (destroyed l).
      change (pushed (ECreated c :: ?l)) with (pushed l).
      change (popped (ECreated c :: ?l)) with (popped l).
      rewrite created_app, destroyed_app, pushed_app, popped_app.
      rewrite created_map_EDestroyed, destroyed_map_EDestroyed,
        pushed_map_EDestroyed, popped_map_EDestroyed.
      destruct Hv as (H1 & H2 & H3 & H4). simpl. rewrite H3.
      by rewrite <- !app_assoc. }
    eapply dispatch_or_erase_moves; [|exact E3].
    destruct Hv as (H1 & H2 & H3 & H4).
    unfold tables_of, v1'. simpl. rewrite R, P, M, Nx. simpl.
    by rewrite H1, H2, H3, H4.
  - unfold prepend. simpl. intros [= <- <-].
    apply rtc_once. unfold extend. simpl.
    change (created [ECreated c; EPendingPush c]) with [c].
    change (destroyed [ECreated c; EPendingPush c])
      with (@nil ExternalFuncCallContext).
    change (pushed [ECreated c; EPendingPush c]) with [c].
    change (popped [ECreated c; EPendingPush c])
      with (@nil ExternalFuncCallContext).
    rewrite !app_nil_r.
    destruct Hv as (H1 & H2 & H3 & H4). rewrite <- H1, <- H2, <- H3, <- H4.
    apply move_create_pend; [by rewrite Hperm | done].
Qed.

Lemma moves_reorder (v : View) (s : Server) (l l' : list Effect) :
  created l = created l' -> pushed l = pushed l' -> popped l = popped l' ->
  destroyed l ≡ₚ destroyed l' ->
  rtc move (extend v s l) (extend v s l').
Proof.
  intros Hc Hpu Hpo Hd. apply rtc_once.
  unfold extend at 2. rewrite <- Hc, <- Hpu, <- Hpo.
  apply (move_reorder (extend v s l) (v_destroyed v ++ destroyed l')).
  simpl. by rewrite Hd.
Qed.

Lemma promote_pending_moves (queue : list ExternalFuncCallContext) :
  forall (s s' : Server) (ds : list FuncCall) (l : list Effect) (v : View),
  tables_of v s -> pending_external_func_calls_ s = queue ->
  promote_pending queue s = (s', ds, l) ->
  rtc move v (extend v s' l).
Proof.
  induction queue as [|p rest IH]; intros s s' ds l v Hv Hq; simpl.
  - intros [= <- <- <-]. by eapply moves_frame.
  - destruct (cap_permits s) eqn:Hcap.
    + destruct (promote_front p rest s) as [s1 l1] eqn:E1.
      destruct (promote_pending rest s1) as [[s2 ds2] l2] eqn:E2.
      intros [= <- <- <-].
      etrans; [by eapply promote_front_moves|].
      rewrite <- (extend_extend v s1 s2 l1 l2).
      eapply IH; [apply tables_of_extend| |exact E2].
      by apply promote_front_spec in E1 as (_ & P & _).
    + intros [= <- <- <-]. by eapply moves_frame.
Qed.

Lemma collect_discarded_moves (calls : list FuncCall) :
  forall (s s' : Server) (ext ext' : list ExternalFuncCallContext)
         (int int' : list FuncCall) (v : View),
  tables_of v s ->
  collect_discarded calls s ext int = (s', ext', int') ->
  exists found,
    ext' = ext ++ found
    /\ tables_of (view s' [])
         (set_running (running_external_func_calls_ s') s)
    /\ rtc move v
         (extend v s' (map EDestroyed (map FinishWithDispatchFailure found))).
Proof.
  induction calls as [|fc rest IH]; intros s s' ext ext' int int' v Hv; simpl.
  - intros [= <- <- <-]. exists []. rewrite app_nil_r.
    split; [done|]. split; [done|]. by eapply moves_frame.
  - destruct (client_id fc =? 0); [|by apply IH].
    unfold full_call_id.
    destruct (running_external_func_calls_ s !! fc) as [c|] eqn:Hk; [|by apply IH].
    set (s1 := set_running _ s). intros E.
    set (v1 := extend v s1 [EDestroyed (FinishWithDispatchFailure c)]).
    destruct (IH s1 s' (ext ++ [c]) ext' int int' v1 (tables_of_extend _ _ _) E)
      as (found & -> & T & Hm).
    exists (c :: found). rewrite <- app_assoc. split; [done|]. split; [done|].
    etrans; [|unfold v1 in Hm; rewrite extend_extend in Hm; exact Hm].
    by eapply (moves_finish v s s1 _ fc c c DispatchFailure).
Qed.

Lemma destroy_all_spec (cs : list ExternalFuncCallContext) :
  forall (s s' : Server) (l : list Effect),
  destroy_all cs s = (s', l) ->
  l = map EDestroyed cs
  /\ tables_of (view s []) s'
  /\ discarded_func_calls_ s' = discarded_func_calls_ s.
Proof.
  induction cs as [|c cs IH]; intros s s' l; simpl.
  - by intros [= <- <-].
  - destruct (destroy_all cs _) as [s2 l2] eqn:E. intros [= <- <-].
    apply IH in E as (-> & T & D). done.
Qed.

Lemma dispatch_all_moves (env : Env) (ks : list FuncCall) :
  forall (s s' : Server) (l : list Effect) (v : View),
  tables_of v s -> dispatch_all' env ks s = (s', l) ->
  rtc move v (extend v s' l).
Proof.
  induction ks as [|k ks IH]; intros s s' l v Hv; simpl.
  - intros [= <- <-]. by eapply moves_frame.
  - destruct (dispatch_or_erase' env k s) as [s1 l1] eqn:E1.
    destruct (dispatch_all' env ks s1) as [s2 l2] eqn:E2.
    intros [= <- <-].
    etrans; [by eapply dispatch_or_erase_moves|].
    rewrite <- (extend_extend v s1 s2 l1 l2). eapply IH; [apply tables_of_extend|exact E2].
Qed.

Lemma extend_tables (v : View) (s s' : Server) (l : list Effect) :
  tables_of (view s []) s' -> extend v s l = extend v s' l.
Proof. intros (H1 & H2 & H3 & H4). simpl in *. unfold extend. congruence. Qed.

Lemma FuncCallFinished_silent (int : list FuncCall) :
  let l := map (fun func_call => EFuncCallFinished func_call false) int in
  created l = [] /\ destroyed l = [] /\ pushed l = [] /\ popped l = []
  /\ dispatched l = [].
Proof. induction int as [|x int IH]; simpl in *; done. Qed.

Lemma ProcessDiscarded_moves (env : Env) (s s' : Server) (l : list Effect)
    (v : View) :
  tables_of v s -> ProcessDiscarded' env s = (s', l) ->
  rtc move v (extend v s' l).
Proof.
  intros Hv.
  unfold ProcessDiscardedFuncCallIfNecessary,
    ProcessDiscardedFuncCallIfNecessary_locked.
  destruct (collect_discarded _ s [] []) as [[s1 ext] int] eqn:E1.
  destruct (promote_pending _ (set_discarded [] s1)) as [[s3 ds] l1] eqn:E3.
  destruct (destroy_all _ s3) as [s4 l2] eqn:E4.
  destruct (dispatch_all' env ds s4) as [s5 l4] eqn:E5.
  intros [= <- <-].
  destruct (collect_discarded_moves _ _ _ _ _ _ _ v Hv E1)
    as (found & Hext & _ & M1).
  simpl in Hext. subst ext.
  apply destroy_all_spec in E4 as (-> & T4 & _).
  set (L2 := map EDestroyed (map FinishWithDispatchFailure found)) in *.
  set (l3 := map (fun func_call => EFuncCallFinished func_call false) int).
  destruct (FuncCallFinished_silent int) as (S1 & S2 & S3 & S4 & _). fold l3 in S1, S2, S3, S4.
  etrans; [exact M1|].
  etrans.
  { eapply (promote_pending_moves _ (set_discarded [] s1) s3 ds l1);
      [|reflexivity|exact E3]. by unfold tables_of. }
  rewrite extend_extend.
  etrans.
  { apply (moves_reorder v s3 (L2 ++ l1) (l1 ++ L2 ++ l3)).
    - rewrite !created_app, S1. unfold L2.
      by rewrite created_map_EDestroyed, app_nil_r.
    - rewrite !pushed_app, S3. unfold L2.
      by rewrite pushed_map_EDestroyed, app_nil_r.
    - rewrite !popped_app, S4. unfold L2.
      by rewrite popped_map_EDestroyed, app_nil_r.
    - rewrite !destroyed_app, S2, app_nil_r. apply Permutation_app_comm. }
  rewrite (extend_tables v s3 s4) by done.
  replace (l1 ++ L2 ++ l3 ++ l4) with ((l1 ++ L2 ++ l3) ++ l4)
    by (by rewrite <- !app_assoc).
  rewrite <- (extend_extend v s4 s5).
  eapply dispatch_all_moves; [apply tables_of_extend|exact E5].
Qed.

Lemma finish_for_message_variant (env : Env) (m : Message)
    (c : ExternalFuncCallContext) :
  exists fv, finish_for_message env m c = finish_with fv c.
Proof.
  unfold finish_for_message.
  destruct (IsFuncCallCompleteMessage m); [|by exists Error].
  destruct (payload_size m <? 0)%Z; [|by eexists (InlineOutput _)].
  destruct (ShmOpen_output env _) as [r|]; [by exists (ShmOutput r)|by exists Error].
Qed.

(** The critical section of the Complete/Failed branch, case by case: the
    call is an external call found in the running table, and then the front
    of the pending queue is promoted when there is one and the cap permits
    it; or the call is not found and the tables stay as they are. *)
Lemma OnRecvMessage_finished_locked_spec (m : Message) (s s1 : Server)
    (ctx : option ExternalFuncCallContext) (for_dispatch : option FuncCall)
    (d : bool) (l : list Effect) :
  OnRecvMessage_finished_locked PIPE_BUF m s = (s1, ctx, for_dispatch, d, l) ->
  let fc := GetFuncCallFromMessage m in
  let taken := set_running (delete fc (running_external_func_calls_ s)) s in
  max_running_external_requests_ s1 = max_running_external_requests_ s
  /\ next_call_id_ s1 = next_call_id_ s
  /\ discarded_func_calls_ s1 = discarded_func_calls_ s
  /\ ((exists c,
         client_id fc = 0
         /\ running_external_func_calls_ s !! fc = Some c /\ ctx = Some c
         /\ ((exists p rest,
                pending_external_func_calls_ s = p :: rest
                /\ cap_permits taken = true
                /\ for_dispatch = Some (call_ p)
                /\ running_external_func_calls_ s1
                   = <[call_ p := p]> (running_external_func_calls_ taken)
                /\ pending_external_func_calls_ s1 = rest
                /\ l = EPendingPop p
                       :: map EDestroyed
                            (overwritten (call_ p)
                               (running_external_func_calls_ taken)))
             \/ (for_dispatch = None
                 /\ (pending_external_func_calls_ s = [] \/ cap_permits taken = false)
                 /\ running_external_func_calls_ s1
                    = running_external_func_calls_ taken
                 /\ pending_external_func_calls_ s1
                    = pending_external_func_calls_ s
                 /\ l = [])))
      \/ ((client_id fc <> 0 \/ running_external_func_calls_ s !! fc = None)
          /\ ctx = None /\ for_dispatch = None /\ l = []
          /\ running_external_func_calls_ s1 = running_external_func_calls_ s
          /\ pending_external_func_calls_ s1 = pending_external_func_calls_ s)).
Proof.
  intros H fc taken. unfold OnRecvMessage_finished_locked, full_call_id in H.
  fold fc in H.
  set (s0 := if _ && _ then Tick output_use_shm s else s) in H.
  assert (tables_of (view s []) s0
          /\ discarded_func_calls_ s0 = discarded_func_calls_ s
          /\ inflight_external_requests_ s0 = inflight_external_requests_ s)
    as ((T1 & T2 & T3 & T4) & T5 & T6).
  { unfold s0. by destruct (_ && _). }
  simpl in T1, T2, T3, T4. clearbody s0.
  destruct (client_id fc =? 0) eqn:Hcl.
  2: { destruct (GetOrCreateDispatcherLocked _ s0) as [s2 d2] eqn:Hd.
       apply GetOrCreateDispatcherLocked_tables in Hd
         as ((G1 & G2 & G3 & G4) & G5 & G6 & _). simpl in *.
       injection H as <- <- <- <- <-.
       apply N.eqb_neq in Hcl.
       repeat split; try congruence. right. repeat split; try congruence. by left. }
  apply N.eqb_eq in Hcl.
  destruct (running_external_func_calls_ s0 !! fc) as [c|] eqn:Hk.
  2: { destruct (GetOrCreateDispatcherLocked _ s0) as [s2 d2] eqn:Hd.
       apply GetOrCreateDispatcherLocked_tables in Hd
         as ((G1 & G2 & G3 & G4) & G5 & G6 & _). simpl in *.
       injection H as <- <- <- <- <-.
       repeat split; try congruence. right. repeat split; try congruence.
       right. congruence. }
  simpl in H.
  assert (forall x, cap_permits
            (set_running (delete fc (running_external_func_calls_ s0)) x)
          = cap_permits (set_running (delete fc (running_external_func_calls_ s)) x))
    as Hcp by (by rewrite T3).
  destruct (pending_external_func_calls_ s0) as [|p rest] eqn:Hp.
  - destruct (GetOrCreateDispatcherLocked _ _) as [s2 d2] eqn:Hd.
    apply GetOrCreateDispatcherLocked_tables in Hd
      as ((G1 & G2 & G3 & G4) & G5 & G6 & _). simpl in *.
    injection H as <- <- <- <- <-.
    repeat split; try congruence. left. exists c.
    repeat split; try congruence. right.
    repeat split; try congruence. left. congruence.
  - destruct (cap_permits (set_running _ s0)) eqn:Hcap.
    + destruct (promote_front p rest _) as [s2 l2] eqn:E2.
      apply promote_front_spec in E2 as (R & P & M & Nx & D & ->). simpl in *.
      destruct (GetOrCreateDispatcherLocked _ s2) as [s3 d3] eqn:Hd.
      apply GetOrCreateDispatcherLocked_tables in Hd
        as ((G1 & G2 & G3 & G4) & G5 & G6 & G7). simpl in *.
      injection H as <- <- <- <- <-.
      repeat split; try congruence.
      left. exists c. repeat split; try congruence. left. exists p, rest.
      unfold taken. simpl. rewrite <- ?T3.
      repeat split; try congruence.
      unfold cap_permits in *. simpl in *. by rewrite T1, T3.
    + destruct (GetOrCreateDispatcherLocked _ _) as [s2 d2] eqn:Hd.
      apply GetOrCreateDispatcherLocked_tables in Hd
        as ((G1 & G2 & G3 & G4) & G5 & G6 & _). simpl in *.
      injection H as <- <- <- <- <-.
      repeat split; try congruence. left. exists c.
      repeat split; try congruence. right.
      unfold taken. simpl. rewrite <- ?T3.
      repeat split; try congruence. right.
      unfold cap_permits in *. simpl in *. by rewrite T1, T3.
Qed.

Lemma moves_promote (v : View) (s0 s : Server) (l : list Effect) p rest :
  tables_of v s0 ->
  pending_external_func_calls_ s0 = p :: rest -> cap_permits s0 = true ->
  max_running_external_requests_ s = max_running_external_requests_ s0 ->
  next_call_id_ s = next_call_id_ s0 ->
  running_external_func_calls_ s
    = <[call_ p := p]> (running_external_func_calls_ s0) ->
  pending_external_func_calls_ s = rest ->
  l = EPendingPop p
      :: map EDestroyed (overwritten (call_ p) (running_external_func_calls_ s0)) ->
  rtc move v (extend v s l).
Proof.
  intros Hv Hp Hcap M Nx R P ->.
  pose proof (v_permits_tables _ _ Hv) as Hperm.
  destruct Hv as (H1 & H2 & H3 & H4).
  apply rtc_once. unfold extend.
  rewrite R, P, M, Nx. simpl.
  change (created (EPendingPop p :: ?l)) with (created l).
  change (destroyed (EPendingPop p :: ?l)) with (destroyed l).
  change (pushed (EPendingPop p :: ?l)) with (pushed l).
  change (popped (EPendingPop p :: ?l)) with (p :: popped l).
  rewrite created_map_EDestroyed, destroyed_map_EDestroyed,
    pushed_map_EDestroyed, popped_map_EDestroyed, !app_nil_r.
  rewrite <- H1, <- H2, <- H3.
  apply move_promote; [by rewrite H4 | by rewrite Hperm].
Qed.

Lemma OnRecvMessage_moves (env : Env) (m : Message) (s s' : Server)
    (l : list Effect) (v : View) :
  tables_of v s -> OnRecvMessage' env m s = (s', l) ->
  rtc move v (extend v s' l).
Proof.
  intros Hv. unfold OnRecvMessage.
  match goal with
  | |- (let '(s1, l1) := ?body in _) = _ -> _ =>
      destruct body as [s1 l1] eqn:EB
  end.
  destruct (ProcessDiscarded' env s1) as [s2 l2] eqn:EP.
  intros [= <- <-].
  enough (rtc move v (extend v s1 l1)) as HB.
  { etrans; [exact HB|]. rewrite <- (extend_extend v s1 s2).
    eapply ProcessDiscarded_moves; [apply tables_of_extend|exact EP]. }
  clear EP s2 l2.
  destruct (IsInvokeFuncMessage m).
  { set (s0 := if (payload_size m <? 0)%Z then _ else s) in EB.
    assert (tables_of (view s []) s0) as (T1 & T2 & T3 & T4)
      by (unfold s0; by destruct (_ <? _)%Z).
    destruct (GetOrCreateDispatcherLocked _ s0) as [s2 d] eqn:Hd.
    apply GetOrCreateDispatcherLocked_tables in Hd as ((G1 & G2 & G3 & G4) & _).
    simpl in *.
    assert (tables_of (view s []) s2) by (unfold tables_of; simpl; by rewrite T1, T2, T3, T4).
    destruct d; [destruct (payload_size m <? 0)%Z|];
      injection EB as <- <-; by eapply moves_frame. }
  destruct (_ || _); [|injection EB as <- <-; by eapply moves_frame].
  destruct (OnRecvMessage_finished_locked PIPE_BUF m s)
    as [[[[s2 ctx] fd] d] l2] eqn:EL.
  apply OnRecvMessage_finished_locked_spec in EL
    as (M & Nx & _ & [(c & Hcl & Hk & -> & Hcase) | (_ & -> & -> & -> & R & P)]).
  2: { assert ((if client_id (GetFuncCallFromMessage m) =? 0
                then option_map (finish_for_message env m) None else None)
               = None) as Hn by (by destruct (_ =? _)).
       rewrite Hn in EB. simpl in EB. injection EB as <- <-.
       eapply (moves_frame v s); [done|by unfold tables_of| | | |];
         rewrite app_nil_r; by destruct d, (IsFuncCallCompleteMessage m). }
  rewrite Hcl in EB. simpl in EB.
  destruct (finish_for_message_variant env m c) as [fv Hfv]. rewrite Hfv in EB.
  set (fc := GetFuncCallFromMessage m) in *.
  set (taken := set_running (delete fc (running_external_func_calls_ s)) s) in *.
  set (D := [EDestroyed (finish_with fv c)]).
  assert (rtc move v (extend v taken D)) as M1.
  { by eapply (moves_finish v s taken D fc c c fv). }
  match type of EB with
  | context [l2 ++ ?x ++ _] => set (ln := x) in EB
  end.
  assert (created ln = [] /\ destroyed ln = [] /\ pushed ln = [] /\ popped ln = [])
    as (N1 & N2 & N3 & N4)
    by (unfold ln; by destruct d, (IsFuncCallCompleteMessage m)).
  clearbody ln.
  destruct Hcase as [(p & rest & Hp & Hcap & -> & R & P & ->)
                    | (-> & _ & R & P & ->)].
  - destruct (dispatch_or_erase' env (call_ p) s2) as [s3 l3] eqn:ED.
    simpl in EB. injection EB as <- <-.
    pose (lp := EPendingPop p
                :: map EDestroyed
                     (overwritten (call_ p) (running_external_func_calls_ taken))).
    change (rtc move v
              (extend v (set_inflight (inflight_external_requests_ s3 - 1)%Z s3)
                 (lp ++ ln ++ l3 ++ D))).
    assert (rtc move (extend v taken D) (extend v s2 (D ++ lp))) as M2.
    { rewrite <- (extend_extend v taken s2).
      eapply (moves_promote _ taken s2 lp p rest); [apply tables_of_extend|..];
        unfold taken, lp in *; simpl in *; congruence. }
    assert (rtc move (extend v s2 (D ++ lp)) (extend v s3 ((D ++ lp) ++ l3))) as M3.
    { rewrite <- (extend_extend v s2 s3).
      eapply dispatch_or_erase_moves; [apply tables_of_extend|exact ED]. }
    etrans; [exact M1|]. etrans; [exact M2|]. etrans; [exact M3|].
    rewrite <- (extend_tables v s3
                  (set_inflight (inflight_external_requests_ s3 - 1)%Z s3))
      by done.
    assert (created D = [] /\ pushed D = [] /\ popped D = [])
      as (D1 & D3 & D4) by done.
    apply moves_reorder.
    + by rewrite !created_app, N1, D1, !app_nil_r.
    + by rewrite !pushed_app, N3, D3, !app_nil_r.
    + by rewrite !popped_app, N4, D4, !app_nil_r.
    + rewrite !destroyed_app, N2. simpl.
      rewrite (app_assoc _ _ [_]). apply Permutation_cons_append.
  - simpl in EB. injection EB as <- <-.
    etrans; [exact M1|].
    rewrite (extend_tables v taken s2) by (unfold tables_of; simpl; by rewrite M, Nx, R, P).
    rewrite <- (extend_tables v s2
                  (set_inflight (inflight_external_requests_ s2 - 1)%Z s2))
      by done.
    assert (created D = [] /\ pushed D = [] /\ popped D = [])
      as (D1 & D3 & D4) by done.
    change (rtc move (extend v s2 D) (extend v s2 (ln ++ D))).
    apply moves_reorder.
    + by rewrite created_app, N1.
    + by rewrite pushed_app, N3.
    + by rewrite popped_app, N4.
    + by rewrite destroyed_app, N2.
Qed.

Lemma foldl_DiscardFuncCall (calls : list FuncCall) :
  forall s : Server,
  let s' := foldl (fun s' func_call => DiscardFuncCall func_call s') s calls in
  tables_of (view s []) s'
  /\ discarded_func_calls_ s' = discarded_func_calls_ s ++ calls
  /\ inflight_external_requests_ s' = inflight_external_requests_ s.
Proof.
  induction calls as [|fc calls IH]; intros s; simpl.
  - by rewrite app_nil_r.
  - destruct (IH (DiscardFuncCall fc s)) as ((T1 & T2 & T3 & T4) & D & I).
    simpl in *. rewrite D, I, <- app_assoc. done.
Qed.

(** [OnConnectionClose] never touches the running table or the pending
    queue, and never shortens [discarded_func_calls_]: it appends the calls
    the worker manager discards for a message connection whose handshake
    was done. *)
Lemma OnConnectionClose_spec (env : Env) (connection : ConnectionBase)
    (s : Server) :
  let s' := OnConnectionClose env connection s in
  tables_of (view s []) s'
  /\ inflight_external_requests_ s' = inflight_external_requests_ s
  /\ discarded_func_calls_ s'
     = discarded_func_calls_ s
       ++ match conn_type connection with
          | MessageConnection =>
              if handshake_done connection
              then worker_manager_discards env connection else []
          | _ => []
          end.
Proof.
  unfold OnConnectionClose.
  destruct (conn_type connection); simpl; try by rewrite app_nil_r.
  destruct (handshake_done connection); simpl; [|by rewrite app_nil_r].
  destruct (foldl_DiscardFuncCall (worker_manager_discards env connection) s)
    as (T & D & I).
  done.
Qed.

Lemma handle_moves (e : Event) (s s' : Server) (l : list Effect) (v : View) :
  tables_of v s -> handle' e s = (s', l) -> rtc move v (extend v s' l).
Proof.
  intros Hv. destruct e as [env f h|env g|env m|env|fc|f|env c]; simpl.
  - unfold OnExternalFuncCall. by apply admission_moves.
  - unfold OnNewGrpcCall.
    destruct (find_by_func_name _ _) as [entry|];
      [destruct (grpc_method_ids entry !! _) as [method|]|].
    + by apply admission_moves.
    + intros [= <- <-]. by eapply moves_frame.
    + intros [= <- <-]. by eapply moves_frame.
  - by apply OnRecvMessage_moves.
  - by apply ProcessDiscarded_moves.
  - intros [= <- <-]. by eapply moves_frame.
  - unfold GetOrCreateDispatcher.
    destruct (GetOrCreateDispatcherLocked f s) as [s1 d] eqn:Hd.
    apply GetOrCreateDispatcherLocked_tables in Hd as (T & _).
    intros [= <- <-]. by eapply moves_frame.
  - intros [= <- <-].
    destruct (OnConnectionClose_spec env c s) as (T & _).
    by eapply moves_frame.
Qed.

Lemma run_moves (es : list Event) :
  forall (s s' : Server) (l : list Effect) (v : View),
  tables_of v s -> run' es s = (s', l) -> rtc move v (extend v s' l).
Proof.
  induction es as [|e es IH]; intros s s' l v Hv; simpl.
  - intros [= <- <-]. by eapply moves_frame.
  - destruct (handle' e s) as [s1 l1] eqn:E1.
    destruct (run' es s1) as [s2 l2] eqn:E2.
    intros [= <- <-].
    etrans; [by eapply handle_moves|].
    rewrite <- (extend_extend v s1 s2). eapply IH; [apply tables_of_extend|exact E2].
Qed.

Lemma run_app (es1 es2 : list Event) (s : Server) :
  run' (es1 ++ es2) s
  = let '(s1, l1) := run' es1 s in
    let '(s2, l2) := run' es2 s1 in (s2, l1 ++ l2).
Proof.
  revert s. induction es1 as [|e es1 IH]; intros s; simpl.
  - by destruct (run' es2 s).
  - destruct (handle' e s) as [s1 l1]. rewrite IH.
    destruct (run' es1 s1) as [s2 l2]. destruct (run' es2 s2) as [s3 l3].
    by rewrite app_assoc.
Qed.

(** ** The admission cap *)

Lemma v_permits_size (v : View) :
  v_permits v = true -> v_cap v <> 0 -> N.of_nat (size (v_running v)) < v_cap v.
Proof.
  unfold v_permits. intros H Hc.
  apply orb_true_iff in H as [H|H]; [by apply N.eqb_eq in H|by apply N.ltb_lt].
Qed.

Lemma size_insert_le (k : FuncCall) (c : ExternalFuncCallContext)
    (m : gmap FuncCall ExternalFuncCallContext) :
  (size (<[k := c]> m) <= S (size m))%nat.
Proof. rewrite map_size_insert. destruct (m !! k); simpl; lia. Qed.

Lemma size_delete_le (k : FuncCall) (m : gmap FuncCall ExternalFuncCallContext) :
  (size (delete k m) <= size m)%nat.
Proof. rewrite map_size_delete. destruct (m !! k); simpl; lia. Qed.

Lemma move_cap_ok (v v' : View) :
  move v v' -> v_cap_ok v -> v_cap_ok v' /\ v_cap v' = v_cap v.
Proof.
  unfold v_cap_ok.
  destruct 1 as [v c Hp _|v c _ _|v p rest _ Hp|v k c c1 Hk _ _|v k c c1 fv _ _ _|v d _];
    simpl; intros Hv; (split; [intros Hc; specialize (Hv Hc)|done]); try done.
  - pose proof (v_permits_size _ Hp Hc).
    pose proof (size_insert_le (call_ c) c (v_running v)). lia.
  - pose proof (v_permits_size _ Hp Hc).
    pose proof (size_insert_le (call_ p) p (v_running v)). lia.
  - rewrite map_size_insert_Some by (by rewrite Hk). done.
  - pose proof (size_delete_le k (v_running v)). lia.
Qed.

Lemma moves_cap_ok (v v' : View) :
  rtc move v v' -> v_cap_ok v -> v_cap_ok v' /\ v_cap v' = v_cap v.
Proof.
  induction 1 as [|v v1 v2 Hm _ IH]; [done|].
  intros Hv. destruct (move_cap_ok _ _ Hm Hv) as [H1 E1].
  destruct (IH H1) as [H2 E2]. split; [done|congruence].
Qed.

(** C2.  Whatever events occur, and after each of them, the running table
    holds at most [max_running_external_requests_] contexts when that cap is
    not zero: from a state [s] that respects the cap, the state after any
    number [n] of the events [es] respects it, and the cap itself never
    changes.  The state [Server_init] respects it. *)
Theorem running_external_within_cap (es : list Event) (n : nat) (s : Server) :
  cap_ok s ->
  let s' := (run' (take n es) s).1 in
  max_running_external_requests_ s' = max_running_external_requests_ s
  /\ (max_running_external_requests_ s <> 0 ->
      N.of_nat (size (running_external_func_calls_ s'))
        <= max_running_external_requests_ s)
  /\ (forall cap cfg, cap_ok (Server_init cap cfg)).
Proof.
  intros Hs. simpl.
  destruct (run' (take n es) s) as [s' l] eqn:E. simpl.
  pose proof (run_moves _ _ _ _ (view s []) (tables_of_view s []) E) as Hm.
  apply moves_cap_ok in Hm as [H1 H2]; [|exact Hs].
  simpl in H2. split; [done|]. split.
  - intros Hc. unfold v_cap_ok in H1. simpl in H1. rewrite <- H2. apply H1.
    by rewrite H2.
  - intros cap cfg _. simpl. rewrite map_size_empty. lia.
Qed.

(** ** First in, first out *)



Lemma dispatch_or_erase_dispatched (env : Env) (k : FuncCall) (s s' : Server)
    (l : list Effect) :
  dispatch_or_erase' env k s = (s', l) ->
  dispatched l = [k] /\ popped l = [] /\ pushed l = [] /\ created l = []
  /\ discarded_func_calls_ s' = discarded_func_calls_ s
  /\ pending_external_func_calls_ s' = pending_external_func_calls_ s
  /\ max_running_external_requests_ s' = max_running_external_requests_ s
  /\ (forall k', is_Some (running_external_func_calls_ s' !! k') ->
                 is_Some (running_external_func_calls_ s !! k')).
Proof.
  destruct (running_external_func_calls_ s !! k) as [c|] eqn:Hk.
  - destruct (Dispatch env k s) as [[s1 ok] l1] eqn:HD.
    destruct (Dispatch_slot _ _ _ _ _ _ _ Hk HD)
      as (c1 & c' & R & P & M & Nx & Dc & _ & Cr & De & Pu & Po & Di & _).
    assert (forall k', is_Some (<[k := c']> (running_external_func_calls_ s) !! k')
                       -> is_Some (running_external_func_calls_ s !! k')) as Hdom.
    { intros k'. rewrite lookup_insert_is_Some. intros [<-|[_ ?]]; [by rewrite Hk|done]. }
    destruct ok.
    + unfold dispatch_or_erase. rewrite HD. intros [= <- <-].
      rewrite R. by repeat split.
    + erewrite dispatch_or_erase_failed; [|exact HD|by rewrite R, lookup_insert_eq].
      intros [= <- <-]. simpl.
      rewrite dispatched_app, popped_app, pushed_app, created_app, Di, Po, Pu, Cr.
      repeat split; try done.
      intros k'. rewrite R, lookup_delete_is_Some. intros [_ ?]. by apply Hdom.
  - rewrite (dispatch_or_erase_dangling _ _ _ Hk). by intros [= <- <-].
Qed.

Lemma dispatch_all_dispatched (env : Env) (ks : list FuncCall) :
  forall (s s' : Server) (l : list Effect),
  dispatch_all' env ks s = (s', l) ->
  dispatched l = ks /\ popped l = [] /\ pushed l = [] /\ created l = []
  /\ discarded_func_calls_ s' = discarded_func_calls_ s
  /\ pending_external_func_calls_ s' = pending_external_func_calls_ s
  /\ max_running_external_requests_ s' = max_running_external_requests_ s
  /\ (forall k', is_Some (running_external_func_calls_ s' !! k') ->
                 is_Some (running_external_func_calls_ s !! k')).
Proof.
  induction ks as [|k ks IH]; intros s s' l; simpl.
  - by intros [= <- <-].
  - destruct (dispatch_or_erase' env k s) as [s1 l1] eqn:E1.
    destruct (dispatch_all' env ks s1) as [s2 l2] eqn:E2.
    intros [= <- <-].
    apply dispatch_or_erase_dispatched in E1 as (A1 & A2 & A3 & A4 & A5 & A6 & A7 & A8).
    apply IH in E2 as (B1 & B2 & B3 & B4 & B5 & B6 & B7 & B8).
    rewrite dispatched_app, popped_app, pushed_app, created_app.
    rewrite A1, A2, A3, A4, B1, B2, B3, B4.
    repeat split; try congruence. auto.
Qed.

(** The [while] loop of the drain pops a prefix of the queue, in order,
    stores each popped context in the running table, and stops when the
    queue is empty or the cap forbids one more. *)
Lemma promote_pending_spec (queue : list ExternalFuncCallContext) :
  forall (s s' : Server) (ds : list FuncCall) (l : list Effect),
  pending_external_func_calls_ s = queue ->
  promote_pending queue s = (s', ds, l) ->
  queue = popped l ++ pending_external_func_calls_ s'
  /\ ds = map call_ (popped l)
  /\ pushed l = [] /\ created l = [] /\ dispatched l = []
  /\ (pending_external_func_calls_ s' = [] \/ cap_permits s' = false)
  /\ (forall p, p ∈ popped l ->
        is_Some (running_external_func_calls_ s' !! call_ p))
  /\ (forall k, is_Some (running_external_func_calls_ s !! k) ->
                is_Some (running_external_func_calls_ s' !! k))
  /\ max_running_external_requests_ s' = max_running_external_requests_ s
  /\ discarded_func_calls_ s' = discarded_func_calls_ s.
Proof.
  induction queue as [|p rest IH]; intros s s' ds l Hq; simpl.
  - intros [= <- <- <-]. repeat split; rewrite ?Hq; auto.
    intros p Hp. by apply elem_of_nil in Hp.
  - destruct (cap_permits s) eqn:Hcap.
    2: { intros [= <- <- <-]. repeat split; rewrite ?Hq; auto.
         intros q Hq'. by apply elem_of_nil in Hq'. }
    destruct (promote_front p rest s) as [s1 l1] eqn:E1.
    destruct (promote_pending rest s1) as [[s2 ds2] l2] eqn:E2.
    intros [= <- <- <-].
    apply promote_front_spec in E1 as (R & P & M & Nx & D & ->).
    apply (IH _ _ _ _ P) in E2 as (Q & -> & Pu & Cr & Di & Stop & In & Mono & M2 & D2).
    change (popped ((EPendingPop p :: ?a) ++ l2)) with (p :: popped (a ++ l2)).
    change (pushed ((EPendingPop p :: ?a) ++ l2)) with (pushed (a ++ l2)).
    change (created ((EPendingPop p :: ?a) ++ l2)) with (created (a ++ l2)).
    change (dispatched ((EPendingPop p :: ?a) ++ l2)) with (dispatched (a ++ l2)).
    rewrite popped_app, pushed_app, created_app, dispatched_app.
    rewrite popped_map_EDestroyed, pushed_map_EDestroyed,
      created_map_EDestroyed, dispatched_map_EDestroyed. simpl.
    repeat split; try congruence.
    + intros q [->|Hq']%elem_of_cons; [|by apply In].
      apply Mono. rewrite R, lookup_insert_eq. by eexists.
    + intros k Hk. apply Mono. rewrite R, lookup_insert_is_Some.
      destruct (decide (call_ p = k)); auto.
Qed.

(** ** The discarded-call drain *)

(** The first loop of the drain: the internal calls are recorded in order;
    an external call is taken out of the running table, with its context,
    when it is there; everything else stays. *)
Lemma collect_discarded_spec (calls : list FuncCall) :
  forall (s s' : Server) (ext ext' : list ExternalFuncCallContext)
         (int int' : list FuncCall),
  collect_discarded calls s ext int = (s', ext', int') ->
  int' = int ++ filter (fun fc => client_id fc <> 0) calls
  /\ (forall fc, fc ∈ calls -> client_id fc = 0 ->
        running_external_func_calls_ s' !! fc = None)
  /\ (forall k, k ∉ calls \/ client_id k <> 0 ->
        running_external_func_calls_ s' !! k
        = running_external_func_calls_ s !! k)
  /\ (exists found,
        ext' = ext ++ found
        /\ forall c, c ∈ found <->
             exists fc, fc ∈ calls /\ client_id fc = 0
                        /\ running_external_func_calls_ s !! fc = Some c)
  /\ s' = set_running (running_external_func_calls_ s') s.
Proof.
  induction calls as [|fc rest IH]; intros s s' ext ext' int int'; simpl.
  - intros [= <- <- <-]. rewrite app_nil_r. repeat split; try done.
    + intros fc H. by apply elem_of_nil in H.
    + exists []. rewrite app_nil_r. split; [done|]. intros c. split.
      * intros H. by apply elem_of_nil in H.
      * intros (fc & H & _). by apply elem_of_nil in H.
    + by destruct s.
  - destruct (client_id fc =? 0) eqn:Hcl.
    2: { apply N.eqb_neq in Hcl. intros E.
         apply IH in E as (-> & B1 & B2 & (found & -> & Hf) & Hs).
         rewrite filter_cons_True by done. rewrite <- app_assoc.
         repeat split; try done.
         - intros k [->|Hk]%elem_of_cons Hk0; [done|by apply B1].
         - intros k [Hk|Hk]; apply B2; [left|by right].
           intros Hin. apply Hk. by apply elem_of_cons; right.
         - exists found. split; [done|]. intros c. rewrite Hf. split.
           + intros (k & Hk & H0 & Hl). exists k. split; [by apply elem_of_cons; right|done].
           + intros (k & [->|Hk]%elem_of_cons & H0 & Hl); [done|by exists k]. }
    apply N.eqb_eq in Hcl. unfold full_call_id.
    rewrite filter_cons_False by (intros H; by apply H).
    destruct (running_external_func_calls_ s !! fc) as [c0|] eqn:Hk0.
    + intros E. apply IH in E as (-> & B1 & B2 & (found & -> & Hf) & Hs).
      simpl in *. repeat split; try done.
      * intros k [->|Hk]%elem_of_cons Hk0'; [|by apply B1].
        destruct (decide (fc ∈ rest)) as [Hin|Hnin]; [by apply B1|].
        rewrite B2 by (by left). apply lookup_delete_eq.
      * intros k Hk. rewrite B2.
        -- apply lookup_delete_ne. intros <-. destruct Hk as [Hk|Hk]; [|done].
           apply Hk. by apply elem_of_cons; left.
        -- destruct Hk as [Hk|Hk]; [left|by right].
           intros Hin. apply Hk. by apply elem_of_cons; right.
      * exists (c0 :: found). rewrite <- app_assoc. split; [done|].
        intros c. rewrite elem_of_cons, Hf. split.
        -- intros [->|(k & Hk & H0 & Hl)].
           ++ exists fc. split; [by apply elem_of_cons; left|done].
           ++ apply lookup_delete_Some in Hl as [_ Hl].
              exists k. split; [by apply elem_of_cons; right|done].
        -- intros (k & [->|Hk]%elem_of_cons & H0 & Hl).
           ++ left. congruence.
           ++ destruct (decide (fc = k)) as [<-|Hne]; [left; congruence|].
              right. exists k. rewrite lookup_delete_ne by done. done.
    + intros E. apply IH in E as (-> & B1 & B2 & (found & -> & Hf) & Hs).
      repeat split; try done.
      * intros k [->|Hk]%elem_of_cons Hk0'; [|by apply B1].
        destruct (decide (fc ∈ rest)) as [Hin|Hnin]; [by apply B1|].
        rewrite B2 by (by left). done.
      * intros k Hk. apply B2. destruct Hk as [Hk|Hk]; [left|by right].
        intros Hin. apply Hk. by apply elem_of_cons; right.
      * exists found. split; [done|]. intros c. rewrite Hf. split.
        -- intros (k & Hk & H0 & Hl). exists k. split; [by apply elem_of_cons; right|done].
        -- intros (k & [->|Hk]%elem_of_cons & H0 & Hl); [congruence|by exists k].
Qed.

(** The critical section of the drain. *)
Lemma ProcessDiscarded_locked_spec (s s1 : Server)
    (ext : list ExternalFuncCallContext) (int ds : list FuncCall)
    (l1 : list Effect) :
  ProcessDiscardedFuncCallIfNecessary_locked s = (s1, ext, int, ds, l1) ->
  discarded_func_calls_ s1 = []
  /\ int = filter (fun fc => client_id fc <> 0) (discarded_func_calls_ s)
  /\ (forall c, c ∈ ext <->
        exists fc, fc ∈ discarded_func_calls_ s /\ client_id fc = 0
                   /\ running_external_func_calls_ s !! fc = Some c)
  /\ (exists mid : gmap FuncCall ExternalFuncCallContext,
        (forall fc, fc ∈ discarded_func_calls_ s -> client_id fc = 0 ->
                    mid !! fc = None)
        /\ (forall k, k ∉ discarded_func_calls_ s \/ client_id k <> 0 ->
                      mid !! k = running_external_func_calls_ s !! k)
        /\ (forall k, is_Some (mid !! k) ->
                      is_Some (running_external_func_calls_ s1 !! k)))
  /\ pending_external_func_calls_ s
     = popped l1 ++ pending_external_func_calls_ s1
  /\ ds = map call_ (popped l1)
  /\ pushed l1 = [] /\ created l1 = [] /\ dispatched l1 = []
  /\ (pending_external_func_calls_ s1 = [] \/ cap_permits s1 = false)
  /\ (forall p, p ∈ popped l1 ->
        is_Some (running_external_func_calls_ s1 !! call_ p))
  /\ max_running_external_requests_ s1 = max_running_external_requests_ s.
Proof.
  unfold ProcessDiscardedFuncCallIfNecessary_locked.
  destruct (collect_discarded _ s [] []) as [[s0 ext0] int0] eqn:E1.
  destruct (promote_pending _ (set_discarded [] s0)) as [[s3 ds3] l3] eqn:E3.
  intros [= <- <- <- <- <-].
  apply collect_discarded_spec in E1 as (-> & B1 & B2 & (found & -> & Hf) & Hs).
  apply promote_pending_spec in E3
    as (Q & -> & Pu & Cr & Di & Stop & In & Mono & M & D); [|reflexivity].
  simpl in *. rewrite Hs in Q, M. simpl in Q, M.
  repeat split; try done.
  - by apply Hf.
  - by apply Hf.
  - exists (running_external_func_calls_ s0). by repeat split.
Qed.

(** The drain, unfolded: the critical section, then the finalization of the
    discarded external calls, the failure notices for the internal ones,
    and the dispatch of the promoted contexts. *)
Lemma ProcessDiscarded_unfold (env : Env) (s s' : Server) (l : list Effect) :
  ProcessDiscarded' env s = (s', l) ->
  exists s1 ext int ds l1 s4 l4,
    ProcessDiscardedFuncCallIfNecessary_locked s = (s1, ext, int, ds, l1)
    /\ tables_of (view s1 []) s4
    /\ discarded_func_calls_ s4 = discarded_func_calls_ s1
    /\ dispatch_all' env ds s4 = (s', l4)
    /\ l = l1 ++ map EDestroyed (map FinishWithDispatchFailure ext)
              ++ map (fun fc => EFuncCallFinished fc false) int ++ l4.
Proof.
  unfold ProcessDiscardedFuncCallIfNecessary.
  destruct (ProcessDiscardedFuncCallIfNecessary_locked s)
    as [[[[s1 ext] int] ds] l1] eqn:E1.
  destruct (destroy_all _ s1) as [s4 l2] eqn:E4.
  destruct (dispatch_all' env ds s4) as [s5 l4] eqn:E5.
  intros [= <- <-].
  apply destroy_all_spec in E4 as (-> & T & D).
  by exists s1, ext, int, ds, l1, s4, l4.
Qed.

Lemma ProcessDiscarded_drained (env : Env) (s s' : Server) (l : list Effect) :
  ProcessDiscarded' env s = (s', l) ->
  discarded_func_calls_ s' = [] /\ dispatched l = map call_ (popped l).
Proof.
  intros (s1 & ext & int & ds & l1 & s4 & l4 & E1 & T & D & E5 & ->)
    %ProcessDiscarded_unfold.
  apply ProcessDiscarded_locked_spec in E1
    as (D1 & _ & _ & _ & _ & -> & _ & _ & Di & _).
  apply dispatch_all_dispatched in E5 as (A1 & A2 & _ & _ & A5 & _).
  destruct (FuncCallFinished_silent int) as (_ & _ & _ & S4 & S5).
  split; [congruence|].
  rewrite !dispatched_app, !popped_app, Di, A1, A2, S4, S5.
  by rewrite dispatched_map_EDestroyed, popped_map_EDestroyed, !app_nil_r.
Qed.



Lemma OnRecvMessage_drained (env : Env) (m : Message) (s s' : Server)
    (l : list Effect) :
  OnRecvMessage' env m s = (s', l) ->
  discarded_func_calls_ s' = [] /\ dispatched l = map call_ (popped l).
Proof.
  unfold OnRecvMessage.
  match goal with
  | |- (let '(s1, l1) := ?body in _) = _ -> _ =>
      destruct body as [s1 l1] eqn:EB
  end.
  destruct (ProcessDiscarded' env s1) as [s2 l2] eqn:EP.
  intros [= <- <-].
  apply ProcessDiscarded_drained in EP as [D HP]. split; [done|].
  rewrite dispatched_app, popped_app, map_app, HP. f_equal.
  clear HP D s2 l2.
  destruct (IsInvokeFuncMessage m).
  { destruct (GetOrCreateDispatcherLocked _ _) as [s2 d].
    destruct d; [destruct (payload_size m <? 0)%Z|]; by injection EB as <- <-. }
  destruct (_ || _); [|by injection EB as <- <-].
  destruct (OnRecvMessage_finished_locked PIPE_BUF m s)
    as [[[[s2 ctx] fd] d] l2] eqn:EL.
  apply OnRecvMessage_finished_locked_spec in EL
    as (M & Nx & _ & [(c & Hcl & Hk & -> & Hcase) | (_ & -> & -> & -> & R & P)]).
  2: { assert ((if client_id (GetFuncCallFromMessage m) =? 0
                then option_map (finish_for_message env m) None else None)
               = None) as Hn by (by destruct (_ =? _)).
       rewrite Hn in EB. simpl in EB. injection EB as <- <-.
       rewrite app_nil_r. by destruct d, (IsFuncCallCompleteMessage m). }
  rewrite Hcl in EB. simpl in EB.
  match type of EB with
  | context [l2 ++ ?x ++ _] => set (ln := x) in EB
  end.
  assert (dispatched ln = [] /\ popped ln = []) as (N1 & N2)
    by (unfold ln; by destruct d, (IsFuncCallCompleteMessage m)).
  clearbody ln.
  destruct Hcase as [(p & rest & Hp & Hcap & -> & R & P & ->)
                    | (-> & _ & R & P & ->)].
  - destruct (dispatch_or_erase' env (call_ p) s2) as [s3 l3] eqn:ED.
    apply dispatch_or_erase_dispatched in ED as (A1 & A2 & _).
    simpl in EB. injection EB as <- <-.
    change (dispatched (EPendingPop p :: ?a)) with (dispatched a).
    change (popped (EPendingPop p :: ?a)) with (p :: popped a).
    rewrite !dispatched_app, !popped_app, N1, N2, A1, A2.
    by rewrite dispatched_map_EDestroyed, popped_map_EDestroyed.
  - simpl in EB. injection EB as <- <-.
    by rewrite !dispatched_app, !popped_app, N1, N2.
Qed.

(** The promotion loop, exactly: the running table afterwards, and the cap
    test that each turn of the loop passed. *)
Lemma promote_pending_exact (queue : list ExternalFuncCallContext) :
  forall (s s' : Server) (ds : list FuncCall) (l : list Effect),
  pending_external_func_calls_ s = queue ->
  promote_pending queue s = (s', ds, l) ->
  running_external_func_calls_ s'
  = promoted (popped l) (running_external_func_calls_ s)
  /\ forall i, (i < length (popped l))%nat ->
       cap_permits
         (set_running (promoted (take i (popped l))
                         (running_external_func_calls_ s)) s) = true.
Proof.
  induction queue as [|p rest IH]; intros s s' ds l Hq; simpl.
  - intros [= <- <- <-]. split; [done|]. simpl. lia.
  - destruct (cap_permits s) eqn:Hcap.
    2: { intros [= <- <- <-]. split; [done|]. simpl. lia. }
    destruct (promote_front p rest s) as [s1 l1] eqn:E1.
    destruct (promote_pending rest s1) as [[s2 ds2] l2] eqn:E2.
    intros [= <- <- <-].
    apply promote_front_spec in E1 as (R & P & M & _ & _ & ->).
    destruct (IH _ _ _ _ P E2) as [R2 C2].
    change (popped ((EPendingPop p :: ?a) ++ l2)) with (p :: popped (a ++ l2)).
    rewrite popped_app, popped_map_EDestroyed. simpl.
    split; [by rewrite R2, R|].
    intros [|i] Hi; simpl.
    + exact Hcap.
    + rewrite <- R. specialize (C2 i ltac:(lia)).
      unfold cap_permits in *. simpl in *. by rewrite <- M.
Qed.

Lemma promoted_lookup_other (ps : list ExternalFuncCallContext) :
  forall (m : gmap FuncCall ExternalFuncCallContext) (k : FuncCall),
  k ∉ map call_ ps -> promoted ps m !! k = m !! k.
Proof.
  induction ps as [|p ps IH]; intros m k Hk; simpl; [done|].
  simpl in Hk. apply not_elem_of_cons in Hk as [Hne Hk].
  rewrite IH by done. by rewrite lookup_insert_ne.
Qed.

Lemma promoted_lookup_call (ps : list ExternalFuncCallContext) :
  forall (m : gmap FuncCall ExternalFuncCallContext) (k : FuncCall),
  k ∈ map call_ ps ->
  exists p, p ∈ ps /\ call_ p = k /\ promoted ps m !! k = Some p.
Proof.
  induction ps as [|p ps IH]; intros m k Hk; simpl in *.
  - by apply elem_of_nil in Hk.
  - destruct (decide (k ∈ map call_ ps)) as [Hin|Hnin].
    + destruct (IH (<[call_ p := p]> m) k Hin) as (q & Hq & Hc & Hl).
      exists q. split; [by right|done].
    + apply elem_of_cons in Hk as [->|Hk]; [|done].
      exists p. split; [by left|]. split; [done|].
      rewrite promoted_lookup_other by done. apply lookup_insert_eq.
Qed.

Lemma without_discarded_lookup (calls : list FuncCall)
    (m : gmap FuncCall ExternalFuncCallContext) (k : FuncCall) :
  without_discarded calls m !! k
  = if decide (client_id k = 0 /\ k ∈ calls) then None else m !! k.
Proof.
  unfold without_discarded. destruct (decide _) as [H|H].
  - apply map_lookup_filter_None. right. intros c _ Hn. by apply Hn.
  - destruct (m !! k) as [c|] eqn:Hk.
    + by apply map_lookup_filter_Some.
    + apply map_lookup_filter_None. by left.
Qed.

Lemma omap_lookup_delete (fc : FuncCall)
    (m : gmap FuncCall ExternalFuncCallContext) (ks : list FuncCall) :
  omap (fun k => delete fc m !! k) ks
  = omap (fun k => m !! k) (filter (fun y => y <> fc) ks).
Proof.
  induction ks as [|k ks IH]; [done|].
  rewrite filter_cons. destruct (decide (k <> fc)) as [Hne|Heq];
    simpl.
  - rewrite lookup_delete_ne by done.
    destruct (m !! k); [f_equal|]; exact IH.
  - apply dec_stable in Heq. subst k. rewrite lookup_delete_eq. exact IH.
Qed.

Lemma omap_lookup_absent (fc : FuncCall)
    (m : gmap FuncCall ExternalFuncCallContext) (ks : list FuncCall) :
  m !! fc = None ->
  omap (fun k => m !! k) (filter (fun y => y <> fc) ks)
  = omap (fun k => m !! k) ks.
Proof.
  intros Hfc. induction ks as [|k ks IH]; [done|].
  rewrite filter_cons. destruct (decide (k <> fc)) as [Hne|Heq];
    simpl.
  - destruct (m !! k); [f_equal|]; exact IH.
  - apply dec_stable in Heq. subst k. rewrite Hfc. exact IH.
Qed.

(** The first loop of the drain, exactly: what is left of the running
    table, and the contexts taken out of it, in order. *)
Lemma collect_discarded_exact (calls : list FuncCall) :
  forall (s s' : Server) (ext ext' : list ExternalFuncCallContext)
         (int int' : list FuncCall),
  collect_discarded calls s ext int = (s', ext', int') ->
  running_external_func_calls_ s'
  = without_discarded calls (running_external_func_calls_ s)
  /\ ext' = ext ++ discarded_contexts calls (running_external_func_calls_ s).
Proof.
  intros s s' ext ext' int int' E. split.
  - apply collect_discarded_spec in E as (_ & B1 & B2 & _).
    apply map_eq. intros k. rewrite without_discarded_lookup.
    destruct (decide _) as [[Hc Hk]|Hn]; [by apply B1|].
    apply B2. destruct (decide (k ∈ calls)); [|by left].
    right. intros Hc. by apply Hn.
  - revert s s' ext ext' int int' E.
    induction calls as [|fc rest IH]; intros s s' ext ext' int int'; simpl.
    + intros [= <- <- <-]. unfold discarded_contexts. simpl.
      by rewrite app_nil_r.
    + unfold discarded_contexts. rewrite filter_cons.
      destruct (client_id fc =? 0) eqn:Hcl.
      * apply N.eqb_eq in Hcl. rewrite decide_True by done.
        unfold full_call_id. simpl.
        destruct (running_external_func_calls_ s !! fc) as [c|] eqn:Hfc.
        -- intros E. apply IH in E. rewrite E. simpl.
           unfold discarded_contexts. rewrite omap_lookup_delete.
           by rewrite <- app_assoc.
        -- intros E. apply IH in E. rewrite E.
           unfold discarded_contexts. by rewrite omap_lookup_absent.
      * apply N.eqb_neq in Hcl. rewrite decide_False by done. apply IH.
Qed.

(** The critical section of the drain, exactly. *)
Lemma ProcessDiscarded_locked_exact (s s1 : Server)
    (ext : list ExternalFuncCallContext) (int ds : list FuncCall)
    (l1 : list Effect) :
  ProcessDiscardedFuncCallIfNecessary_locked s = (s1, ext, int, ds, l1) ->
  let mid := without_discarded (discarded_func_calls_ s)
               (running_external_func_calls_ s) in
  ext = discarded_contexts (discarded_func_calls_ s)
          (running_external_func_calls_ s)
  /\ running_external_func_calls_ s1 = promoted (popped l1) mid
  /\ forall i, (i < length (popped l1))%nat ->
       cap_permits (set_running (promoted (take i (popped l1)) mid) s) = true.
Proof.
  unfold ProcessDiscardedFuncCallIfNecessary_locked.
  destruct (collect_discarded _ s [] []) as [[s0 ext0] int0] eqn:E1.
  destruct (promote_pending _ (set_discarded [] s0)) as [[s3 ds3] l3] eqn:E3.
  intros [= <- <- <- <- <-].
  pose proof (collect_discarded_spec _ _ _ _ _ _ _ E1) as (_ & _ & _ & _ & Hs).
  apply collect_discarded_exact in E1 as [R ->].
  apply promote_pending_exact in E3 as [R3 C3]; [|reflexivity].
  simpl in R3, C3. rewrite R in R3, C3.
  split; [done|]. split; [done|].
  intros i Hi. specialize (C3 i Hi).
  unfold cap_permits in *. simpl in *. rewrite Hs in C3. exact C3.
Qed.



(** C8, as the code has it.  The message handler ends with the drain, for
    every message: when [OnRecvMessage] returns, [discarded_func_calls_] is
    empty; so it is after the drain itself.  The connection-close handler
    does not run the drain: it leaves the running table and the pending
    queue as they are and [discarded_func_calls_] as it was, followed by the
    calls that the worker manager discards for a registered message
    connection. *)
Theorem drain_at_handler_exit :
  (forall env m s, discarded_func_calls_ (OnRecvMessage' env m s).1 = [])
  /\ (forall env s, discarded_func_calls_ (ProcessDiscarded' env s).1 = [])
  /\ (forall env connection s,
        let s' := OnConnectionClose env connection s in
        running_external_func_calls_ s' = running_external_func_calls_ s
        /\ pending_external_func_calls_ s' = pending_external_func_calls_ s
        /\ discarded_func_calls_ s'
           = discarded_func_calls_ s
             ++ match conn_type connection with
                | MessageConnection =>
                    if handshake_done connection
                    then worker_manager_discards env connection else []
                | _ => []
                end).
Proof.
  split; [|split].
  - intros env m s. destruct (OnRecvMessage' env m s) as [s' l] eqn:E.
    by apply OnRecvMessage_drained in E as [? _].
  - intros env s. destruct (ProcessDiscarded' env s) as [s' l] eqn:E.
    by apply ProcessDiscarded_drained in E as [? _].
  - intros env connection s.
    destruct (OnConnectionClose_spec env connection s)
      as ((_ & _ & R & P) & _ & D).
    by repeat split.
Qed.

(** ** Admission of a new external call *)

Lemma cap_permits_iff (s : Server) :
  cap_permits s = true <->
  max_running_external_requests_ s = 0
  \/ N.of_nat (size (running_external_func_calls_ s))
     < max_running_external_requests_ s.
Proof.
  unfold cap_permits. rewrite orb_true_iff, N.eqb_eq, N.ltb_lt. done.
Qed.

Lemma running_assign_incoming (c : ExternalFuncCallContext) (s s' : Server)
    (l : list Effect) :
  running_assign c s = (s', l) ->
  incoming_external_requests_stat_ s' = incoming_external_requests_stat_ s.
Proof.
  unfold running_assign, destroy.
  destruct (running_external_func_calls_ s !! _); by intros [= <- <-].
Qed.

(** C1.  A new external call [c], HTTP or gRPC alike.  In the critical
    section: when the cap is zero or the running table is below the cap, [c]
    is stored in the running table and marked for dispatch; otherwise [c] is
    pushed at the back of the pending queue and nothing is dispatched.  A
    marked call is dispatched once, and when that dispatch fails [c] is
    erased from the running table; when it succeeds [c] stays there with its
    sink untouched. *)
Theorem new_external_call_admission (env : Env) (c : ExternalFuncCallContext)
    (s : Server) :
  let admitted := NewExternalFuncCall_locked c s in
  let final := NewExternalFuncCall' env c s in
  let k := full_call_id (call_ c) in
  incoming_external_requests_stat_ admitted.1.1
  = incoming_external_requests_stat_ s + 1
  /\ (max_running_external_requests_ s = 0
      \/ N.of_nat (size (running_external_func_calls_ s))
         < max_running_external_requests_ s ->
      admitted.1.2 = Some k
      /\ running_external_func_calls_ admitted.1.1
         = <[k := c]> (running_external_func_calls_ s)
      /\ pending_external_func_calls_ admitted.1.1
         = pending_external_func_calls_ s
      /\ pushed final.2 = [] /\ dispatched final.2 = [k]
      /\ pending_external_func_calls_ final.1 = pending_external_func_calls_ s
      /\ ((Dispatch env k admitted.1.1).1.2 = false ->
          running_external_func_calls_ final.1
          = delete k (running_external_func_calls_ s))
      /\ ((Dispatch env k admitted.1.1).1.2 = true ->
          exists c1,
            running_external_func_calls_ final.1
            = <[k := c1]> (running_external_func_calls_ s)
            /\ call_ c1 = call_ c /\ sink_ c1 = sink_ c))
  /\ (~ (max_running_external_requests_ s = 0
         \/ N.of_nat (size (running_external_func_calls_ s))
            < max_running_external_requests_ s) ->
      admitted.1.2 = None
      /\ running_external_func_calls_ admitted.1.1
         = running_external_func_calls_ s
      /\ pending_external_func_calls_ admitted.1.1
         = pending_external_func_calls_ s ++ [c]
      /\ final = (admitted.1.1, [EPendingPush c])).
Proof.
  intros admitted final k. unfold admitted, final, k.
  unfold NewExternalFuncCall, NewExternalFuncCall_locked, full_call_id.
  set (s0 := Tick incoming_external_requests s).
  assert (cap_permits s0 = cap_permits s) as -> by reflexivity.
  pose proof (cap_permits_iff s) as Hiff.
  destruct (cap_permits s) eqn:Hcap.
  - destruct (running_assign c s0) as [s1 l1] eqn:E1.
    pose proof (running_assign_incoming _ _ _ _ E1) as Hin.
    apply running_assign_spec in E1 as (R & P & M & Nx & D & ->).
    change (pending_external_func_calls_ s0)
      with (pending_external_func_calls_ s) in P.
    change (running_external_func_calls_ s0)
      with (running_external_func_calls_ s) in *.
    cbn [fst snd].
    split; [exact Hin|]. split; [|intros Hn; exfalso; apply Hn; by apply Hiff].
    intros _.
    assert (running_external_func_calls_ s1 !! call_ c = Some c) as Hk
      by (by rewrite R, lookup_insert_eq).
    destruct (Dispatch env (call_ c) s1) as [[s2 ok] l2] eqn:HD.
    destruct (Dispatch_slot _ _ _ _ _ _ _ Hk HD)
      as (c1 & c' & R2 & P2 & M2 & Nx2 & _ & _ & Cr & De & Pu & Po & Di & Hc & Hs & Hok).
    cbn [fst snd].
    destruct ok.
    + unfold dispatch_or_erase. rewrite HD. cbn [fst snd]. subst c'.
      rewrite pushed_app, dispatched_app, pushed_map_EDestroyed,
        dispatched_map_EDestroyed, Pu, Di.
      split_and!; try done; try congruence.
      intros _. exists c1. rewrite R2, R. cbn.
      by rewrite insert_insert_eq.
    + erewrite dispatch_or_erase_failed; [|exact HD|by rewrite R2, lookup_insert_eq].
      cbn [fst snd].
      rewrite !pushed_app, !dispatched_app, pushed_map_EDestroyed,
        dispatched_map_EDestroyed, Pu, Di.
      split_and!; try done; try congruence.
      * cbn. congruence.
      * intros _. cbn. rewrite R2, R. by rewrite !delete_insert_eq.
  - cbn [fst snd]. split; [done|]. split; [intros Hy; apply Hiff in Hy; done|].
    intros _. done.
Qed.

(** ** Completion of an external call *)

Lemma OnRecvMessage_finishes (env : Env) (m : Message) (s : Server)
    (c : ExternalFuncCallContext) :
  client_id (GetFuncCallFromMessage m) = 0 ->
  running_external_func_calls_ s !! GetFuncCallFromMessage m = Some c ->
  message_type m = FUNC_CALL_COMPLETE \/ message_type m = FUNC_CALL_FAILED ->
  EDestroyed (finish_for_message env m c) ∈ (OnRecvMessage' env m s).2.
Proof.
  intros Hcl Hk Hty. unfold OnRecvMessage.
  match goal with
  | |- _ ∈ (let '(s1, l1) := ?body in _).2 =>
      destruct body as [s1 l1] eqn:EB
  end.
  destruct (ProcessDiscarded' env s1) as [s2 l2]. cbn [snd].
  apply elem_of_app. left.
  assert (IsInvokeFuncMessage m = false) as Hinv.
  { unfold IsInvokeFuncMessage. apply bool_decide_eq_false.
    destruct Hty as [-> | ->]; discriminate. }
  assert (IsFuncCallCompleteMessage m || IsFuncCallFailedMessage m = true) as Hfin.
  { unfold IsFuncCallCompleteMessage, IsFuncCallFailedMessage.
    destruct Hty as [-> | ->]; reflexivity. }
  rewrite Hinv, Hfin in EB.
  destruct (OnRecvMessage_finished_locked PIPE_BUF m s)
    as [[[[s3 ctx] fd] d] l3] eqn:EL.
  apply OnRecvMessage_finished_locked_spec in EL
    as (_ & _ & _ & [(c' & _ & Hk' & -> & _) | ([Hn|Hn] & _)]);
    [|congruence..].
  assert (c' = c) as -> by congruence.
  rewrite Hcl in EB. cbn [N.eqb option_map] in EB.
  destruct (match fd with Some k => _ | None => _ end) as [s4 l4].
  cbn [destroy] in EB. injection EB as <- <-.
  rewrite !elem_of_app. do 3 right. apply list_elem_of_singleton. done.
Qed.

(** C4.  A Complete or Failed message for an external call whose context
    [c] is in the running table.  The handler finalizes [c] once and
    destroys it.  On Complete with a negative [payload_size] the bytes of the
    output region are appended to the response and the status is left
    alone, unless the region cannot be opened, in which case the context is
    finalized with the error status (HTTP 500, gRPC UNKNOWN); on Complete
    with a nonnegative [payload_size] the inline payload is appended; on
    Failed the context is finalized with the error status. *)
Theorem complete_message_delivery (env : Env) (m : Message) (s : Server)
    (c : ExternalFuncCallContext) :
  client_id (GetFuncCallFromMessage m) = 0 ->
  running_external_func_calls_ s !! GetFuncCallFromMessage m = Some c ->
  message_type m = FUNC_CALL_COMPLETE \/ message_type m = FUNC_CALL_FAILED ->
  exists c',
    EDestroyed c' ∈ (OnRecvMessage' env m s).2
    /\ call_ c' = call_ c
    /\ finish_calls c' = S (finish_calls c)
    /\ (message_type m = FUNC_CALL_COMPLETE -> (payload_size m < 0)%Z ->
        forall r, ShmOpen_output env (call_ c) = Some r ->
          c' = FinishWithShmOutput (Some r) c
          /\ response_body c' = response_body c +:+ shm_contents r
          /\ response_status c' = response_status c
          /\ output_region_ c' = Some (mkShm (shm_contents r) true))
    /\ (message_type m = FUNC_CALL_COMPLETE -> (payload_size m < 0)%Z ->
        ShmOpen_output env (call_ c) = None ->
          c' = FinishWithError c
          /\ response_status c' = (if is_http c then inl 500%Z else inr UNKNOWN))
    /\ (message_type m = FUNC_CALL_COMPLETE -> (0 <= payload_size m)%Z ->
          c' = FinishWithOutput (GetInlineDataFromMessage m) c
          /\ response_body c' = response_body c +:+ GetInlineDataFromMessage m
          /\ response_status c' = response_status c)
    /\ (message_type m = FUNC_CALL_FAILED ->
          c' = FinishWithError c
          /\ response_status c' = (if is_http c then inl 500%Z else inr UNKNOWN)
          /\ response_body c'
             = (if is_http c
                then response_body c +:+ "Function call failed" +:+ newline
                else response_body c)).
Proof.
  intros Hcl Hk Hty. exists (finish_for_message env m c).
  split; [by apply OnRecvMessage_finishes|].
  unfold finish_for_message, IsFuncCallCompleteMessage, full_call_id.
  destruct (FinishWithError_spec c) as (E1 & E2 & E3 & E4 & _).
  destruct (FinishWithOutput_spec (GetInlineDataFromMessage m) c)
    as (O1 & O2 & O3 & O4).
  destruct Hty as [Hty | Hty]; rewrite Hty; simpl.
  - destruct (Z.ltb_spec (payload_size m) 0) as [Hneg | Hpos].
    + destruct (ShmOpen_output env (call_ c)) as [r|] eqn:Hopen.
      * destruct (FinishWithShmOutput_spec r c) as (S1 & S2 & S3 & S4 & S5).
        split_and!; try done; try (intros; lia).
        intros _ _ r' [= <-]. done.
      * split_and!; try done; try (intros; lia).
    + split_and!; try done; try (intros; lia).
  - split_and!; try done.
Qed.

(** ** Failure to create the input region *)

(** C5, as the code has it.  A context [c] in the running table whose input
    exceeds [MESSAGE_INLINE_DATA_SIZE], when [ipc::ShmCreate] fails:
    [DispatchExternalFuncCall] returns [false] without reaching the
    dispatcher, having finalized [c] through [FinishWithError], that is with
    HTTP status 500 and the body "Function call failed" or with gRPC status
    UNKNOWN; the caller then erases and destroys the context. *)
Theorem shm_input_creation_failure (env : Env) (k : FuncCall) (s : Server)
    (c : ExternalFuncCallContext) :
  running_external_func_calls_ s !! k = Some c ->
  MESSAGE_INLINE_DATA_SIZE < N.of_nat (String.length (GetInput c)) ->
  ShmCreate_input env (call_ c) = false ->
  Dispatch env k s
  = (set_running (<[k := FinishWithError c]> (running_external_func_calls_ s)) s,
     false, [EDispatchExternal k])
  /\ dispatch_or_erase' env k s
     = (set_inflight (inflight_external_requests_ s - 1)%Z
          (set_running (delete k (running_external_func_calls_ s)) s),
        [EDispatchExternal k; EDestroyed (FinishWithError c)])
  /\ finish_calls (FinishWithError c) = S (finish_calls c)
  /\ response_status (FinishWithError c)
     = (if is_http c then inl 500%Z else inr UNKNOWN)
  /\ response_body (FinishWithError c)
     = (if is_http c
        then response_body c +:+ "Function call failed" +:+ newline
        else response_body c)
  /\ input_region_ (FinishWithError c) = input_region_ c.
Proof.
  intros Hk Hlarge Hfail.
  assert (Dispatch env k s
          = (set_running (<[k := FinishWithError c]>
                            (running_external_func_calls_ s)) s,
             false, [EDispatchExternal k])) as HD.
  { unfold DispatchExternalFuncCall, CreateShmInput. rewrite Hk.
    apply N.ltb_lt in Hlarge. by rewrite Hlarge, Hfail. }
  destruct (FinishWithError_spec c) as (_ & E2 & E3 & E4 & E5 & _).
  split_and!; try done.
  erewrite dispatch_or_erase_failed; [|exact HD|by simpl; rewrite lookup_insert_eq].
  simpl. by rewrite delete_insert_eq.
Qed.

(** ** gRPC calls that are not in the configuration *)

(** C9.  A gRPC call whose service has no entry ["grpc:<service>"] in the
    configuration, or whose method is not among the methods of that entry,
    is finished at once with status [NOT_FOUND], and the server is exactly
    as before: no call id is taken, no context is created, the running
    table and the pending queue are unchanged. *)
Theorem grpc_unknown_call (env : Env) (call_context : GrpcCallContext)
    (s : Server) :
  find_by_func_name (func_config_ s)
    ("grpc:" +:+ grpc_service_name call_context) = None
  \/ (exists func_entry,
        find_by_func_name (func_config_ s)
          ("grpc:" +:+ grpc_service_name call_context) = Some func_entry
        /\ grpc_method_ids func_entry !! grpc_method_name call_context = None) ->
  let r := OnNewGrpcCall' env call_context s in
  let finished := grpc_Finish (set_grpc_status NOT_FOUND call_context) in
  r = (s, [EGrpcFinished finished])
  /\ grpc_status finished = NOT_FOUND
  /\ grpc_finish_calls finished = S (grpc_finish_calls call_context)
  /\ grpc_response_body finished = grpc_response_body call_context
  /\ next_call_id_ r.1 = next_call_id_ s
  /\ inflight_external_requests_ r.1 = inflight_external_requests_ s
  /\ created r.2 = []
  /\ running_external_func_calls_ r.1 = running_external_func_calls_ s
  /\ pending_external_func_calls_ r.1 = pending_external_func_calls_ s.
Proof.
  intros H r finished.
  assert (r = (s, [EGrpcFinished finished])) as Hr.
  { unfold r, OnNewGrpcCall.
    destruct H as [-> | (func_entry & -> & ->)]; reflexivity. }
  rewrite Hr. by split_and!.
Qed.

(** ** Single finalization *)

Lemma finish_with_call (fv : FinishVariant) (c : ExternalFuncCallContext) :
  call_ (finish_with fv c) = call_ c
  /\ finish_calls (finish_with fv c) = S (finish_calls c).
Proof.
  destruct fv as [r|output| |]; simpl.
  - by destruct (FinishWithShmOutput_spec r c) as (? & ? & _).
  - by destruct (FinishWithOutput_spec output c) as (? & ? & _).
  - by destruct (FinishWithError_spec c) as (? & ? & _).
  - by destruct (FinishWithDispatchFailure_spec c) as (? & ? & _).
Qed.

Lemma finish_calls_sink (c1 c2 : ExternalFuncCallContext) :
  sink_ c1 = sink_ c2 -> finish_calls c1 = finish_calls c2.
Proof. unfold finish_calls. by intros ->. Qed.

Lemma running_contexts_lookup (m : gmap FuncCall ExternalFuncCallContext) c :
  c ∈ running_contexts m <-> exists k, m !! k = Some c.
Proof.
  unfold running_contexts. rewrite list_elem_of_fmap. split.
  - intros ([k c'] & -> & H). exists k. by apply elem_of_map_to_list.
  - intros (k & H). exists (k, c). split; [done|]. by apply elem_of_map_to_list.
Qed.

Lemma running_contexts_insert (m : gmap FuncCall ExternalFuncCallContext) k c :
  m !! k = None -> running_contexts (<[k := c]> m) ≡ₚ c :: running_contexts m.
Proof.
  intros H. unfold running_contexts. by rewrite map_to_list_insert.
Qed.

Lemma running_contexts_delete (m : gmap FuncCall ExternalFuncCallContext) k c :
  m !! k = Some c -> c :: running_contexts (delete k m) ≡ₚ running_contexts m.
Proof.
  intros H. unfold running_contexts.
  by rewrite <- (map_to_list_delete m k c H).
Qed.

Lemma running_contexts_update (m : gmap FuncCall ExternalFuncCallContext) k c c1 :
  m !! k = Some c ->
  running_contexts (<[k := c1]> m) ≡ₚ c1 :: running_contexts (delete k m).
Proof.
  intros H. rewrite <- insert_delete_eq.
  apply running_contexts_insert. apply lookup_delete_eq.
Qed.

Lemma created_calls_NoDup (v : View) :
  v_lifecycle v -> NoDup (map call_ (v_created v)).
Proof.
  intros (_ & J1 & _). apply NoDup_alt. intros i j k Hi Hj.
  change (map call_ (v_created v)) with (call_ <$> v_created v) in *.
  rewrite list_lookup_fmap in Hi, Hj.
  destruct (v_created v !! i) as [ci|] eqn:Ei; [|done].
  destruct (v_created v !! j) as [cj|] eqn:Ej; [|done].
  simpl in *. apply J1 in Ei, Ej.
  assert (call_id (call_ ci) = call_id (call_ cj)) as E by congruence.
  rewrite Ei, Ej in E. lia.
Qed.

Lemma fresh_not_created (v : View) (c : ExternalFuncCallContext) :
  v_lifecycle v -> fresh_context v c -> call_ c ∉ map call_ (v_created v).
Proof.
  intros (J0 & J1 & _) Hf Hin.
  change (map call_ (v_created v)) with (call_ <$> v_created v) in *.
  apply list_elem_of_fmap in Hin as (c0 & Hc & Hin).
  apply list_elem_of_lookup in Hin as (i & Hi).
  pose proof (lookup_lt_Some _ _ _ Hi) as Hlt.
  apply J1 in Hi. unfold fresh_context in Hf.
  rewrite Hc, Hi, J0 in Hf. lia.
Qed.

Lemma not_alive_not_running (v : View) (k : FuncCall) :
  v_lifecycle v ->
  k ∉ map call_ (running_contexts (v_running v)) -> v_running v !! k = None.
Proof.
  intros (_ & _ & J2 & _) Hn. apply eq_None_not_Some. intros [c Hc].
  apply Hn. change (k ∈ call_ <$> running_contexts (v_running v)).
  apply list_elem_of_fmap. exists c. split; [by rewrite (J2 _ _ Hc)|].
  apply running_contexts_lookup. by exists k.
Qed.

Lemma calls_insert (m : gmap FuncCall ExternalFuncCallContext) k c :
  m !! k = None ->
  map call_ (running_contexts (<[k := c]> m))
  ≡ₚ call_ c :: map call_ (running_contexts m).
Proof. intros H. by rewrite (running_contexts_insert m k c H). Qed.

Lemma calls_delete (m : gmap FuncCall ExternalFuncCallContext) k c :
  m !! k = Some c ->
  call_ c :: map call_ (running_contexts (delete k m))
  ≡ₚ map call_ (running_contexts m).
Proof. intros H. by rewrite <- (running_contexts_delete m k c H). Qed.

Lemma calls_update (m : gmap FuncCall ExternalFuncCallContext) k c c1 :
  m !! k = Some c -> call_ c1 = call_ c ->
  map call_ (running_contexts (<[k := c1]> m))
  ≡ₚ map call_ (running_contexts m).
Proof.
  intros H Hc. rewrite (running_contexts_update m k c c1 H).
  rewrite <- (calls_delete m k c H). simpl. by rewrite Hc.
Qed.

Lemma lifecycle_create (v : View) (c : ExternalFuncCallContext) :
  v_lifecycle v -> fresh_context v c ->
  N.of_nat (length (v_created v ++ [c])) + 1 < 2 ^ 32 ->
  (v_next v + 1) mod 2 ^ 32 = 1 + N.of_nat (length (v_created v ++ [c]))
  /\ (forall i c', (v_created v ++ [c]) !! i = Some c' ->
        call_id (call_ c') = 1 + N.of_nat i)
  /\ v_running v !! call_ c = None.
Proof.
  intros J Hf Hb. pose proof (fresh_not_created _ _ J Hf) as Hnew.
  pose proof (not_alive_not_running v (call_ c) J) as Hrun.
  destruct J as (J0 & J1 & J2 & J3 & J4 & J5).
  rewrite length_app in *. simpl in *. split; [|split].
  - rewrite J0. rewrite N.mod_small by lia. lia.
  - intros i c' [Hi | [Hi Hc]]%lookup_app_Some; [by apply J1|].
    apply list_lookup_singleton_Some in Hc as [Hz ->].
    unfold fresh_context in Hf. rewrite Hf, J0. lia.
  - apply Hrun. intros Hin. apply Hnew. rewrite J3, map_app.
    apply elem_of_app. right. unfold v_alive. rewrite map_app.
    apply elem_of_app. by right.
Qed.

Lemma move_lifecycle (v v' : View) :
  move v v' -> v_lifecycle v ->
  N.of_nat (length (v_created v')) + 1 < 2 ^ 32 ->
  v_lifecycle v'.
Proof.
  destruct 1 as [v c Hp Hf|v c Hp Hf|v p rest Hq Hp|v k c c1 Hk Hc Hs
                |v k c c1 fv Hk Hc Hs|v d Hd]; simpl; intros J Hb.
  - destruct (lifecycle_create v c J Hf Hb) as (N0 & N1 & Hnone).
    destruct J as (J0 & J1 & J2 & J3 & J4 & J5).
    unfold v_lifecycle, v_alive, overwritten in *. simpl. rewrite Hnone, app_nil_r.
    split_and!; try done.
    + intros k c' [[<- <-]|[_ H]]%lookup_insert_Some; [done|by apply J2].
    + rewrite !map_app, (calls_insert _ _ _ Hnone), J3, !map_app. simpl.
      rewrite <- Permutation_cons_append.
      by rewrite !Permutation_middle.
    + intros c'. rewrite (running_contexts_insert _ _ _ Hnone).
      rewrite elem_of_app, elem_of_cons. intros [H|[->|H]].
      * destruct (J4 c') as (c0 & H0 & H1); [apply elem_of_app; by left|].
        exists c0. split; [apply elem_of_app; by left|done].
      * exists c. split; [apply elem_of_app; right; by apply list_elem_of_singleton|done].
      * destruct (J4 c') as (c0 & H0 & H1); [apply elem_of_app; by right|].
        exists c0. split; [apply elem_of_app; by left|done].
    + intros c' H. destruct (J5 c' H) as (c0 & H0 & H1).
      exists c0. split; [apply elem_of_app; by left|done].
  - destruct (lifecycle_create v c J Hf Hb) as (N0 & N1 & Hnone).
    destruct J as (J0 & J1 & J2 & J3 & J4 & J5).
    unfold v_lifecycle, v_alive in *. simpl.
    split_and!; try done.
    + rewrite !map_app, J3, !map_app. simpl.
      rewrite <- !app_assoc. do 2 apply Permutation_app_head.
      apply Permutation_app_comm.
    + intros c'. rewrite !elem_of_app, list_elem_of_singleton.
      intros [[H| ->]|H].
      * destruct (J4 c') as (c0 & H0 & H1); [apply elem_of_app; by left|].
        exists c0. split; [apply elem_of_app; by left|done].
      * exists c. split; [apply elem_of_app; right; by apply list_elem_of_singleton|done].
      * destruct (J4 c') as (c0 & H0 & H1); [apply elem_of_app; by right|].
        exists c0. split; [apply elem_of_app; by left|done].
    + intros c' H. destruct (J5 c' H) as (c0 & H0 & H1).
      exists c0. split; [apply elem_of_app; by left|done].
  - pose proof (created_calls_NoDup _ J) as Hnd.
    pose proof (not_alive_not_running v (call_ p) J) as Hrun.
    destruct J as (J0 & J1 & J2 & J3 & J4 & J5).
    unfold v_lifecycle, v_alive, overwritten in *. simpl.
    assert (v_running v !! call_ p = None) as Hnone.
    { apply Hrun. intros Hin. rewrite J3, Hq, !map_app in Hnd. simpl in Hnd.
      apply NoDup_app in Hnd as (_ & _ & Hnd).
      apply NoDup_cons in Hnd as [Hnd _]. apply Hnd.
      apply elem_of_app. by right. }
    rewrite Hnone, app_nil_r.
    split_and!; try done.
    + intros k c' [[<- <-]|[_ H]]%lookup_insert_Some; [done|by apply J2].
    + rewrite J3, Hq, !map_app, (calls_insert _ _ _ Hnone). simpl.
      apply Permutation_app_head. by rewrite Permutation_middle.
    + intros c'. rewrite (running_contexts_insert _ _ _ Hnone).
      rewrite elem_of_app, elem_of_cons. intros H. apply J4.
      rewrite Hq, elem_of_app, elem_of_cons. tauto.
  - destruct J as (J0 & J1 & J2 & J3 & J4 & J5).
    unfold v_lifecycle, v_alive in *. simpl.
    assert (call_ c = k) as Hck by (by apply J2).
    split_and!; try done.
    + intros k' c' [[<- <-]|[_ H]]%lookup_insert_Some; [congruence|by apply J2].
    + by rewrite J3, !map_app, (calls_update _ _ _ _ Hk Hc).
    + intros c'. rewrite (running_contexts_update _ _ _ _ Hk).
      rewrite elem_of_app, elem_of_cons. intros [H|[->|H]].
      * apply J4. apply elem_of_app. by left.
      * destruct (J4 c) as (c0 & H0 & H1 & H2).
        { apply elem_of_app. right. apply running_contexts_lookup. by exists k. }
        exists c0. split; [done|]. split; congruence.
      * apply J4. apply elem_of_app. right.
        rewrite <- (running_contexts_delete _ _ _ Hk). by apply elem_of_cons; right.
  - destruct J as (J0 & J1 & J2 & J3 & J4 & J5).
    unfold v_lifecycle, v_alive in *. simpl.
    destruct (finish_with_call fv c1) as [Hfc _].
    split_and!; try done.
    + intros k' c' [_ H]%lookup_delete_Some. by apply J2.
    + rewrite J3, !map_app, <- (calls_delete _ _ _ Hk). simpl.
      rewrite Hfc, Hc. rewrite <- !app_assoc. apply Permutation_app_head.
      simpl. by rewrite !Permutation_middle.
    + intros c' H. apply J4. apply elem_of_app in H as [H|H].
      * apply elem_of_app. by left.
      * apply elem_of_app. right.
        rewrite <- (running_contexts_delete _ _ _ Hk). by apply elem_of_cons; right.
    + intros c' [H| ->%list_elem_of_singleton]%elem_of_app; [by apply J5|].
      destruct (J4 c) as (c0 & H0 & H1 & H2).
      { apply elem_of_app. right. apply running_contexts_lookup. by exists k. }
      exists c0. split; [done|]. exists fv, c1. split_and!; congruence.
  - destruct J as (J0 & J1 & J2 & J3 & J4 & J5).
    unfold v_lifecycle, v_alive in *. simpl.
    split_and!; try done.
    + by rewrite J3, !map_app, Hd.
    + intros c' H. apply J5. by rewrite <- Hd.
Qed.

Lemma move_created_length (v v' : View) :
  move v v' -> (length (v_created v) <= length (v_created v'))%nat.
Proof. destruct 1; simpl; rewrite ?length_app; simpl; lia. Qed.

Lemma moves_created_length (v v' : View) :
  rtc move v v' -> (length (v_created v) <= length (v_created v'))%nat.
Proof.
  induction 1 as [|x y z Hm _ IH]; [done|].
  pose proof (move_created_length _ _ Hm). lia.
Qed.

Lemma moves_lifecycle (v v' : View) :
  rtc move v v' -> v_lifecycle v ->
  N.of_nat (length (v_created v')) + 1 < 2 ^ 32 ->
  v_lifecycle v'.
Proof.
  induction 1 as [|x y z Hm Hr IH]; [done|].
  intros J Hb. apply IH; [|done].
  apply (move_lifecycle _ _ Hm J).
  pose proof (moves_created_length _ _ Hr). lia.
Qed.

Lemma NoDup_map_inj {A B} (f : A -> B) (l : list A) (x y : A) :
  NoDup (map f l) -> x ∈ l -> y ∈ l -> f x = f y -> x = y.
Proof.
  induction l as [|a l IH]; simpl; intros Hnd Hx Hy Hf.
  - by apply elem_of_nil in Hx.
  - apply NoDup_cons in Hnd as [Ha Hnd].
    apply elem_of_cons in Hx as [->|Hx]; apply elem_of_cons in Hy as [->|Hy].
    + done.
    + exfalso. apply Ha. rewrite Hf. change (f y ∈ f <$> l).
      by apply list_elem_of_fmap_2.
    + exfalso. apply Ha. rewrite <- Hf. change (f x ∈ f <$> l).
      by apply list_elem_of_fmap_2.
    + by apply IH.
Qed.

Lemma lifecycle_init (cap : N) (cfg : FuncConfig) :
  v_lifecycle (view (Server_init cap cfg) []).
Proof.
  unfold v_lifecycle, v_alive, running_contexts. simpl.
  rewrite map_to_list_empty. simpl. split_and!; try done.
  - intros c H. by apply elem_of_nil in H.
  - intros c H. by apply elem_of_nil in H.
Qed.

(** C6.  Every context is finalized exactly once over its life.  Take any
    run from the initial server, as long as the 32-bit call id counter has not
    wrapped.  The contexts created so far carry pairwise distinct calls, and
    each of them is in exactly one of two situations.  Either it is alive, in
    the pending queue or the running table, with the sink it was created
    with, so that [Finish] has not run on it, and no context with its call
    was destroyed.  Or exactly one context with its call was destroyed, that
    context is the created one after a single finalization by one of the
    four variants, so that [Finish] ran once, and nothing with its call is
    alive. *)
Theorem single_finalization (es : list Event) (cap : N) (cfg : FuncConfig) :
  let r := run' es (Server_init cap cfg) in
  N.of_nat (length (created r.2)) + 1 < 2 ^ 32 ->
  NoDup (map call_ (created r.2))
  /\ (forall c', c' ∈ destroyed r.2 ->
        exists c0, c0 ∈ created r.2 /\ finalized_once c0 c')
  /\ forall c0, c0 ∈ created r.2 ->
       (exists c, c ∈ alive r.1
          /\ call_ c = call_ c0 /\ sink_ c = sink_ c0
          /\ finish_calls c = finish_calls c0
          /\ forall c', c' ∈ destroyed r.2 -> call_ c' <> call_ c0)
       \/ (exists c', c' ∈ destroyed r.2
             /\ call_ c' = call_ c0
             /\ finalized_once c0 c'
             /\ finish_calls c' = S (finish_calls c0)
             /\ (forall c'', c'' ∈ destroyed r.2 ->
                   call_ c'' = call_ c0 -> c'' = c')
             /\ forall c, c ∈ alive r.1 -> call_ c <> call_ c0).
Proof.
  intros r Hb. unfold r in *. clear r.
  destruct (run' es (Server_init cap cfg)) as [s l] eqn:E. simpl in *.
  pose proof (run_moves _ _ _ _ _ (tables_of_view (Server_init cap cfg) []) E)
    as Hm.
  rewrite <- (view_extend (Server_init cap cfg) s [] l) in Hm. simpl in Hm.
  apply moves_lifecycle in Hm; [|apply lifecycle_init|done].
  pose proof (created_calls_NoDup _ Hm) as Hnd. simpl in Hnd.
  destruct Hm as (_ & _ & _ & J3 & J4 & J5). simpl in *.
  change (v_alive (view s l)) with (alive s) in *.
  assert (NoDup (map call_ (destroyed l ++ alive s))) as Hnd2 by (by rewrite <- J3).
  rewrite map_app in Hnd2. apply NoDup_app in Hnd2 as (Hnd_d & Hdisj & Hnd_a).
  assert (forall c0 c', c0 ∈ created l -> finalized_once c0 c' ->
            call_ c' = call_ c0 /\ finish_calls c' = S (finish_calls c0)) as Hfin.
  { intros c0 c' _ (fv & c1 & Hc & Hs & ->).
    destruct (finish_with_call fv c1) as [-> ->].
    by rewrite (finish_calls_sink _ _ Hs). }
  split; [done|]. split; [done|].
  intros c0 Hc0.
  assert (call_ c0 ∈ map call_ (destroyed l ++ alive s)) as Hin.
  { rewrite <- J3. change (call_ c0 ∈ call_ <$> created l).
    by apply list_elem_of_fmap_2. }
  rewrite map_app in Hin. apply elem_of_app in Hin as [Hin|Hin].
  - right. change (call_ c0 ∈ call_ <$> destroyed l) in Hin.
    apply list_elem_of_fmap in Hin as (c' & Hcall & Hc').
    destruct (J5 c' Hc') as (c0' & Hc0' & Hfo).
    destruct (Hfin c0' c' Hc0' Hfo) as [Hcc Hfc].
    assert (c0' = c0) as -> by (apply (NoDup_map_inj call_ (created l)); congruence).
    exists c'. split_and!; try done.
    + intros c'' Hc'' Hcall'.
      apply (NoDup_map_inj call_ (destroyed l)); congruence.
    + intros c Hc Hcall'. apply (Hdisj (call_ c0)).
      * rewrite Hcall. change (call_ c' ∈ call_ <$> destroyed l).
        by apply list_elem_of_fmap_2.
      * rewrite <- Hcall'. change (call_ c ∈ call_ <$> alive s).
        by apply list_elem_of_fmap_2.
  - left. change (call_ c0 ∈ call_ <$> alive s) in Hin.
    apply list_elem_of_fmap in Hin as (c & Hcall & Hc).
    destruct (J4 c Hc) as (c0' & Hc0' & Hcc & Hss).
    assert (c0' = c0) as -> by (apply (NoDup_map_inj call_ (created l)); congruence).
    exists c. split_and!; try done.
    + by apply finish_calls_sink.
    + intros c' Hc' Hcall'. apply (Hdisj (call_ c0)).
      * rewrite <- Hcall'. change (call_ c' ∈ call_ <$> destroyed l).
        by apply list_elem_of_fmap_2.
      * rewrite Hcall. change (call_ c ∈ call_ <$> alive s).
        by apply list_elem_of_fmap_2.
Qed.

End GatewayProperties.

(** * Examples *)

Lemma new_external_call_admission_witness :
  let s := Server_init 2 sample_config in
  let c := sample_context 1 "hi" in
  let final := NewExternalFuncCall 1024 sample_invalid_call env_no_worker c s in
  dispatched final.2 = [call_ c]
  /\ running_external_func_calls_ final.1
     = delete (call_ c) (running_external_func_calls_ s).
Proof.
  intros s c final.
  destruct (new_external_call_admission 1024 sample_invalid_call
              env_no_worker c s) as (_ & Hunder & _).
  destruct Hunder as (_ & _ & _ & _ & Hd & _ & Hfail & _).
  - right. vm_compute. reflexivity.
  - split; [exact Hd|]. apply Hfail. vm_compute. reflexivity.
Defined.

Lemma running_external_within_cap_witness :
  N.of_nat (size (running_external_func_calls_ (sample_run three_requests).1))
  <= 2.
Proof.
  destruct (running_external_within_cap 1024 4096 sample_invalid_call
              three_requests 3 (Server_init 2 sample_config))
    as (_ & H & _).
  - intros _. vm_compute. discriminate.
  - apply H. vm_compute. discriminate.
Defined.


Lemma complete_message_delivery_witness :
  let s := (sample_run three_requests).1 in
  exists c',
    EDestroyed c'
      ∈ (OnRecvMessage 1024 4096 sample_invalid_call env_ready complete_first s).2
    /\ finish_calls c' = 1%nat /\ response_body c' = "ok".
Proof.
  intros s.
  destruct (complete_message_delivery 1024 4096 sample_invalid_call env_ready
              complete_first s (sample_context 1 "a"))
    as (c' & Hin & _ & Hfc & _ & _ & Hinline & _).
  - reflexivity.
  - vm_compute. reflexivity.
  - left. reflexivity.
  - exists c'. split; [exact Hin|]. split; [exact Hfc|].
    destruct Hinline as (_ & Hb & _); [reflexivity|vm_compute; discriminate|].
    exact Hb.
Defined.

(** C5, the counterexample: an HTTP request of 1025 bytes for function 1
    when the input region cannot be created.  The client gets status 500
    with the body "Function call failed", not the dispatch-failure answer
    (status 404, body "Dispatch failed for func_id 1"). *)
Lemma shm_creation_failure_answers_500 :
  let r := OnExternalFuncCall 1024 sample_invalid_call env_no_shm 1
             (sample_http big_body) (Server_init 2 sample_config) in
  let c := sample_context 1 big_body in
  destroyed r.2 = [FinishWithError c]
  /\ response_status (FinishWithError c) = inl 500%Z
  /\ response_body (FinishWithError c) = "Function call failed" +:+ newline
  /\ response_status (FinishWithDispatchFailure c) = inl 404%Z
  /\ response_body (FinishWithDispatchFailure c)
     = "Dispatch failed for func_id 1" +:+ newline
  /\ FinishWithError c <> FinishWithDispatchFailure c.
Proof.
  intros r c. split_and!; [vm_compute; reflexivity..|].
  intros H. apply (f_equal response_status) in H. vm_compute in H.
  discriminate.
Qed.

Lemma shm_input_creation_failure_witness :
  let c := sample_context 1 big_body in
  let s := set_running {[call_ c := c]} (Server_init 2 sample_config) in
  dispatch_or_erase 1024 sample_invalid_call env_no_shm (call_ c) s
  = (set_inflight (-1)%Z (Server_init 2 sample_config),
     [EDispatchExternal (call_ c); EDestroyed (FinishWithError c)])
  /\ response_status (FinishWithError c) = inl 500%Z.
Proof.
  intros c s.
  destruct (shm_input_creation_failure 1024 sample_invalid_call env_no_shm
              (call_ c) s c) as (_ & H & _ & Hst & _).
  - vm_compute. reflexivity.
  - vm_compute. reflexivity.
  - reflexivity.
  - split; [|exact Hst]. rewrite H. vm_compute. reflexivity.
Defined.

(** A run with an admission beyond the cap, a completion, a failed dispatch
    and a discarded call. *)
Lemma single_finalization_witness :
  let es := three_requests
            ++ [RecvMessage env_ready complete_first;
                ExternalFuncCall env_ready 1 (sample_http "d");
                Discard (mkFuncCall 1 0 0 2);
                ProcessDiscarded env_no_worker] in
  let r := sample_run es in
  length (created r.2) = 4%nat
  /\ map finish_calls (destroyed r.2) = [1; 1; 1]%nat
  /\ NoDup (map call_ (created r.2))
  /\ forall c', c' ∈ destroyed r.2 ->
       exists c0, c0 ∈ created r.2 /\ finalized_once c0 c'.
Proof.
  intros es r.
  destruct (single_finalization 1024 4096 sample_invalid_call es 2
              sample_config) as (H1 & H2 & _).
  - vm_compute. reflexivity.
  - split; [vm_compute; reflexivity|]. split; [vm_compute; reflexivity|].
    split; [exact H1|exact H2].
Defined.


(** C8, the counterexample.  A request is running on a worker, the worker's
    connection closes and the worker manager discards the call: when
    [OnConnectionClose] returns the call is still in
    [discarded_func_calls_] and its context still in the running table, not
    finalized.  Likewise a call discarded before an HTTP connection closes is
    still in the list when the close handler returns. *)
Lemma connection_close_leaves_discarded_calls :
  let worker := mkConn MessageConnection 7 true false in
  let client := mkConn HttpConnection 3 false false in
  let r := sample_run [ExternalFuncCall env_ready 1 (sample_http "hi");
                       ConnectionClose env_worker_gone worker] in
  let r' := sample_run [ExternalFuncCall env_ready 1 (sample_http "hi");
                        Discard (mkFuncCall 1 0 0 1);
                        ConnectionClose env_ready client] in
  discarded_func_calls_ r.1 = [mkFuncCall 1 0 0 1]
  /\ discarded_func_calls_ r.1 <> []
  /\ running_external_func_calls_ r.1 !! mkFuncCall 1 0 0 1
     = Some (sample_context 1 "hi")
  /\ destroyed r.2 = []
  /\ discarded_func_calls_ r'.1 = [mkFuncCall 1 0 0 1]
  /\ destroyed r'.2 = [].
Proof.
  intros worker client r r'.
  split_and!; [vm_compute; reflexivity| |vm_compute; reflexivity..].
  vm_compute. discriminate.
Qed.

Lemma grpc_unknown_call_witness :
  let s := Server_init 2 sample_config in
  let g := sample_grpc "DoesNotExist" in
  OnNewGrpcCall 1024 sample_invalid_call env_ready g s
  = (s, [EGrpcFinished (grpc_Finish (set_grpc_status NOT_FOUND g))])
  /\ grpc_status (grpc_Finish (set_grpc_status NOT_FOUND g)) = NOT_FOUND.
Proof.
  intros s g.
  destruct (grpc_unknown_call 1024 sample_invalid_call env_ready g s)
    as (H1 & H2 & _).
  - right. exists (mkEntry "grpc:svc" 2 {["Do" := 3]}).
    split; vm_compute; reflexivity.
  - split; [exact H1|exact H2].
Defined.

(** * Further properties of the gateway *)

Section GatewayAccounting.

Variable MESSAGE_INLINE_DATA_SIZE : N.
Variable PIPE_BUF : N.
Variable kInvalidFuncCall : FuncCall.

Local Abbreviation Dispatch :=
  (DispatchExternalFuncCall MESSAGE_INLINE_DATA_SIZE kInvalidFuncCall).
Local Abbreviation dispatch_or_erase' :=
  (dispatch_or_erase MESSAGE_INLINE_DATA_SIZE kInvalidFuncCall).
Local Abbreviation dispatch_all' :=
  (dispatch_all MESSAGE_INLINE_DATA_SIZE kInvalidFuncCall).
Local Abbreviation NewExternalFuncCall' :=
  (NewExternalFuncCall MESSAGE_INLINE_DATA_SIZE kInvalidFuncCall).
Local Abbreviation ProcessDiscarded' :=
  (ProcessDiscardedFuncCallIfNecessary MESSAGE_INLINE_DATA_SIZE kInvalidFuncCall).
Local Abbreviation OnRecvMessage' :=
  (OnRecvMessage MESSAGE_INLINE_DATA_SIZE PIPE_BUF kInvalidFuncCall).
Local Abbreviation OnExternalFuncCall' :=
  (OnExternalFuncCall MESSAGE_INLINE_DATA_SIZE kInvalidFuncCall).
Local Abbreviation OnNewGrpcCall' :=
  (OnNewGrpcCall MESSAGE_INLINE_DATA_SIZE kInvalidFuncCall).
Local Abbreviation handle' :=
  (handle MESSAGE_INLINE_DATA_SIZE PIPE_BUF kInvalidFuncCall).
Local Abbreviation run' :=
  (run MESSAGE_INLINE_DATA_SIZE PIPE_BUF kInvalidFuncCall).

Lemma accounts_refl (s : Server) : accounts s [] s.
Proof. unfold accounts. simpl. split_and!; auto; lia. Qed.

Lemma accounts_trans (s s1 s2 : Server) (l1 l2 : list Effect) :
  accounts s l1 s1 -> accounts s1 l2 s2 -> accounts s (l1 ++ l2) s2.
Proof.
  intros (A1 & A2 & A3 & A4 & A5 & A6) (B1 & B2 & B3 & B4 & B5 & B6).
  unfold accounts. rewrite created_app, destroyed_app, !length_app.
  split_and!.
  - congruence.
  - set_solver.
  - intros f Hf. destruct (B3 f Hf) as [H|H]; [by apply A3|].
    right. by rewrite <- A1.
  - lia.
  - lia.
  - intros c Hc. destruct (B6 c Hc) as [H|H].
    + destruct (A6 c H) as [H'|H']; [by left|right; apply elem_of_app; by left].
    + right. apply elem_of_app. by right.
Qed.

Lemma accounts_books (s s' : Server) (l : list Effect) :
  books s' = books s -> created l = [] -> destroyed l = [] -> accounts s l s'.
Proof.
  unfold books, accounts. intros [= -> -> -> -> ->] -> ->. simpl.
  split_and!; auto; lia.
Qed.

Lemma GetOrCreateDispatcherLocked_accounts (f : N) (s s' : Server) (d : bool) :
  GetOrCreateDispatcherLocked f s = (s', d) -> accounts s [] s'.
Proof.
  unfold GetOrCreateDispatcherLocked.
  destruct (bool_decide _); [intros [= <- <-]; apply accounts_refl|].
  destruct (find_by_func_id _ f) as [e|] eqn:Hf;
    intros [= <- <-]; [|apply accounts_refl].
  unfold accounts. simpl. split_and!; auto; try lia.
  - apply union_subseteq_r.
  - intros g [->%elem_of_singleton|Hg]%elem_of_union; [right; by rewrite Hf|by left].
Qed.

Lemma destroy_accounts (c : ExternalFuncCallContext) (s : Server) :
  accounts s (destroy c s).2 (destroy c s).1.
Proof. unfold accounts, destroy. simpl. split_and!; auto; lia. Qed.

Lemma running_assign_accounts (c : ExternalFuncCallContext) (s s' : Server)
    (l : list Effect) :
  running_assign c s = (s', l) -> accounts s l s'.
Proof.
  unfold running_assign, destroy.
  destruct (running_external_func_calls_ s !! _); intros [= <- <-];
    unfold accounts; simpl; split_and!; auto; lia.
Qed.

Lemma running_erase_accounts (k : FuncCall) (s s' : Server) (l : list Effect) :
  running_erase k s = (s', l) -> accounts s l s'.
Proof.
  unfold running_erase, destroy.
  destruct (running_external_func_calls_ s !! _); intros [= <- <-];
    unfold accounts; simpl; split_and!; auto; lia.
Qed.

Lemma Dispatch_accounts (env : Env) (k : FuncCall) (s s' : Server) (ok : bool)
    (l : list Effect) :
  Dispatch env k s = (s', ok, l) -> accounts s l s'.
Proof.
  unfold DispatchExternalFuncCall.
  destruct (running_external_func_calls_ s !! k) as [c|];
    [|intros [= <- <- <-]; by apply accounts_books].
  destruct (if MESSAGE_INLINE_DATA_SIZE <? _ then _ else _) as [c1 created'].
  destruct (negb created'); [intros [= <- <- <-]; by apply accounts_books|].
  set (s1 := if MESSAGE_INLINE_DATA_SIZE <? _ then _ else s).
  assert (accounts s [] s1) as H1.
  { unfold s1. destruct (_ <? _); by apply accounts_books. }
  destruct (GetOrCreateDispatcherLocked _ s1) as [s2 d] eqn:Hd.
  apply GetOrCreateDispatcherLocked_accounts in Hd.
  pose proof (accounts_trans _ _ _ _ _ H1 Hd) as H2. simpl in H2.
  destruct d; simpl; intros [= <- <- <-];
    (eapply (accounts_trans s s2 _ []); [exact H2|]);
    by apply accounts_books.
Qed.

Lemma dispatch_or_erase_accounts (env : Env) (k : FuncCall) (s s' : Server)
    (l : list Effect) :
  dispatch_or_erase' env k s = (s', l) -> accounts s l s'.
Proof.
  unfold dispatch_or_erase.
  destruct (Dispatch env k s) as [[s1 ok] l1] eqn:HD.
  apply Dispatch_accounts in HD. destruct ok; [by intros [= <- <-]|].
  destruct (running_erase k s1) as [s2 l2] eqn:HE.
  apply running_erase_accounts in HE. intros [= <- <-].
  by eapply accounts_trans.
Qed.

Lemma dispatch_all_accounts (env : Env) (ks : list FuncCall) :
  forall (s s' : Server) (l : list Effect),
  dispatch_all' env ks s = (s', l) -> accounts s l s'.
Proof.
  induction ks as [|k ks IH]; intros s s' l; simpl.
  - intros [= <- <-]. apply accounts_refl.
  - destruct (dispatch_or_erase' env k s) as [s1 l1] eqn:E1.
    destruct (dispatch_all' env ks s1) as [s2 l2] eqn:E2.
    intros [= <- <-]. eapply accounts_trans; [by eapply dispatch_or_erase_accounts|].
    by apply IH.
Qed.

Lemma destroy_all_accounts (cs : list ExternalFuncCallContext) :
  forall (s s' : Server) (l : list Effect),
  destroy_all cs s = (s', l) -> accounts s l s'.
Proof.
  induction cs as [|c cs IH]; intros s s' l; simpl.
  - intros [= <- <-]. apply accounts_refl.
  - destruct (destroy_all cs _) as [s2 l2] eqn:E. intros [= <- <-].
    eapply (accounts_trans s _ s2 [EDestroyed c]); [apply (destroy_accounts c s)|].
    by apply IH.
Qed.

Lemma promote_front_accounts (p : ExternalFuncCallContext)
    (rest : list ExternalFuncCallContext) (s s' : Server) (l : list Effect) :
  pending_external_func_calls_ s = p :: rest ->
  promote_front p rest s = (s', l) -> accounts s l s'.
Proof.
  intros Hp. unfold promote_front.
  destruct (running_assign p (set_pending rest s)) as [s1 l1] eqn:E.
  apply running_assign_accounts in E as (A1 & A2 & A3 & A4 & A5 & A6).
  intros [= <- <-]. unfold accounts. simpl in *.
  change (created (EPendingPop p :: l1)) with (created l1).
  change (destroyed (EPendingPop p :: l1)) with (destroyed l1).
  split_and!; auto.
  intros c Hc. destruct (A6 c Hc) as [H|H]; [|by right].
  left. rewrite Hp. by apply elem_of_cons; right.
Qed.

Lemma promote_pending_accounts (queue : list ExternalFuncCallContext) :
  forall (s s' : Server) (ds : list FuncCall) (l : list Effect),
  pending_external_func_calls_ s = queue ->
  promote_pending queue s = (s', ds, l) -> accounts s l s'.
Proof.
  induction queue as [|p rest IH]; intros s s' ds l Hq; simpl.
  - intros [= <- <- <-]. apply accounts_refl.
  - destruct (cap_permits s); [|intros [= <- <- <-]; apply accounts_refl].
    destruct (promote_front p rest s) as [s1 l1] eqn:E1.
    destruct (promote_pending rest s1) as [[s2 ds2] l2] eqn:E2.
    intros [= <- <- <-].
    eapply accounts_trans; [by eapply promote_front_accounts|].
    eapply IH; [|exact E2]. by apply promote_front_spec in E1 as (_ & P & _).
Qed.

Lemma collect_discarded_books (calls : list FuncCall) :
  forall (s s' : Server) (ext ext' : list ExternalFuncCallContext)
         (int int' : list FuncCall),
  collect_discarded calls s ext int = (s', ext', int') -> books s' = books s.
Proof.
  induction calls as [|fc rest IH]; intros s s' ext ext' int int'; simpl.
  - by intros [= <- <- <-].
  - destruct (client_id fc =? 0); [|apply IH].
    destruct (running_external_func_calls_ s !! _); [|apply IH].
    intros H. by apply IH in H.
Qed.

Lemma ProcessDiscarded_locked_accounts (s s1 : Server)
    (ext : list ExternalFuncCallContext) (int ds : list FuncCall)
    (l1 : list Effect) :
  ProcessDiscardedFuncCallIfNecessary_locked s = (s1, ext, int, ds, l1) ->
  accounts s l1 s1.
Proof.
  unfold ProcessDiscardedFuncCallIfNecessary_locked.
  destruct (collect_discarded _ s [] []) as [[s0 ext0] int0] eqn:E1.
  destruct (promote_pending _ (set_discarded [] s0)) as [[s3 ds3] l3] eqn:E3.
  intros [= <- <- <- <- <-].
  apply collect_discarded_books in E1.
  apply promote_pending_accounts in E3; [|reflexivity].
  eapply (accounts_trans s (set_discarded [] s0) s3 []); [|exact E3].
  by apply accounts_books.
Qed.

Lemma ProcessDiscarded_accounts (env : Env) (s s' : Server) (l : list Effect) :
  ProcessDiscarded' env s = (s', l) -> accounts s l s'.
Proof.
  unfold ProcessDiscardedFuncCallIfNecessary.
  destruct (ProcessDiscardedFuncCallIfNecessary_locked s)
    as [[[[s1 ext] int] ds] l1] eqn:E1.
  destruct (destroy_all _ s1) as [s4 l2] eqn:E4.
  destruct (dispatch_all' env ds s4) as [s5 l4] eqn:E5.
  intros [= <- <-].
  apply ProcessDiscarded_locked_accounts in E1.
  apply destroy_all_accounts in E4. apply dispatch_all_accounts in E5.
  eapply accounts_trans; [exact E1|]. eapply accounts_trans; [exact E4|].
  eapply (accounts_trans s4 s4); [|exact E5].
  apply accounts_books; [done| |]; by induction int.
Qed.

Lemma OnRecvMessage_finished_locked_accounts (m : Message) (s s1 : Server)
    (ctx : option ExternalFuncCallContext) (for_dispatch : option FuncCall)
    (d : bool) (l : list Effect) :
  OnRecvMessage_finished_locked PIPE_BUF m s = (s1, ctx, for_dispatch, d, l) ->
  accounts s l s1.
Proof.
  unfold OnRecvMessage_finished_locked.
  set (s0 := if _ && _ then Tick output_use_shm s else s).
  assert (accounts s [] s0) as H0.
  { unfold s0. destruct (_ && _); by apply accounts_books. }
  destruct (if client_id _ =? 0 then _ else _) as [[[sa ca] fa] la] eqn:E.
  destruct (GetOrCreateDispatcherLocked _ sa) as [sb db] eqn:Ed.
  intros [= <- <- <- <- <-].
  apply GetOrCreateDispatcherLocked_accounts in Ed.
  assert (accounts s0 la sa) as Ha.
  { destruct (client_id _ =? 0); [|injection E as <- <- <- <-; apply accounts_refl].
    destruct (running_external_func_calls_ s0 !! _) as [c|];
      [|injection E as <- <- <- <-; apply accounts_refl].
    set (st := set_running _ s0) in E.
    assert (accounts s0 [] st) as Ht by by apply accounts_books.
    destruct (pending_external_func_calls_ st) as [|p rest] eqn:Hp;
      [by injection E as <- <- <- <-|].
    destruct (cap_permits st); [|by injection E as <- <- <- <-].
    destruct (promote_front p rest st) as [s2 l2] eqn:Ep.
    injection E as <- <- <- <-.
    apply promote_front_accounts in Ep; [|done].
    by apply (accounts_trans s0 st s2 []). }
  pose proof (accounts_trans _ _ _ _ _ H0 Ha) as H1. simpl in H1.
  pose proof (accounts_trans _ _ _ _ _ H1 Ed) as H2.
  by rewrite app_nil_r in H2.
Qed.

Lemma OnRecvMessage_accounts (env : Env) (m : Message) (s s' : Server)
    (l : list Effect) :
  OnRecvMessage' env m s = (s', l) -> accounts s l s'.
Proof.
  unfold OnRecvMessage.
  destruct (if IsInvokeFuncMessage m then _ else _) as [s1 l1] eqn:E.
  destruct (ProcessDiscarded' env s1) as [s2 l2] eqn:EP.
  intros [= <- <-]. apply ProcessDiscarded_accounts in EP.
  eapply accounts_trans; [|exact EP]. clear EP.
  destruct (IsInvokeFuncMessage m).
  { set (s0 := if (payload_size m <? 0)%Z then _ else s) in E.
    assert (accounts s [] s0) as H0.
    { unfold s0. destruct (_ <? _)%Z; by apply accounts_books. }
    destruct (GetOrCreateDispatcherLocked _ s0) as [sa da] eqn:Ed.
    apply GetOrCreateDispatcherLocked_accounts in Ed.
    pose proof (accounts_trans _ _ _ _ _ H0 Ed) as (A1 & A2 & A3 & A4 & A5 & A6).
    destruct da; [destruct (_ <? _)%Z|]; injection E as <- <-;
      unfold accounts; simpl in *; split_and!; auto. }
  destruct (_ || _); [|injection E as <- <-; apply accounts_refl].
  destruct (OnRecvMessage_finished_locked PIPE_BUF m s)
    as [[[[sa ctx] fd] d] la] eqn:EL.
  apply OnRecvMessage_finished_locked_accounts in EL.
  set (l2' := if d then _ else []) in E.
  set (ctx' := if client_id _ =? 0 then _ else ctx) in E.
  destruct (match fd with Some k => _ | None => (sa, []) end) as [sb lb] eqn:Eb.
  destruct (match ctx' with Some c => _ | None => (sb, []) end) as [sc lc] eqn:Ec.
  injection E as <- <-.
  assert (accounts sa lb sb) as Hb.
  { destruct fd; [by eapply dispatch_or_erase_accounts|].
    injection Eb as <- <-. apply accounts_refl. }
  assert (accounts sb lc sc) as Hc.
  { destruct ctx'; [|injection Ec as <- <-; apply accounts_refl].
    pose proof (destroy_accounts e sb) as H. by rewrite Ec in H. }
  eapply accounts_trans; [exact EL|].
  eapply (accounts_trans sa sa); [|by eapply accounts_trans].
  apply accounts_books; [done| |]; unfold l2'; by repeat case_match.
Qed.

Lemma admission_accounts (env : Env) (mk_call : N -> FuncCall) (k : ResponseSink)
    (s : Server) :
  let '(c, s1) := new_context mk_call k s in
  let r := prepend [ECreated c] (NewExternalFuncCall' env c s1) in
  accounts s r.2 r.1.
Proof.
  unfold new_context, prepend, NewExternalFuncCall, NewExternalFuncCall_locked.
  set (c := mkCtx _ k None None).
  set (s1 := Tick _ _).
  assert (accounts s [ECreated c] s1) as H1.
  { unfold accounts. simpl. split_and!; auto; lia. }
  destruct (cap_permits s1).
  - destruct (running_assign c s1) as [s2 l2] eqn:E2.
    destruct (dispatch_or_erase' env _ s2) as [s3 l3] eqn:E3. simpl.
    apply running_assign_accounts in E2. apply dispatch_or_erase_accounts in E3.
    eapply (accounts_trans s s1 s3 [ECreated c]); [exact H1|].
    by eapply accounts_trans.
  - simpl. destruct H1 as (A1 & A2 & A3 & A4 & A5 & A6).
    unfold accounts. simpl in *. split_and!; auto.
    intros c' [Hc|Hc%list_elem_of_singleton]%elem_of_app; [by left|].
    right. apply elem_of_cons. by left.
Qed.

Lemma OnExternalFuncCall_accounts (env : Env) (f : N)
    (http_context : HttpAsyncRequestContext) (s : Server) :
  accounts s (OnExternalFuncCall' env f http_context s).2
             (OnExternalFuncCall' env f http_context s).1.
Proof.
  unfold OnExternalFuncCall.
  pose proof (admission_accounts env (NewFuncCall f 0) (HttpSink http_context) s) as H.
  by destruct (new_context _ _ s) as [c s1].
Qed.

Lemma OnNewGrpcCall_accounts (env : Env) (call_context : GrpcCallContext)
    (s : Server) :
  accounts s (OnNewGrpcCall' env call_context s).2
             (OnNewGrpcCall' env call_context s).1.
Proof.
  unfold OnNewGrpcCall.
  destruct (find_by_func_name _ _) as [e|]; [|by apply accounts_books].
  destruct (grpc_method_ids e !! _) as [method|]; [|by apply accounts_books].
  pose proof (admission_accounts env
                (NewFuncCallWithMethod (entry_func_id e) method 0)
                (GrpcSink call_context) s) as H.
  by destruct (new_context _ _ s) as [c s1].
Qed.

Lemma foldl_DiscardFuncCall_books (calls : list FuncCall) :
  forall s : Server,
  books (foldl (fun s' func_call => DiscardFuncCall func_call s') s calls)
  = books s.
Proof.
  induction calls as [|fc calls IH]; intros s; simpl; [done|]. by rewrite IH.
Qed.

Lemma OnConnectionClose_books (env : Env) (connection : ConnectionBase)
    (s : Server) :
  books (OnConnectionClose env connection s) = books s.
Proof.
  unfold OnConnectionClose.
  destruct (conn_type connection); try done.
  destruct (handshake_done connection); [|done].
  unfold books. simpl.
  pose proof (foldl_DiscardFuncCall_books
                (worker_manager_discards env connection) s) as H.
  unfold books in H. by rewrite H.
Qed.

Lemma handle_accounts (e : Event) (s : Server) :
  accounts s (handle' e s).2 (handle' e s).1.
Proof.
  destruct e as [env f h|env g|env m|env|fc|f|env c]; simpl.
  - apply OnExternalFuncCall_accounts.
  - apply OnNewGrpcCall_accounts.
  - destruct (OnRecvMessage' env m s) as [s' l] eqn:E.
    by apply OnRecvMessage_accounts in E.
  - destruct (ProcessDiscarded' env s) as [s' l] eqn:E.
    by apply ProcessDiscarded_accounts in E.
  - by apply accounts_books.
  - unfold GetOrCreateDispatcher.
    destruct (GetOrCreateDispatcherLocked f s) as [s' d] eqn:E.
    by apply GetOrCreateDispatcherLocked_accounts in E.
  - apply accounts_books; [apply OnConnectionClose_books|done|done].
Qed.

Lemma run_accounts (es : list Event) :
  forall s : Server, accounts s (run' es s).2 (run' es s).1.
Proof.
  induction es as [|e es IH]; intros s; simpl; [apply accounts_refl|].
  pose proof (handle_accounts e s) as H.
  destruct (handle' e s) as [s1 l1]. specialize (IH s1).
  destruct (run' es s1) as [s2 l2]. simpl in *. by eapply accounts_trans.
Qed.

(** Counting through the moves: the contexts created are as many as those
    destroyed, those waiting and those running together. *)
Lemma move_count (v v' : View) :
  move v v' ->
  length (v_created v)
  = (length (v_destroyed v) + length (v_pending v) + size (v_running v))%nat ->
  length (v_created v')
  = (length (v_destroyed v') + length (v_pending v') + size (v_running v'))%nat.
Proof.
  destruct 1 as [v c _ _|v c _ _|v p rest Hq _|v k c c1 Hk _ _|v k c c1 fv Hk _ _|v d Hd];
    simpl; intros H.
  - unfold overwritten. rewrite map_size_insert, !length_app.
    destruct (v_running v !! call_ c); simpl; lia.
  - rewrite !length_app. simpl. lia.
  - rewrite Hq in H. simpl in H. unfold overwritten.
    rewrite map_size_insert, !length_app.
    destruct (v_running v !! call_ p); simpl; lia.
  - by rewrite map_size_insert_Some by (by rewrite Hk).
  - rewrite length_app. simpl.
    rewrite <- (insert_delete_id (v_running v) k c Hk) in H.
    rewrite map_size_insert_None in H by apply lookup_delete_eq. lia.
  - by rewrite (Permutation_length Hd).
Qed.

Lemma moves_count (v v' : View) :
  rtc move v v' ->
  length (v_created v)
  = (length (v_destroyed v) + length (v_pending v) + size (v_running v))%nat ->
  length (v_created v')
  = (length (v_destroyed v') + length (v_pending v') + size (v_running v'))%nat.
Proof.
  induction 1 as [|v v1 v2 Hm _ IH]; [done|].
  intros H. apply IH. by apply (move_count v).
Qed.

Lemma run_view (es : list Event) (cap : N) (cfg : FuncConfig) (s : Server)
    (l : list Effect) :
  run' es (Server_init cap cfg) = (s, l) ->
  rtc move (view (Server_init cap cfg) []) (view s l).
Proof.
  intros E.
  pose proof (run_moves MESSAGE_INLINE_DATA_SIZE PIPE_BUF kInvalidFuncCall
                _ _ _ _ _ (tables_of_view (Server_init cap cfg) []) E) as Hm.
  by rewrite <- (view_extend (Server_init cap cfg) s [] l) in Hm.
Qed.

(** X1.  The counter [inflight_external_requests_], which the constructor
    and the destructor of [ExternalFuncCallContext] move, counts the
    contexts the gateway owns: after every run from the initial state it is
    the length of the pending queue plus the size of the running table, and
    the counter of incoming requests is the number of contexts created. *)
Theorem inflight_counts_owned_contexts (es : list Event) (cap : N)
    (cfg : FuncConfig) :
  let r := run' es (Server_init cap cfg) in
  inflight_external_requests_ r.1
  = Z.of_nat (length (pending_external_func_calls_ r.1)
              + size (running_external_func_calls_ r.1))
  /\ incoming_external_requests_stat_ r.1 = N.of_nat (length (created r.2))
  /\ length (created r.2)
     = (length (destroyed r.2) + length (pending_external_func_calls_ r.1)
        + size (running_external_func_calls_ r.1))%nat.
Proof.
  intros r. unfold r. clear r.
  pose proof (run_accounts es (Server_init cap cfg)) as (_ & _ & _ & I & C & _).
  destruct (run' es (Server_init cap cfg)) as [s l] eqn:E. simpl in *.
  apply run_view in E. apply moves_count in E; [|done]. simpl in E.
  split_and!; [lia|lia|done].
Qed.

(** X2.  Dispatchers exist only for configured functions.  After every run
    from the initial state the configuration is the one loaded and every
    dispatcher belongs to a function of it; [GetOrCreateDispatcher] then
    returns a dispatcher exactly for the function ids of the configuration,
    and the function id has a dispatcher afterwards exactly in that case. *)
Theorem dispatchers_follow_config (es : list Event) (cap : N)
    (cfg : FuncConfig) (f : N) :
  let r := run' es (Server_init cap cfg) in
  func_config_ r.1 = cfg
  /\ dispatchers_ok r.1
  /\ ((GetOrCreateDispatcher f r.1).2 = true
      <-> is_Some (find_by_func_id cfg f))
  /\ (f ∈ dispatchers_ (GetOrCreateDispatcher f r.1).1
      <-> is_Some (find_by_func_id cfg f)).
Proof.
  intros r. unfold r. clear r.
  pose proof (run_accounts es (Server_init cap cfg)) as (Hc & _ & Hd & _).
  destruct (run' es (Server_init cap cfg)) as [s l]. simpl in *.
  assert (dispatchers_ok s) as Hok.
  { intros g Hg. rewrite Hc. destruct (Hd g Hg) as [H|H]; [|done].
    by apply elem_of_empty in H. }
  split; [done|]. split; [done|].
  unfold GetOrCreateDispatcher, GetOrCreateDispatcherLocked.
  destruct (bool_decide (f ∈ dispatchers_ s)) eqn:Hin.
  - apply bool_decide_eq_true in Hin. pose proof (Hok f Hin) as H.
    rewrite Hc in H. simpl. by split.
  - apply bool_decide_eq_false in Hin. rewrite Hc.
    destruct (find_by_func_id cfg f) as [e|]; simpl.
    + split; [done|]. split; [done|]. intros _. set_solver.
    + split; [split; [done|by intros []]|]. split; [done|by intros []].
Qed.

(** With a cap of zero [cap_permits] always holds, so nothing ever waits. *)
Lemma move_unlimited (v v' : View) :
  move v v' ->
  v_cap v = 0 /\ v_pending v = [] /\ v_pushed v = [] /\ v_popped v = [] ->
  v_cap v' = 0 /\ v_pending v' = [] /\ v_pushed v' = [] /\ v_popped v' = [].
Proof.
  destruct 1 as [v c _ _|v c Hp _|v p rest Hq _|v k c c1 _ _ _|v k c c1 fv _ _ _|v d _];
    simpl; intros (H0 & H1 & H2 & H3); try done.
  - unfold v_permits in Hp. by rewrite H0 in Hp.
  - by rewrite H1 in Hq.
Qed.

(** X4.  With [max_running_external_requests] left at zero the gateway
    never queues: after every run from the initial state the pending queue
    is empty, and nothing was ever pushed onto it or popped from it. *)
Theorem unlimited_cap_never_queues (es : list Event) (cfg : FuncConfig) :
  let r := run' es (Server_init 0 cfg) in
  pending_external_func_calls_ r.1 = [] /\ pushed r.2 = [] /\ popped r.2 = [].
Proof.
  intros r. unfold r. clear r.
  destruct (run' es (Server_init 0 cfg)) as [s l] eqn:E. simpl.
  apply run_view in E.
  assert (forall v v', rtc move v v' ->
            v_cap v = 0 /\ v_pending v = [] /\ v_pushed v = [] /\ v_popped v = [] ->
            v_cap v' = 0 /\ v_pending v' = [] /\ v_pushed v' = []
            /\ v_popped v' = []) as H.
  { induction 1 as [|v v1 v2 Hm _ IH]; [done|].
    intros Hv. apply IH. by apply (move_unlimited v). }
  by destruct (H _ _ E) as (_ & ? & ? & ?).
Qed.

(** ** The contexts the server owns are well formed *)

Local Abbreviation contexts_ok' := (contexts_ok MESSAGE_INLINE_DATA_SIZE).
Local Abbreviation region_ok' := (input_region_ok MESSAGE_INLINE_DATA_SIZE).

Lemma FinishWithDispatchFailure_regions (c : ExternalFuncCallContext) :
  call_ (FinishWithDispatchFailure c) = call_ c
  /\ input_region_ (FinishWithDispatchFailure c) = input_region_ c
  /\ output_region_ (FinishWithDispatchFailure c) = output_region_ c
  /\ GetInput (FinishWithDispatchFailure c) = GetInput c.
Proof. by destruct c as [call [h|g] i o]. Qed.

Lemma FinishWithError_regions (c : ExternalFuncCallContext) :
  call_ (FinishWithError c) = call_ c
  /\ input_region_ (FinishWithError c) = input_region_ c
  /\ output_region_ (FinishWithError c) = output_region_ c
  /\ GetInput (FinishWithError c) = GetInput c.
Proof. by destruct c as [call [h|g] i o]. Qed.

Lemma contexts_ok_sub (s s' : Server) :
  contexts_ok' s ->
  (forall k c, running_external_func_calls_ s' !! k = Some c ->
               running_external_func_calls_ s !! k = Some c) ->
  (forall c, c ∈ pending_external_func_calls_ s' ->
             c ∈ pending_external_func_calls_ s) ->
  contexts_ok' s'.
Proof. intros [Hp Hr] R P. split; [intros c Hc|intros k c Hk]; auto. Qed.

Lemma contexts_ok_tables (s s' : Server) :
  contexts_ok' s ->
  running_external_func_calls_ s' = running_external_func_calls_ s ->
  pending_external_func_calls_ s' = pending_external_func_calls_ s ->
  contexts_ok' s'.
Proof. intros H R P. apply (contexts_ok_sub s); [done| |]; by rewrite ?R, ?P. Qed.

Lemma contexts_ok_insert (s s' : Server) (k : FuncCall)
    (c : ExternalFuncCallContext) :
  contexts_ok' s ->
  call_ c = k -> client_id k = 0 -> output_region_ c = None -> region_ok' c ->
  running_external_func_calls_ s' = <[k := c]> (running_external_func_calls_ s) ->
  (forall c', c' ∈ pending_external_func_calls_ s' ->
              c' ∈ pending_external_func_calls_ s) ->
  contexts_ok' s'.
Proof.
  intros [Hp Hr] H1 H2 H3 H4 R P. split; [by auto|].
  intros k' c' Hk'. rewrite R in Hk'.
  destruct (decide (k = k')) as [<-|Hne].
  - rewrite lookup_insert_eq in Hk'. by injection Hk' as <-.
  - rewrite lookup_insert_ne in Hk' by done. by apply Hr.
Qed.

Lemma contexts_ok_delete (s s' : Server) (k : FuncCall) :
  contexts_ok' s ->
  running_external_func_calls_ s' = delete k (running_external_func_calls_ s) ->
  pending_external_func_calls_ s' = pending_external_func_calls_ s ->
  contexts_ok' s'.
Proof.
  intros H R P. apply (contexts_ok_sub s); [done| |by rewrite P].
  intros k' c'. rewrite R. by intros [_ ?]%lookup_delete_Some.
Qed.

Lemma running_assign_ok (c : ExternalFuncCallContext) (s s' : Server)
    (l : list Effect) :
  contexts_ok' s -> client_id (call_ c) = 0 -> no_regions c ->
  running_assign c s = (s', l) -> contexts_ok' s'.
Proof.
  intros H Hc [Hi Ho] (R & P & _)%running_assign_spec.
  apply (contexts_ok_insert s s' (call_ c) c); try done.
  - by left.
  - by rewrite P.
Qed.

Lemma running_erase_ok (k : FuncCall) (s s' : Server) (l : list Effect) :
  contexts_ok' s -> running_erase k s = (s', l) -> contexts_ok' s'.
Proof.
  intros H. unfold running_erase, destroy.
  destruct (running_external_func_calls_ s !! k); intros [= <- <-]; [|done].
  by apply (contexts_ok_delete s _ k).
Qed.

Lemma GetOrCreateDispatcherLocked_ok (f : N) (s s' : Server) (d : bool) :
  contexts_ok' s -> GetOrCreateDispatcherLocked f s = (s', d) -> contexts_ok' s'.
Proof.
  intros H ((_ & _ & R & P) & _)%GetOrCreateDispatcherLocked_tables.
  simpl in *. by apply (contexts_ok_tables s).
Qed.

Lemma store_ok (s s2 : Server) (k : FuncCall) (c c' : ExternalFuncCallContext) :
  contexts_ok' s -> running_external_func_calls_ s !! k = Some c ->
  call_ c' = call_ c -> output_region_ c' = output_region_ c -> region_ok' c' ->
  running_external_func_calls_ s2 = running_external_func_calls_ s ->
  pending_external_func_calls_ s2 = pending_external_func_calls_ s ->
  contexts_ok' (set_running (<[k := c']> (running_external_func_calls_ s2)) s2).
Proof.
  intros H Hk E1 E2 E3 R P.
  destruct (proj2 H k c Hk) as (Hc & Hcl & Ho & Hi).
  apply (contexts_ok_insert s _ k c'); simpl; congruence.
Qed.

Lemma Dispatch_ok (env : Env) (k : FuncCall) (s s' : Server) (ok : bool)
    (l : list Effect) :
  contexts_ok' s -> Dispatch env k s = (s', ok, l) -> contexts_ok' s'.
Proof.
  intros H. unfold DispatchExternalFuncCall.
  destruct (running_external_func_calls_ s !! k) as [c|] eqn:Hk;
    [|by intros [= <- <- <-]].
  destruct (proj2 H k c Hk) as (Hc & Hcl & Ho & Hi).
  destruct (FinishWithError_regions c) as (E1 & E2 & E3 & E4).
  unfold CreateShmInput.
  destruct (MESSAGE_INLINE_DATA_SIZE <? _) eqn:Hlarge;
    [destruct (ShmCreate_input env (call_ c)) eqn:Hcreate|]; simpl.
  - apply N.ltb_lt in Hlarge.
    set (c1 := mkCtx (call_ c) (sink_ c)
                 (Some (EnableRemoveOnDestruction (mkShm (GetInput c) false)))
                 (output_region_ c)).
    assert (region_ok' c1) as Hc1 by (by right).
    destruct (FinishWithDispatchFailure_regions c1) as (F1 & F2 & F3 & F4).
    assert (region_ok' (FinishWithDispatchFailure c1)) as Hc2.
    { right. by rewrite F2, F4. }
    destruct (GetOrCreateDispatcherLocked _ _) as [s2 d] eqn:Hd.
    apply GetOrCreateDispatcherLocked_tables in Hd as ((_ & _ & R & P) & _).
    simpl in *.
    destruct d; simpl; [destruct (OnNewFuncCall env (call_ c))|];
      intros [= <- <- <-]; by eapply (store_ok s s2 k c).
  - intros [= <- <- <-].
    eapply (store_ok s s k c); try done.
    unfold input_region_ok. by rewrite E2, E4.
  - destruct (FinishWithDispatchFailure_regions c) as (F1 & F2 & F3 & F4).
    assert (region_ok' (FinishWithDispatchFailure c)) as Hc2.
    { unfold input_region_ok. by rewrite F2, F4. }
    destruct (GetOrCreateDispatcherLocked _ _) as [s2 d] eqn:Hd.
    apply GetOrCreateDispatcherLocked_tables in Hd as ((_ & _ & R & P) & _).
    simpl in *.
    destruct d; simpl; [destruct (OnNewFuncCall env (call_ c))|];
      intros [= <- <- <-]; by eapply (store_ok s s2 k c).
Qed.

Lemma dispatch_or_erase_ok (env : Env) (k : FuncCall) (s s' : Server)
    (l : list Effect) :
  contexts_ok' s -> dispatch_or_erase' env k s = (s', l) -> contexts_ok' s'.
Proof.
  intros H. unfold dispatch_or_erase.
  destruct (Dispatch env k s) as [[s1 ok] l1] eqn:HD.
  apply Dispatch_ok in HD; [|done]. destruct ok; [by intros [= <- <-]|].
  destruct (running_erase k s1) as [s2 l2] eqn:HE.
  apply running_erase_ok in HE; [|done]. by intros [= <- <-].
Qed.

Lemma dispatch_all_ok (env : Env) (ks : list FuncCall) :
  forall (s s' : Server) (l : list Effect),
  contexts_ok' s -> dispatch_all' env ks s = (s', l) -> contexts_ok' s'.
Proof.
  induction ks as [|k ks IH]; intros s s' l H; simpl.
  - by intros [= <- <-].
  - destruct (dispatch_or_erase' env k s) as [s1 l1] eqn:E1.
    destruct (dispatch_all' env ks s1) as [s2 l2] eqn:E2.
    intros [= <- <-]. eapply IH; [|exact E2]. by eapply dispatch_or_erase_ok.
Qed.

Lemma destroy_all_ok (cs : list ExternalFuncCallContext) :
  forall (s s' : Server) (l : list Effect),
  contexts_ok' s -> destroy_all cs s = (s', l) -> contexts_ok' s'.
Proof.
  induction cs as [|c cs IH]; intros s s' l H; simpl.
  - by intros [= <- <-].
  - destruct (destroy_all cs _) as [s2 l2] eqn:E. intros [= <- <-].
    eapply IH; [|exact E]. by apply (contexts_ok_tables s).
Qed.

Lemma promote_front_ok (p : ExternalFuncCallContext)
    (rest : list ExternalFuncCallContext) (s s' : Server) (l : list Effect) :
  contexts_ok' s -> pending_external_func_calls_ s = p :: rest ->
  promote_front p rest s = (s', l) -> contexts_ok' s'.
Proof.
  intros H Hq (R & P & _)%promote_front_spec.
  destruct (proj1 H p) as [Hc [Hi Ho]]; [rewrite Hq; by left|].
  apply (contexts_ok_insert s s' (call_ p) p); try done.
  - by left.
  - intros c. rewrite P, Hq. by right.
Qed.

Lemma promote_pending_ok (queue : list ExternalFuncCallContext) :
  forall (s s' : Server) (ds : list FuncCall) (l : list Effect),
  contexts_ok' s -> pending_external_func_calls_ s = queue ->
  promote_pending queue s = (s', ds, l) -> contexts_ok' s'.
Proof.
  induction queue as [|p rest IH]; intros s s' ds l H Hq; simpl.
  - by intros [= <- <- <-].
  - destruct (cap_permits s); [|by intros [= <- <- <-]].
    destruct (promote_front p rest s) as [s1 l1] eqn:E1.
    destruct (promote_pending rest s1) as [[s2 ds2] l2] eqn:E2.
    intros [= <- <- <-].
    eapply IH; [|by apply promote_front_spec in E1 as (_ & P & _)|exact E2].
    by eapply promote_front_ok.
Qed.

Lemma collect_discarded_ok (calls : list FuncCall) :
  forall (s s' : Server) (ext ext' : list ExternalFuncCallContext)
         (int int' : list FuncCall),
  contexts_ok' s -> collect_discarded calls s ext int = (s', ext', int') ->
  contexts_ok' s'.
Proof.
  induction calls as [|fc rest IH]; intros s s' ext ext' int int' H; simpl.
  - by intros [= <- <- <-].
  - destruct (client_id fc =? 0); [|by apply IH].
    destruct (running_external_func_calls_ s !! _); [|by apply IH].
    apply IH. by apply (contexts_ok_delete s _ (full_call_id fc)).
Qed.

Lemma ProcessDiscarded_ok (env : Env) (s s' : Server) (l : list Effect) :
  contexts_ok' s -> ProcessDiscarded' env s = (s', l) -> contexts_ok' s'.
Proof.
  intros H.
  unfold ProcessDiscardedFuncCallIfNecessary,
    ProcessDiscardedFuncCallIfNecessary_locked.
  destruct (collect_discarded _ s [] []) as [[s0 ext0] int0] eqn:E1.
  destruct (promote_pending _ (set_discarded [] s0)) as [[s3 ds3] l3] eqn:E3.
  destruct (destroy_all _ s3) as [s4 l2] eqn:E4.
  destruct (dispatch_all' env ds3 s4) as [s5 l4] eqn:E5.
  intros [= <- <-].
  apply collect_discarded_ok in E1; [|done].
  apply promote_pending_ok in E3; [|by apply (contexts_ok_tables s0)|done].
  apply destroy_all_ok in E4; [|done].
  by apply dispatch_all_ok in E5.
Qed.

Lemma OnRecvMessage_finished_locked_ok (m : Message) (s s1 : Server)
    (ctx : option ExternalFuncCallContext) (for_dispatch : option FuncCall)
    (d : bool) (l : list Effect) :
  contexts_ok' s ->
  OnRecvMessage_finished_locked PIPE_BUF m s = (s1, ctx, for_dispatch, d, l) ->
  contexts_ok' s1.
Proof.
  intros H. unfold OnRecvMessage_finished_locked.
  set (s0 := if _ && _ then Tick output_use_shm s else s).
  assert (contexts_ok' s0) as H0.
  { unfold s0. destruct (_ && _); [|done]. by apply (contexts_ok_tables s). }
  destruct (if client_id _ =? 0 then _ else _) as [[[sa ca] fa] la] eqn:E.
  destruct (GetOrCreateDispatcherLocked _ sa) as [sb db] eqn:Ed.
  intros [= <- <- <- <- <-].
  eapply GetOrCreateDispatcherLocked_ok; [|exact Ed].
  destruct (client_id _ =? 0); [|by injection E as <- <- <- <-].
  destruct (running_external_func_calls_ s0 !! _) as [c|];
    [|by injection E as <- <- <- <-].
  set (st := set_running _ s0) in E.
  assert (contexts_ok' st) as Ht.
  { by apply (contexts_ok_delete s0 _ (full_call_id (GetFuncCallFromMessage m))). }
  destruct (pending_external_func_calls_ st) as [|p rest] eqn:Hp;
    [by injection E as <- <- <- <-|].
  destruct (cap_permits st); [|by injection E as <- <- <- <-].
  destruct (promote_front p rest st) as [s2 l2] eqn:Ep.
  injection E as <- <- <- <-. by eapply promote_front_ok.
Qed.

Lemma OnRecvMessage_ok (env : Env) (m : Message) (s s' : Server)
    (l : list Effect) :
  contexts_ok' s -> OnRecvMessage' env m s = (s', l) -> contexts_ok' s'.
Proof.
  intros H. unfold OnRecvMessage.
  destruct (if IsInvokeFuncMessage m then _ else _) as [s1 l1] eqn:E.
  destruct (ProcessDiscarded' env s1) as [s2 l2] eqn:EP.
  intros [= <- <-]. eapply ProcessDiscarded_ok; [|exact EP]. clear EP.
  destruct (IsInvokeFuncMessage m).
  { set (s0 := if (payload_size m <? 0)%Z then _ else s) in E.
    assert (contexts_ok' s0) as H0.
    { unfold s0. destruct (_ <? _)%Z; [|done]. by apply (contexts_ok_tables s). }
    destruct (GetOrCreateDispatcherLocked _ s0) as [sa da] eqn:Ed.
    apply GetOrCreateDispatcherLocked_ok in Ed; [|done].
    destruct da; [destruct (_ <? _)%Z|]; by injection E as <- <-. }
  destruct (_ || _); [|by injection E as <- <-].
  destruct (OnRecvMessage_finished_locked PIPE_BUF m s)
    as [[[[sa ctx] fd] d] la] eqn:EL.
  apply OnRecvMessage_finished_locked_ok in EL; [|done].
  set (ctx' := if client_id _ =? 0 then _ else ctx) in E.
  destruct (match fd with Some k => _ | None => (sa, []) end) as [sb lb] eqn:Eb.
  destruct (match ctx' with Some c => _ | None => (sb, []) end) as [sc lc] eqn:Ec.
  injection E as <- <-.
  assert (contexts_ok' sb) as Hb.
  { destruct fd; [by eapply dispatch_or_erase_ok|]. by injection Eb as <- <-. }
  destruct ctx'; [|by injection Ec as <- <-].
  unfold destroy in Ec. injection Ec as <- <-. by apply (contexts_ok_tables sb).
Qed.

Lemma admission_ok (env : Env) (mk_call : N -> FuncCall) (k : ResponseSink)
    (s : Server) :
  contexts_ok' s -> (forall i, client_id (mk_call i) = 0) ->
  let '(c, s1) := new_context mk_call k s in
  contexts_ok' (prepend [ECreated c] (NewExternalFuncCall' env c s1)).1.
Proof.
  intros H Hmk.
  unfold new_context, prepend, NewExternalFuncCall, NewExternalFuncCall_locked.
  set (c := mkCtx _ k None None).
  set (s1 := Tick _ _).
  assert (contexts_ok' s1) as H1 by (by apply (contexts_ok_tables s)).
  assert (client_id (call_ c) = 0) as Hc by apply Hmk.
  destruct (cap_permits s1).
  - destruct (running_assign c s1) as [s2 l2] eqn:E2.
    destruct (dispatch_or_erase' env _ s2) as [s3 l3] eqn:E3. simpl.
    apply running_assign_ok in E2; try done.
    by eapply dispatch_or_erase_ok.
  - simpl. split; [|apply H1].
    intros c' [Hc'|Hc'%list_elem_of_singleton]%elem_of_app; [by apply H1|].
    by subst c'.
Qed.

Lemma handle_ok (e : Event) (s : Server) :
  contexts_ok' s -> contexts_ok' (handle' e s).1.
Proof.
  intros H. destruct e as [env f h|env g|env m|env|fc|f|env c]; cbn [handle fst].
  - unfold OnExternalFuncCall.
    pose proof (admission_ok env (NewFuncCall f 0) (HttpSink h) s H) as A.
    destruct (new_context _ _ s) as [c s1]. by apply A.
  - unfold OnNewGrpcCall.
    destruct (find_by_func_name _ _) as [e|]; [|done].
    destruct (grpc_method_ids e !! _) as [method|]; [|done].
    pose proof (admission_ok env
                  (NewFuncCallWithMethod (entry_func_id e) method 0)
                  (GrpcSink g) s H) as A.
    destruct (new_context _ _ s) as [c s1]. by apply A.
  - destruct (OnRecvMessage' env m s) as [s' l] eqn:E.
    by apply OnRecvMessage_ok in E.
  - destruct (ProcessDiscarded' env s) as [s' l] eqn:E.
    by apply ProcessDiscarded_ok in E.
  - by apply (contexts_ok_tables s).
  - unfold GetOrCreateDispatcher.
    destruct (GetOrCreateDispatcherLocked f s) as [s' d] eqn:E.
    by apply GetOrCreateDispatcherLocked_ok in E.
  - destruct (OnConnectionClose_spec env c s) as ((_ & _ & R & P) & _).
    simpl in *. by apply (contexts_ok_tables s).
Qed.

Lemma run_ok (es : list Event) :
  forall s : Server, contexts_ok' s -> contexts_ok' (run' es s).1.
Proof.
  induction es as [|e es IH]; intros s H; simpl; [done|].
  pose proof (handle_ok e s H) as H1.
  destruct (handle' e s) as [s1 l1]. specialize (IH s1 H1).
  by destruct (run' es s1) as [s2 l2].
Qed.

Lemma contexts_ok_init (cap : N) (cfg : FuncConfig) :
  contexts_ok' (Server_init cap cfg).
Proof.
  split; [intros c Hc; by apply elem_of_nil in Hc|].
  intros k c Hk. simpl in Hk. by rewrite lookup_empty in Hk.
Qed.

(** X3.  Shared memory is attached to a context only when it is dispatched
    and only for an input longer than [MESSAGE_INLINE_DATA_SIZE].  After
    every run from the initial state a waiting context has no region at
    all; a running context has no output region, and if it has an input
    region then its input is longer than the limit, the region holds exactly
    that input, and the region is removed with the context. *)
Theorem input_regions_only_for_large_inputs (es : list Event) (cap : N)
    (cfg : FuncConfig) :
  let r := run' es (Server_init cap cfg) in
  (forall c, c ∈ pending_external_func_calls_ r.1 -> no_regions c)
  /\ (forall k c, running_external_func_calls_ r.1 !! k = Some c ->
        output_region_ c = None
        /\ input_region_ok MESSAGE_INLINE_DATA_SIZE c).
Proof.
  intros r. unfold r. clear r.
  destruct (run_ok es _ (contexts_ok_init cap cfg)) as [Hp Hr].
  split; [intros c Hc; by apply Hp|].
  intros k c Hk. by destruct (Hr k c Hk) as (_ & _ & ? & ?).
Qed.

(** X5.  The gateway owns contexts of external calls only, each under its
    own key.  After every run from the initial state every waiting and
    every running context has [client_id] zero, and the running table maps
    a [full_call_id] to a context of exactly that call. *)
Theorem owned_contexts_are_external_calls (es : list Event) (cap : N)
    (cfg : FuncConfig) :
  let r := run' es (Server_init cap cfg) in
  (forall c, c ∈ pending_external_func_calls_ r.1 -> client_id (call_ c) = 0)
  /\ (forall k c, running_external_func_calls_ r.1 !! k = Some c ->
        call_ c = k /\ client_id k = 0).
Proof.
  intros r. unfold r. clear r.
  destruct (run_ok es _ (contexts_ok_init cap cfg)) as [Hp Hr].
  split; [intros c Hc; by apply Hp|].
  intros k c Hk. by destruct (Hr k c Hk) as (? & ? & _).
Qed.

(** X6.  The drain is a no-op when there is nothing to do: with no
    discarded call recorded, and with the pending queue empty or the
    running table at its cap, [ProcessDiscardedFuncCallIfNecessary] leaves
    the server as it is and has no effect. *)
Theorem drain_without_work (env : Env) (s : Server) :
  discarded_func_calls_ s = [] ->
  pending_external_func_calls_ s = [] \/ cap_permits s = false ->
  ProcessDiscarded' env s = (s, []).
Proof.
  intros Hd Hq.
  unfold ProcessDiscardedFuncCallIfNecessary,
    ProcessDiscardedFuncCallIfNecessary_locked.
  rewrite Hd. cbn [collect_discarded].
  assert (set_discarded [] s = s) as -> by (destruct s; simpl in *; by subst).
  assert (promote_pending (pending_external_func_calls_ s) s = (s, [], []))
    as ->.
  { destruct (pending_external_func_calls_ s) as [|p rest]; [done|].
    destruct Hq as [Hq|Hq]; [done|]. simpl. by rewrite Hq. }
  reflexivity.
Qed.

End GatewayAccounting.

Lemma drain_without_work_witness :
  ProcessDiscardedFuncCallIfNecessary 1024 sample_invalid_call env_ready
    (sample_run three_requests).1
  = ((sample_run three_requests).1, []).
Proof.
  apply (drain_without_work 1024 sample_invalid_call env_ready
           (sample_run three_requests).1).
  - reflexivity.
  - right. vm_compute. reflexivity.
Defined.

(** * Further properties of the front end *)

(** ** Strings *)

Lemma substring_all (s : string) : String.substring 0 (String.length s) s = s.
Proof. induction s as [|a s IH]; simpl; [done|]. by rewrite IH. Qed.

Lemma StartsWith_app (p n : string) : StartsWith (p +:+ n) p = true.
Proof.
  unfold StartsWith. induction p as [|a p IH]; [by destruct n|].
  change (String.prefix (String a p) (String a (p +:+ n)) = true).
  simpl. by destruct (Ascii.ascii_dec a a).
Qed.

Lemma StripPrefix_app (p n : string) : StripPrefix (p +:+ n) p = n.
Proof.
  unfold StripPrefix. rewrite StartsWith_app.
  induction p as [|a p IH].
  - change (EmptyString +:+ n) with n. simpl. rewrite Nat.sub_0_r.
    apply substring_all.
  - change (String a p +:+ n) with (String a (p +:+ n)). simpl. exact IH.
Qed.

Lemma StartsWith_inv (text p : string) :
  StartsWith text p = true -> text = p +:+ StripPrefix text p.
Proof.
  unfold StripPrefix. intros H. rewrite H. unfold StartsWith in H.
  revert text H. induction p as [|a p IH]; intros text H.
  - change (EmptyString +:+ ?x) with x. simpl. rewrite Nat.sub_0_r.
    by rewrite substring_all.
  - destruct text as [|b text]; [done|]. simpl in H.
    destruct (Ascii.ascii_dec a b) as [<-|]; [|done].
    change (String a p +:+ ?x) with (String a (p +:+ x)). simpl.
    f_equal. by apply IH.
Qed.

(** ** HTTP request routing *)

Section RoutingProperties.

Variable MESSAGE_INLINE_DATA_SIZE : N.
Variable kInvalidFuncCall : FuncCall.

Local Abbreviation function_handler' :=
  (function_handler MESSAGE_INLINE_DATA_SIZE kInvalidFuncCall).
Local Abbreviation routes :=
  (RegisterInternalRequestHandlers MESSAGE_INLINE_DATA_SIZE kInvalidFuncCall []).
Local Abbreviation shutdown_route :=
  (mkRequestHandler shutdown_matcher (SyncRequestHandler shutdown_handler)).
Local Abbreviation hello_route :=
  (mkRequestHandler hello_matcher (SyncRequestHandler hello_handler)).
Local Abbreviation function_route :=
  (mkRequestHandler function_matcher (AsyncRequestHandler function_handler')).

Lemma MatchRequest_routes (s : Server) (method path : string) :
  MatchRequest routes s method path
  = if shutdown_matcher s method path then Some shutdown_route
    else if hello_matcher s method path then Some hello_route
    else if function_matcher s method path then Some function_route
    else None.
Proof. reflexivity. Qed.

Lemma function_path_not_builtin (s : Server) (method name : string) :
  shutdown_matcher s method ("/function/" +:+ name) = false
  /\ hello_matcher s method ("/function/" +:+ name) = false.
Proof.
  unfold shutdown_matcher, hello_matcher.
  split; apply andb_false_iff; right; apply bool_decide_eq_false;
    cbv [String.append]; discriminate.
Qed.

Lemma function_matcher_spec (s : Server) (method name : string) :
  function_matcher s method ("/function/" +:+ name)
  = bool_decide (method = "POST")
    && bool_decide (is_Some (find_by_func_name (func_config_ s) name)).
Proof.
  unfold function_matcher. rewrite StartsWith_app, StripPrefix_app. simpl.
  destruct (bool_decide (method = "POST")); simpl; [|done].
  destruct (find_by_func_name _ name) as [e|]; symmetry.
  - by apply bool_decide_eq_true.
  - apply bool_decide_eq_false. by intros [].
Qed.

(** X7.  A request for [/function/<name>] is routed by the name alone.  A
    [POST] for a configured function matches the handler registered last,
    and that handler, whose [DCHECK] then holds, hands the request to
    [OnExternalFuncCall] with the function id of the entry, narrowed to 16
    bits.  With another method, or for a name that is not configured,
    no handler matches. *)
Theorem function_requests_routed_by_name (env : Env) (s : Server)
    (method name : string) (context : HttpAsyncRequestContext) :
  http_path context = "/function/" +:+ name ->
  let matched := MatchRequest routes s method (http_path context) in
  (forall func_entry,
     method = "POST" ->
     find_by_func_name (func_config_ s) name = Some func_entry ->
     matched = Some function_route
     /\ function_handler' env context s
        = Some (OnExternalFuncCall MESSAGE_INLINE_DATA_SIZE kInvalidFuncCall
                  env (narrow_cast_uint16 (entry_func_id func_entry))
                  context s))
  /\ (method <> "POST" \/ find_by_func_name (func_config_ s) name = None ->
      matched = None).
Proof.
  intros Hpath matched. unfold matched. clear matched.
  rewrite MatchRequest_routes, Hpath.
  destruct (function_path_not_builtin s method name) as [-> ->].
  rewrite function_matcher_spec. split.
  - intros e -> He. rewrite He. split.
    + rewrite bool_decide_eq_true_2 by done.
      by rewrite bool_decide_eq_true_2 by done.
    + unfold function_handler. by rewrite Hpath, StripPrefix_app, He.
  - intros [Hm| ->].
    + by rewrite (bool_decide_eq_false_2 _ Hm).
    + rewrite (bool_decide_eq_false_2 (is_Some None)) by (by intros []).
      by rewrite andb_false_r.
Qed.

(** X8.  The built-in routes are the only ones.  A request matches a
    handler exactly when it is [POST /shutdown], [GET /hello], or a [POST]
    to [/function/<name>] for a configured name; and a handler that
    schedules the stop of the server is reached by [POST /shutdown] only. *)
Theorem only_three_routes (s : Server) (method path : string) :
  (is_Some (MatchRequest routes s method path)
   <-> (method = "POST" /\ path = "/shutdown")
       \/ (method = "GET" /\ path = "/hello")
       \/ (method = "POST"
           /\ exists name,
                path = "/function/" +:+ name
                /\ is_Some (find_by_func_name (func_config_ s) name)))
  /\ (forall r handler context,
        MatchRequest routes s method path = Some r ->
        handler_ r = SyncRequestHandler handler ->
        (handler context).2 = true ->
        method = "POST" /\ path = "/shutdown").
Proof.
  rewrite MatchRequest_routes.
  destruct (shutdown_matcher s method path) eqn:H1.
  { apply andb_true_iff in H1 as [->%bool_decide_eq_true ->%bool_decide_eq_true].
    split; [split; [by left|done]|done]. }
  destruct (hello_matcher s method path) eqn:H2.
  { apply andb_true_iff in H2 as [->%bool_decide_eq_true ->%bool_decide_eq_true].
    split; [split; [by right; left|done]|].
    by intros r handler context [= <-] [= <-]. }
  assert (~ (method = "POST" /\ path = "/shutdown")) as N1.
  { intros [-> ->]. by vm_compute in H1. }
  assert (~ (method = "GET" /\ path = "/hello")) as N2.
  { intros [-> ->]. by vm_compute in H2. }
  destruct (function_matcher s method path) eqn:H3.
  - split; [|by intros r handler context [= <-]].
    split; [intros _|done]. right; right.
    unfold function_matcher in H3.
    destruct (bool_decide (method = "POST")) eqn:Hm; [|done].
    apply bool_decide_eq_true in Hm.
    destruct (StartsWith path "/function/") eqn:Hp; [|done]. simpl in H3.
    split; [done|]. exists (StripPrefix path "/function/").
    split; [by apply StartsWith_inv|].
    by destruct (find_by_func_name _ _).
  - split; [|done]. split; [by intros []|].
    intros [H|[H|(-> & name & -> & Hn)]]; [done|done|].
    rewrite function_matcher_spec in H3.
    rewrite bool_decide_eq_true_2 in H3 by done.
    by rewrite bool_decide_eq_true_2 in H3 by done.
Qed.

(** X9.  Registration order is priority order: a handler registered later
    is consulted only for the requests that no earlier handler matches. *)
Theorem earlier_handlers_take_precedence (request_handlers_ : list RequestHandler)
    (matcher : Server -> string -> string -> bool)
    (sync : HttpSyncRequestContext -> HttpSyncRequestContext * bool)
    (async : Env -> HttpAsyncRequestContext -> Server
             -> option (Server * list Effect))
    (s : Server) (method path : string) :
  let later (r : RequestHandler) :=
    match MatchRequest request_handlers_ s method path with
    | Some earlier => Some earlier
    | None => if matcher s method path then Some r else None
    end in
  MatchRequest (RegisterSyncRequestHandler matcher sync request_handlers_)
    s method path
  = later (mkRequestHandler matcher (SyncRequestHandler sync))
  /\ MatchRequest (RegisterAsyncRequestHandler matcher async request_handlers_)
       s method path
     = later (mkRequestHandler matcher (AsyncRequestHandler async)).
Proof.
  unfold MatchRequest, RegisterSyncRequestHandler, RegisterAsyncRequestHandler.
  induction request_handlers_ as [|e rest IH]; simpl; [done|].
  destruct (matcher_ e s method path); [done|]. exact IH.
Qed.

End RoutingProperties.

Lemma function_requests_routed_by_name_witness :
  let s := Server_init 2 wide_config in
  let context := mkHttp "/function/wide" "in" EmptyString 200 0 in
  MatchRequest (RegisterInternalRequestHandlers 1024 sample_invalid_call [])
    s "GET" (http_path context) = None
  /\ function_handler 1024 sample_invalid_call env_ready context s
     = Some (OnExternalFuncCall 1024 sample_invalid_call env_ready 1 context s).
Proof.
  intros s context.
  destruct (function_requests_routed_by_name 1024 sample_invalid_call env_ready
              s "GET" "wide" context eq_refl) as [_ H1].
  destruct (function_requests_routed_by_name 1024 sample_invalid_call env_ready
              s "POST" "wide" context eq_refl) as [H2 _].
  split.
  - apply H1. left. discriminate.
  - exact (proj2 (H2 (mkEntry "wide" 65537 ∅) eq_refl eq_refl)).
Defined.

(** ** IO workers and the accept callbacks *)

Lemma PickHttpWorker_spec (w : Listener) :
  listener_ok w ->
  exists io_worker w',
    PickHttpWorker w = Some (io_worker, w')
    /\ http_workers_ w !! next_http_worker_id_ w = Some io_worker
    /\ http_workers_ w' = http_workers_ w
    /\ ipc_workers_ w' = ipc_workers_ w
    /\ next_http_worker_id_ w'
       = ((next_http_worker_id_ w + 1) mod length (http_workers_ w))%nat
    /\ next_ipc_worker_id_ w' = next_ipc_worker_id_ w
    /\ next_http_connection_id_ w' = next_http_connection_id_ w
    /\ next_grpc_connection_id_ w' = next_grpc_connection_id_ w
    /\ listener_ok w'.
Proof.
  intros [Hh Hi]. unfold PickHttpWorker.
  destruct (lookup_lt_is_Some_2 _ _ Hh) as [x Hx]. rewrite Hx.
  eexists _, _. split; [reflexivity|]. simpl. split_and!; try done.
  split; simpl; [|done]. apply Nat.mod_upper_bound. lia.
Qed.

Lemma PickIpcWorker_spec (w : Listener) :
  listener_ok w ->
  exists io_worker w',
    PickIpcWorker w = Some (io_worker, w')
    /\ ipc_workers_ w !! next_ipc_worker_id_ w = Some io_worker
    /\ http_workers_ w' = http_workers_ w
    /\ ipc_workers_ w' = ipc_workers_ w
    /\ next_http_worker_id_ w' = next_http_worker_id_ w
    /\ next_ipc_worker_id_ w'
       = ((next_ipc_worker_id_ w + 1) mod length (ipc_workers_ w))%nat
    /\ next_http_connection_id_ w' = next_http_connection_id_ w
    /\ next_grpc_connection_id_ w' = next_grpc_connection_id_ w
    /\ listener_ok w'.
Proof.
  intros [Hh Hi]. unfold PickIpcWorker.
  destruct (lookup_lt_is_Some_2 _ _ Hi) as [x Hx]. rewrite Hx.
  eexists _, _. split; [reflexivity|]. simpl. split_and!; try done.
  split; simpl; [done|]. apply Nat.mod_upper_bound. lia.
Qed.

(** What one accept callback does to the listener: either it registers
    nothing and leaves pools and cursors alone, or it registers the
    connection with the worker under the cursor of its pool and moves that
    cursor by one. *)
Lemma accept_spec (e : AcceptEvent) (s : Server) (w : Listener) :
  listener_ok w ->
  exists s' w' r,
    accept e (s, w) = Some (s', w', r)
    /\ listener_ok w'
    /\ http_workers_ w' = http_workers_ w
    /\ ipc_workers_ w' = ipc_workers_ w
    /\ match r with
       | None =>
           next_http_worker_id_ w' = next_http_worker_id_ w
           /\ next_ipc_worker_id_ w' = next_ipc_worker_id_ w
       | Some reg =>
           if on_http_pool reg then
             on_ipc_pool reg = false
             /\ http_workers_ w !! next_http_worker_id_ w = Some (reg_worker reg)
             /\ next_http_worker_id_ w'
                = ((next_http_worker_id_ w + 1) mod length (http_workers_ w))%nat
             /\ next_ipc_worker_id_ w' = next_ipc_worker_id_ w
           else
             on_ipc_pool reg = true
             /\ ipc_workers_ w !! next_ipc_worker_id_ w = Some (reg_worker reg)
             /\ next_ipc_worker_id_ w'
                = ((next_ipc_worker_id_ w + 1) mod length (ipc_workers_ w))%nat
             /\ next_http_worker_id_ w' = next_http_worker_id_ w
       end.
Proof.
  intros Hok.
  destruct e as [status a accepted|status a accepted|status a accepted]; simpl;
    destruct (bool_decide (status ≠ 0%Z));
    try (by eexists _, _, None); destruct accepted;
    try (eexists _, _, None; split; [reflexivity|]; by destruct Hok).
  - set (w1 := mkListener _ _ _ _ _ _).
    destruct (PickHttpWorker_spec w1) as (x & w' & -> & Hx & P1 & P2 & P3 & P4 & _ & _ & Hok');
      [done|].
    eexists _, _, (Some _). split; [reflexivity|]. by simpl.
  - set (w1 := mkListener _ _ _ _ _ _).
    destruct (PickHttpWorker_spec w1) as (x & w' & -> & Hx & P1 & P2 & P3 & P4 & _ & _ & Hok');
      [done|].
    eexists _, _, (Some _). split; [reflexivity|]. by simpl.
  - destruct (PickIpcWorker_spec w) as (x & w' & -> & Hx & P1 & P2 & P3 & P4 & _ & _ & Hok');
      [done|].
    eexists _, _, (Some _). split; [reflexivity|]. by simpl.
Qed.

Lemma accept_all_round_robin (es : list AcceptEvent) :
  forall (s : Server) (w : Listener),
  listener_ok w ->
  exists s' w' rs,
    accept_all es (s, w) = Some (s', w', rs)
    /\ (forall j r, List.filter on_http_pool rs !! j = Some r ->
          http_workers_ w
            !! ((next_http_worker_id_ w + j) mod length (http_workers_ w))%nat
          = Some (reg_worker r))
    /\ (forall j r, List.filter on_ipc_pool rs !! j = Some r ->
          ipc_workers_ w
            !! ((next_ipc_worker_id_ w + j) mod length (ipc_workers_ w))%nat
          = Some (reg_worker r)).
Proof.
  induction es as [|e es IH]; intros s w Hok.
  - exists s, w, []. split; [done|]. split; intros j r H; by destruct j.
  - destruct (accept_spec e s w Hok) as (s1 & w1 & r & E & Hok1 & P1 & P2 & Hr).
    destruct (IH s1 w1 Hok1) as (s2 & w2 & rs & E2 & Hh & Hi).
    exists s2, w2, (option_list r ++ rs).
    cbn [accept_all]. rewrite E, E2. split; [done|].
    rewrite P1, P2 in *. destruct Hok as [Hlh Hli].
    destruct r as [reg|]; simpl.
    + destruct (on_http_pool reg) eqn:Hpool;
        destruct Hr as (Hq & Hx & Hn1 & Hn2); rewrite Hq, Hn1, Hn2 in *.
      * split; [|done]. intros [|j] r Hj.
        -- injection Hj as <-. by rewrite Nat.add_0_r, Nat.mod_small.
        -- simpl in Hj. specialize (Hh j r Hj).
           rewrite Nat.Div0.add_mod_idemp_l in Hh.
           by replace (next_http_worker_id_ w + S j)%nat
             with (next_http_worker_id_ w + 1 + j)%nat by lia.
      * split; [done|]. intros [|j] r Hj.
        -- injection Hj as <-. by rewrite Nat.add_0_r, Nat.mod_small.
        -- simpl in Hj. specialize (Hi j r Hj).
           rewrite Nat.Div0.add_mod_idemp_l in Hi.
           by replace (next_ipc_worker_id_ w + S j)%nat
             with (next_ipc_worker_id_ w + 1 + j)%nat by lia.
    + destruct Hr as [Hn1 Hn2]. by rewrite Hn1, Hn2 in *.
Qed.

Lemma Listener_start_ok (num_http_workers_ num_ipc_workers_ num_io_workers_ : Z)
    (w : Listener) :
  Listener_start num_http_workers_ num_ipc_workers_ num_io_workers_ = Some w ->
  listener_ok w /\ next_http_worker_id_ w = 0%nat /\ next_ipc_worker_id_ w = 0%nat.
Proof.
  unfold Listener_start, StartInternal_workers, listener_ok.
  destruct (num_io_workers_ =? -1)%Z.
  - destruct (0 <? num_http_workers_)%Z eqn:H1; [|done].
    destruct (0 <? num_ipc_workers_)%Z eqn:H2; [|done].
    intros [= <-]. simpl. rewrite !length_fmap, !length_seqZ. lia.
  - destruct (0 <? num_io_workers_)%Z eqn:H1; [|done].
    intros [= <-]. simpl. rewrite !length_fmap, !length_seqZ. lia.
Qed.

(** X10.  Connections are spread round-robin over the IO workers.  Once
    [StartInternal] has built the pools, no sequence of accept callbacks
    indexes a pool out of range, whatever their status and whether
    [uv_accept] succeeds; the HTTP and gRPC connections registered, taken
    together in order, go to the HTTP workers in turn from the first one,
    and the message connections registered go to the IPC workers in turn. *)
Theorem connections_assigned_round_robin
    (num_http_workers_ num_ipc_workers_ num_io_workers_ : Z)
    (w0 : Listener) (es : list AcceptEvent) (s : Server) :
  Listener_start num_http_workers_ num_ipc_workers_ num_io_workers_ = Some w0 ->
  exists s' w' rs,
    accept_all es (s, w0) = Some (s', w', rs)
    /\ (forall j r, List.filter on_http_pool rs !! j = Some r ->
          http_workers_ w0 !! (j mod length (http_workers_ w0))%nat
          = Some (reg_worker r))
    /\ (forall j r, List.filter on_ipc_pool rs !! j = Some r ->
          ipc_workers_ w0 !! (j mod length (ipc_workers_ w0))%nat
          = Some (reg_worker r)).
Proof.
  intros (Hok & H1 & H2)%Listener_start_ok.
  destruct (accept_all_round_robin es s w0 Hok) as (s' & w' & rs & E & Hh & Hi).
  rewrite H1, H2 in *. by exists s', w', rs.
Qed.

(** X11.  Accepting a connection and closing it again.  An accept callback
    never changes the pools; it moves the id counter of its type by one
    exactly when its status is zero, whether or not [uv_accept] succeeds.
    One that registers nothing leaves everything else, the [Server] record
    and both worker cursors, as it was.  One that registers a connection
    moves the cursor of the pool it took the worker from by one, and
    if the address was fresh, [OnConnectionClose] for the connection, before
    any handshake was done on it, gives back the tables, the counters of
    the core and the connection sets as they were before the accept; the
    id counter and the cursor stay moved. *)
Theorem accept_then_close (env : Env) (e : AcceptEvent) (s s' : Server)
    (w w' : Listener) (r : option Registration) :
  accept e (s, w) = Some (s', w', r) ->
  http_workers_ w' = http_workers_ w
  /\ ipc_workers_ w' = ipc_workers_ w
  /\ next_http_connection_id_ w'
     = (if http_attempt e then int_succ (next_http_connection_id_ w)
        else next_http_connection_id_ w)
  /\ next_grpc_connection_id_ w'
     = (if grpc_attempt e then int_succ (next_grpc_connection_id_ w)
        else next_grpc_connection_id_ w)
  /\ match r with
     | None =>
         s' = s
         /\ next_http_worker_id_ w' = next_http_worker_id_ w
         /\ next_ipc_worker_id_ w' = next_ipc_worker_id_ w
     | Some reg =>
         (if on_http_pool reg
          then next_http_worker_id_ w'
               = ((next_http_worker_id_ w + 1) mod length (http_workers_ w))%nat
               /\ next_ipc_worker_id_ w' = next_ipc_worker_id_ w
          else next_ipc_worker_id_ w'
               = ((next_ipc_worker_id_ w + 1) mod length (ipc_workers_ w))%nat
               /\ next_http_worker_id_ w' = next_http_worker_id_ w)
         /\ forall connection : ConnectionBase,
              conn_type connection = reg_type reg ->
              conn_id connection = reg_connection reg ->
              handshake_done connection = false ->
              conn_id connection
                ∉ http_connections_ s ∪ grpc_connections_ s
                  ∪ message_connections_ s ->
              OnConnectionClose env connection s' = s
     end.
Proof.
  assert (forall (a : N) (X : gset N), a ∉ X -> ({[a]} ∪ X) ∖ {[a]} = X) as Hset.
  { intros a X Ha. apply set_eq. intros x.
    rewrite elem_of_difference, elem_of_union, !elem_of_singleton.
    split; [by intros [[?|?] ?]|]. intros Hx. split; [by right|].
    by intros ->. }
  destruct e as [status a accepted|status a accepted|status a accepted];
    cbn [accept http_attempt grpc_attempt];
    unfold HttpConnectionCallback, GrpcConnectionCallback,
      MessageConnectionCallback;
    (destruct (decide (status = 0%Z)) as [->|Hst];
       [rewrite bool_decide_eq_false_2 by (by intros H; apply H);
        rewrite ?bool_decide_eq_true_2 by done
       |rewrite bool_decide_eq_true_2 by done;
        rewrite ?bool_decide_eq_false_2 by done;
        by intros [= <- <- <-]]);
    (destruct accepted; [|by intros [= <- <- <-]]).
  - unfold PickHttpWorker. simpl.
    destruct (http_workers_ w !! _) as [x|]; [|done]. intros [= <- <- <-].
    simpl. split_and!; try done.
    intros [ty id hd il]; simpl. intros -> -> -> Hf.
    unfold OnConnectionClose, set_connections. simpl.
    rewrite Hset; [by destruct s|]. intros Hin. apply Hf.
    apply elem_of_union. left. apply elem_of_union. by left.
  - unfold PickHttpWorker. simpl.
    destruct (http_workers_ w !! _) as [x|]; [|done]. intros [= <- <- <-].
    simpl. split_and!; try done.
    intros [ty id hd il]; simpl. intros -> -> -> Hf.
    unfold OnConnectionClose, set_connections. simpl.
    rewrite Hset; [by destruct s|]. intros Hin. apply Hf.
    apply elem_of_union. left. apply elem_of_union. by right.
  - unfold PickIpcWorker. simpl.
    destruct (ipc_workers_ w !! _) as [x|]; [|done]. intros [= <- <- <-].
    simpl. split_and!; try done.
    intros [ty id hd il]; simpl. intros -> -> -> Hf.
    unfold OnConnectionClose, set_connections. simpl.
    rewrite Hset; [by destruct s|]. intros Hin. apply Hf.
    apply elem_of_union. by right.
Qed.

Lemma connections_assigned_round_robin_witness :
  exists s' w' rs,
    accept_all [AcceptHttp 0 10 true; AcceptGrpc 0 11 true;
                AcceptMessage 0 12 true; AcceptHttp 0 13 false;
                AcceptHttp 0 14 true; AcceptGrpc 0 15 true]
      (Server_init 2 sample_config, sample_listener)
    = Some (s', w', rs)
    /\ (forall j r, List.filter on_http_pool rs !! j = Some r ->
          http_workers_ sample_listener
            !! (j mod length (http_workers_ sample_listener))%nat
          = Some (reg_worker r))
    /\ (forall j r, List.filter on_ipc_pool rs !! j = Some r ->
          ipc_workers_ sample_listener
            !! (j mod length (ipc_workers_ sample_listener))%nat
          = Some (reg_worker r)).
Proof.
  apply (connections_assigned_round_robin 3 2 (-1) sample_listener).
  vm_compute. reflexivity.
Defined.

Lemma accept_then_close_witness :
  let s := Server_init 2 sample_config in
  let w1 := mkListener ["Http-0"; "Http-1"; "Http-2"] ["Ipc-0"; "Ipc-1"]
              0 0 1 0 in
  let w2 := mkListener ["Http-0"; "Http-1"; "Http-2"] ["Ipc-0"; "Ipc-1"]
              1 0 2 0 in
  accept (AcceptHttp 0 9 false) (s, sample_listener) = Some (s, w1, None)
  /\ next_http_connection_id_ w1 = int_succ 0
  /\ next_http_worker_id_ w2 = 1%nat
  /\ OnConnectionClose env_ready (mkConn HttpConnection 10 false false)
       (set_connections {[10]} ∅ ∅ s)
     = s.
Proof.
  intros s w1 w2.
  assert (accept (AcceptHttp 0 9 false) (s, sample_listener)
          = Some (s, w1, None)) as E1 by (vm_compute; reflexivity).
  assert (accept (AcceptHttp 0 10 true) (s, w1)
          = Some (set_connections {[10]} ∅ ∅ s, w2,
                  Some (mkRegistration "Http-0" HttpConnection 10 (Some 1%Z))))
    as E2 by (vm_compute; reflexivity).
  destruct (accept_then_close env_ready _ _ _ _ _ _ E1) as (_ & _ & H1 & _).
  destruct (accept_then_close env_ready _ _ _ _ _ _ E2)
    as (_ & _ & _ & _ & [H2 _] & H3).
  split; [exact E1|]. split; [exact H1|]. split; [exact H2|].
  apply H3; [reflexivity..|].
  vm_compute. intros H. discriminate H.
Defined.

(** ** The handshake of a message connection *)

Section HandshakeProperties.

Variable MESSAGE_INLINE_DATA_SIZE : N.
Variable kInvalidFuncCall : FuncCall.
Variable kContainerIdLength : nat.
Variable kInvalidContainerId : string.
Variable NewHandshakeResponseMessage : nat -> Message.

Local Abbreviation OnNewHandshake' :=
  (OnNewHandshake MESSAGE_INLINE_DATA_SIZE kInvalidFuncCall kContainerIdLength
     kInvalidContainerId NewHandshakeResponseMessage).
Local Abbreviation ProcessDiscarded' :=
  (ProcessDiscardedFuncCallIfNecessary MESSAGE_INLINE_DATA_SIZE kInvalidFuncCall).

(** X12.  When a handshake is answered.  [OnNewHandshake] returns a
    response exactly when the function id of the message is configured and
    either the message is a launcher handshake whose inline data has the
    length of a container id and the worker manager accepts the launcher,
    or it is a function worker handshake and the worker manager accepts
    the worker.  The response then is the handshake response for the
    length of [func_config_json_], with that text as payload. *)
Theorem handshake_answered_iff (env : Env) (monitor : bool)
    (func_config_json_ : string) (OnLauncherConnected OnFuncWorkerConnected : bool)
    (handshake_message : Message) (s : Server) :
  let h := OnNewHandshake' env monitor func_config_json_ OnLauncherConnected
             OnFuncWorkerConnected handshake_message s in
  (is_Some (hs_response h)
   <-> is_Some (find_by_func_id (func_config_ s)
                  (func_id (msg_func_call handshake_message)))
       /\ ((message_type handshake_message = LAUNCHER_HANDSHAKE
            /\ String.length (inline_data handshake_message) = kContainerIdLength
            /\ OnLauncherConnected = true)
           \/ (message_type handshake_message = FUNC_WORKER_HANDSHAKE
               /\ OnFuncWorkerConnected = true)))
  /\ (forall r, hs_response h = Some r ->
        r = (NewHandshakeResponseMessage (String.length func_config_json_),
             func_config_json_)).
Proof.
  intros h. unfold h, OnNewHandshake, IsLauncherHandshakeMessage,
    IsFuncWorkerHandshakeMessage, GetInlineDataFromMessage. clear h.
  destruct (bool_decide (message_type handshake_message = LAUNCHER_HANDSHAKE))
    eqn:HL;
    [apply bool_decide_eq_true in HL|apply bool_decide_eq_false in HL];
  (destruct (bool_decide (message_type handshake_message = FUNC_WORKER_HANDSHAKE))
     eqn:HW;
     [apply bool_decide_eq_true in HW|apply bool_decide_eq_false in HW]);
  simpl.
  - congruence.
  - destruct (find_by_func_id _ _) as [e|]; simpl.
    2: { split; [|done]. split; [by intros []|]. by intros [[] _]. }
    destruct (bool_decide (String.length _ = kContainerIdLength)) eqn:Hlen;
      [apply bool_decide_eq_true in Hlen|apply bool_decide_eq_false in Hlen];
      simpl.
    + destruct OnLauncherConnected; simpl.
      * split; [|by intros r [= <-]]. split; [intros _|done].
        split; [done|]. by left.
      * split; [|done]. split; [by intros []|].
        intros [_ [(_ & _ & ?)|[? _]]]; [done|congruence].
    + split; [|done]. split; [by intros []|].
      intros [_ [(_ & ? & _)|[? _]]]; [done|congruence].
  - destruct (find_by_func_id _ _) as [e|]; simpl.
    2: { split; [|done]. split; [by intros []|]. by intros [[] _]. }
    destruct (ProcessDiscarded' env s) as [s1 l].
    destruct OnFuncWorkerConnected; simpl.
    + split; [|by intros r [= <-]]. split; [intros _|done].
      split; [done|]. by right.
    + split; [|done]. split; [by intros []|].
      intros [_ [(? & _)|[_ ?]]]; [congruence|done].
  - split; [|done]. split; [by intros []|].
    intros [_ [(? & _)|[? _]]]; congruence.
Qed.

(** X13.  What a handshake does besides answering.  The handshake of a
    function worker for a configured function runs the drain, whether or
    not the worker manager accepts the worker, so no discarded call is left
    behind; any other handshake leaves the server as it is.  The monitor is
    told of a container exactly for a launcher handshake for a configured
    function with a container id of the right length other than the
    invalid id, when there is a monitor; the answer of the worker manager
    plays no part in that. *)
Theorem handshake_side_effects (env : Env) (monitor : bool)
    (func_config_json_ : string) (OnLauncherConnected OnFuncWorkerConnected : bool)
    (handshake_message : Message) (s : Server) :
  let h := OnNewHandshake' env monitor func_config_json_ OnLauncherConnected
             OnFuncWorkerConnected handshake_message s in
  let configured :=
    is_Some (find_by_func_id (func_config_ s)
               (func_id (msg_func_call handshake_message))) in
  (message_type handshake_message = FUNC_WORKER_HANDSHAKE /\ configured ->
   (hs_server h, hs_effects h) = ProcessDiscarded' env s
   /\ discarded_func_calls_ (hs_server h) = [])
  /\ (~ (message_type handshake_message = FUNC_WORKER_HANDSHAKE /\ configured) ->
      hs_server h = s /\ hs_effects h = [])
  /\ (forall f id,
        hs_new_func_container h = Some (f, id)
        <-> message_type handshake_message = LAUNCHER_HANDSHAKE /\ configured
            /\ String.length (inline_data handshake_message) = kContainerIdLength
            /\ monitor = true
            /\ inline_data handshake_message <> kInvalidContainerId
            /\ f = func_id (msg_func_call handshake_message)
            /\ id = inline_data handshake_message).
Proof.
  intros h configured. unfold h, configured, OnNewHandshake,
    IsLauncherHandshakeMessage, IsFuncWorkerHandshakeMessage,
    GetInlineDataFromMessage. clear h configured.
  destruct (bool_decide (message_type handshake_message = LAUNCHER_HANDSHAKE))
    eqn:HL;
    [apply bool_decide_eq_true in HL|apply bool_decide_eq_false in HL];
  (destruct (bool_decide (message_type handshake_message = FUNC_WORKER_HANDSHAKE))
     eqn:HW;
     [apply bool_decide_eq_true in HW|apply bool_decide_eq_false in HW]);
  simpl.
  - congruence.
  - destruct (find_by_func_id _ _) as [e|]; simpl.
    2: { split_and!; [by intros [_ []]|done|].
         intros f id. split; [done|]. by intros (_ & [] & _). }
    destruct (bool_decide (String.length _ = kContainerIdLength)) eqn:Hlen;
      [apply bool_decide_eq_true in Hlen|apply bool_decide_eq_false in Hlen];
      simpl.
    2: { split_and!; [intros [? _]; congruence|done|].
         intros f id. split; [done|]. by intros (_ & _ & ? & _). }
    split_and!; [intros [? _]; congruence|done|].
    intros f id. destruct monitor; simpl.
    2: { split; [done|]. by intros (_ & _ & _ & ? & _). }
    destruct (bool_decide (inline_data handshake_message = kInvalidContainerId))
      eqn:Hid;
      [apply bool_decide_eq_true in Hid|apply bool_decide_eq_false in Hid];
      simpl.
    + split; [done|]. by intros (_ & _ & _ & _ & ? & _).
    + split; [by intros [= <- <-]|]. by intros (_ & _ & _ & _ & _ & -> & ->).
  - destruct (find_by_func_id _ _) as [e|]; simpl.
    2: { split_and!; [by intros [_ []]|done|].
         intros f id. split; [done|]. by intros (_ & [] & _). }
    destruct (ProcessDiscarded' env s) as [s1 l] eqn:E.
    split_and!.
    + intros _. split; [done|]. simpl.
      by eapply ProcessDiscarded_drained.
    + intros H. by destruct H.
    + intros f id. simpl. split; [done|]. intros (? & _). congruence.
  - split_and!; [intros [? _]; congruence|done|].
    intros f id. split; [done|]. intros (? & _). congruence.
Qed.

End HandshakeProperties.

(** * Further properties of the watchdog connection *)

Lemma string_app_assoc' (a b c : string) : (a +:+ b) +:+ c = a +:+ (b +:+ c).
Proof.
  induction a as [|x a IH]; [done|].
  change (String x ((a +:+ b) +:+ c) = String x (a +:+ (b +:+ c))).
  by rewrite IH.
Qed.

Section WatchdogHandshake.

Import Watchdog.

Variable sizeof_HandshakeResponse : nat.

Local Abbreviation step := (Watchdog.step sizeof_HandshakeResponse).
Local Abbreviation trace := (Watchdog.trace sizeof_HandshakeResponse).

Lemma ScheduleClose_not_running (c : GatewayConnection) :
  state_ (ScheduleClose c) = kRunning -> state_ c = kRunning.
Proof. unfold ScheduleClose. by destruct (_ || _). Qed.

Lemma step_running (e : Event) (c : GatewayConnection) :
  state_ (step e c) = kRunning -> state_ c <> kRunning ->
  exists nread data,
    e = EvReadHandshakeResponse nread data true
    /\ (0 < nread)%Z
    /\ String.length (message_buffer_ c +:+ data) = sizeof_HandshakeResponse
    /\ message_buffer_ (step e c) = EmptyString
    /\ uv_reading (step e c) = Some ReadMessage
    /\ uv_closing (step e c) = uv_closing c.
Proof.
  intros H Hn.
  destruct e as [| |status|status|nread data accepted|nread rest|status|];
    simpl in *;
    try (unfold ConnectCallback, WriteHandshakeCallback, WriteMessageCallback,
           ReadMessageCallback in H;
         repeat case_match; simpl in *;
         try (apply ScheduleClose_not_running in H); done).
  unfold ReadHandshakeResponseCallback in *.
  destruct (nread <? 0)%Z eqn:H1; [by apply ScheduleClose_not_running in H|].
  destruct (nread =? 0)%Z eqn:H2; [done|].
  simpl in *.
  destruct (bool_decide (String.length _ = sizeof_HandshakeResponse)) eqn:H3;
    [|done].
  apply bool_decide_eq_true in H3. unfold RecvHandshakeResponse in *.
  destruct accepted; simpl in *; [|done].
  exists nread, data. split_and!; try done. lia.
Qed.

(** X14.  The connection runs only after an accepted handshake response.
    A step that brings the state to [kRunning] is a read of the handshake
    response that completes it to exactly [sizeof(HandshakeResponse)] bytes
    and that the watchdog accepts; the buffer is then empty and the reads
    go to [ReadMessageCallback].  So a connection that runs has seen such
    a read. *)
Theorem running_only_after_accepted_handshake :
  (forall e c,
     state_ (step e c) = kRunning -> state_ c <> kRunning ->
     exists nread data,
       e = EvReadHandshakeResponse nread data true
       /\ (0 < nread)%Z
       /\ String.length (message_buffer_ c +:+ data) = sizeof_HandshakeResponse
       /\ message_buffer_ (step e c) = EmptyString
       /\ uv_reading (step e c) = Some ReadMessage
       /\ uv_closing (step e c) = uv_closing c)
  /\ (forall es c,
        trace GatewayConnection_new es c -> state_ c = kRunning ->
        exists nread data, EvReadHandshakeResponse nread data true ∈ es).
Proof.
  split; [apply step_running|].
  assert (forall c es c', trace c es c' -> state_ c' = kRunning ->
            state_ c = kRunning
            \/ exists nread data, EvReadHandshakeResponse nread data true ∈ es)
    as H.
  { induction 1 as [|c e es c' He _ IH]; [by left|].
    intros Hr. destruct (IH Hr) as [Hs|(nread & data & Hin)].
    - destruct (decide (state_ c = kRunning)) as [|Hn]; [by left|].
      destruct (step_running e c Hs Hn) as (nread & data & -> & _).
      right. exists nread, data. by left.
    - right. exists nread, data. by right. }
  intros es c Ht Hr. by destruct (H _ _ _ Ht Hr) as [Hs|Hs].
Qed.


(** X16.  A handshake response may arrive in pieces: two reads, the first
    of which does not complete the response, leave the connection as one
    read of the two pieces together does. *)
Theorem handshake_response_in_pieces (d1 d2 : string) (a1 a2 : bool)
    (c : GatewayConnection) :
  (0 < String.length d1)%nat -> (0 < String.length d2)%nat ->
  String.length (message_buffer_ c +:+ d1) <> sizeof_HandshakeResponse ->
  step (EvReadHandshakeResponse (Z.of_nat (String.length d2)) d2 a2)
    (step (EvReadHandshakeResponse (Z.of_nat (String.length d1)) d1 a1) c)
  = step (EvReadHandshakeResponse
            (Z.of_nat (String.length (d1 +:+ d2))) (d1 +:+ d2) a2) c.
Proof.
  intros H1 H2 Hl. simpl. unfold ReadHandshakeResponseCallback.
  assert (0 < String.length (d1 +:+ d2))%nat as H3.
  { destruct d1; [simpl in H1; lia|]. simpl. lia. }
  rewrite !(proj2 (Z.ltb_ge _ 0)) by lia.
  rewrite !(proj2 (Z.eqb_neq _ 0)) by lia. simpl.
  rewrite (bool_decide_eq_false_2 _ Hl). simpl.
  by rewrite string_app_assoc'.
Qed.

(** X22.  Every failure closes the connection, and only while it is open.
    A callback that reports a failure (a nonzero status of the connect or
    of a write, a negative length of a read) does what [ScheduleClose]
    does: in the states [kHandshake] and [kRunning] it requests the close
    and sets [kClosing], leaving the buffer and the installed read
    callback alone; in every other state it changes nothing.  A read of
    zero bytes changes nothing either. *)
Theorem failures_close_the_connection (e : Event) (c : GatewayConnection) :
  (reports_error e = true ->
   step e c = ScheduleClose c
   /\ (state_ c = kHandshake \/ state_ c = kRunning ->
       step e c
       = mkGatewayConnection kClosing (message_buffer_ c) true (uv_reading c))
   /\ (state_ c <> kHandshake -> state_ c <> kRunning -> step e c = c))
  /\ (forall data accepted, step (EvReadHandshakeResponse 0 data accepted) c = c)
  /\ (forall rest, step (EvReadMessage 0 rest) c = c).
Proof.
  split; [|done]. intros He.
  assert (step e c = ScheduleClose c) as ->.
  { destruct e; simpl in *; try done;
      unfold ConnectCallback, WriteHandshakeCallback, WriteMessageCallback,
        ReadHandshakeResponseCallback, ReadMessageCallback;
      by rewrite He. }
  split; [done|]. unfold ScheduleClose. split.
  - intros [-> | ->]; reflexivity.
  - intros H1 H2. by rewrite !bool_decide_eq_false_2 by done.
Qed.

End WatchdogHandshake.


Lemma handshake_response_in_pieces_witness :
  let c := Watchdog.mkGatewayConnection Watchdog.kHandshake EmptyString false
             (Some Watchdog.ReadHandshakeResponse) in
  Watchdog.step 4 (Watchdog.EvReadHandshakeResponse 3 "bcd" true)
    (Watchdog.step 4 (Watchdog.EvReadHandshakeResponse 1 "a" true) c)
  = Watchdog.step 4 (Watchdog.EvReadHandshakeResponse 4 "abcd" true) c.
Proof.
  intros c.
  apply (handshake_response_in_pieces 4 "a" "bcd" true true c).
  - simpl. lia.
  - simpl. lia.
  - vm_compute. intros H. discriminate H.
Defined.

(** * Further properties of the gateway: what a client observes *)

Section GatewayOutcomes.

Variable MESSAGE_INLINE_DATA_SIZE : N.
Variable PIPE_BUF : N.
Variable kInvalidFuncCall : FuncCall.

Local Abbreviation ProcessDiscarded' :=
  (ProcessDiscardedFuncCallIfNecessary MESSAGE_INLINE_DATA_SIZE kInvalidFuncCall).
Local Abbreviation OnRecvMessage' :=
  (OnRecvMessage MESSAGE_INLINE_DATA_SIZE PIPE_BUF kInvalidFuncCall).
Local Abbreviation run' :=
  (run MESSAGE_INLINE_DATA_SIZE PIPE_BUF kInvalidFuncCall).

(** X17.  A completion makes room for the oldest waiting request.  When a
    Complete or Failed message arrives for a running external call while
    requests wait, in a state that respects the cap, the front of the
    pending queue is the first context popped by the handler and the first
    one dispatched. *)
Theorem completion_admits_oldest_waiting (env : Env) (m : Message) (s : Server)
    (c p : ExternalFuncCallContext) (rest : list ExternalFuncCallContext) :
  cap_ok s ->
  client_id (GetFuncCallFromMessage m) = 0 ->
  running_external_func_calls_ s !! GetFuncCallFromMessage m = Some c ->
  message_type m = FUNC_CALL_COMPLETE \/ message_type m = FUNC_CALL_FAILED ->
  pending_external_func_calls_ s = p :: rest ->
  exists ps,
    popped (OnRecvMessage' env m s).2 = p :: ps
    /\ dispatched (OnRecvMessage' env m s).2 = call_ p :: map call_ ps.
Proof.
  intros Hcap Hcl Hk Hty Hq.
  destruct (OnRecvMessage' env m s) as [s' l] eqn:E. simpl.
  destruct (OnRecvMessage_drained _ _ _ _ _ _ _ _ E) as [_ Hd].
  rewrite Hd.
  cut (exists ps, popped l = p :: ps).
  { intros [ps ->]. by exists ps. }
  unfold OnRecvMessage in E.
  assert (IsInvokeFuncMessage m = false) as Hinv.
  { unfold IsInvokeFuncMessage. apply bool_decide_eq_false.
    destruct Hty as [-> | ->]; discriminate. }
  assert (IsFuncCallCompleteMessage m || IsFuncCallFailedMessage m = true) as Hcf.
  { unfold IsFuncCallCompleteMessage, IsFuncCallFailedMessage.
    destruct Hty as [-> | ->]; reflexivity. }
  rewrite Hinv, Hcf in E.
  destruct (OnRecvMessage_finished_locked PIPE_BUF m s)
    as [[[[sa ctx] fd] d] la] eqn:EL.
  apply OnRecvMessage_finished_locked_spec in EL
    as (_ & _ & _ & [(c0 & _ & Hk0 & _ & Hprom)|([Hne|Hnone] & _)]);
    [|done|congruence].
  destruct Hprom as [(p0 & rest0 & Hq0 & _ & _ & _ & _ & Hla)
                    |(_ & [Hq0|Hfull] & _)].
  - rewrite Hq in Hq0. injection Hq0 as <- <-.
    destruct (match fd with Some k => _ | None => (sa, []) end) as [sb lb].
    destruct (match (if client_id _ =? 0 then _ else ctx) with
              | Some c1 => _ | None => (sb, []) end) as [sc lc].
    destruct (ProcessDiscarded' env sc) as [sd ld].
    injection E as <- <-. rewrite Hla.
    rewrite <- !app_assoc. simpl.
    change (popped (EPendingPop p :: ?x)) with (p :: popped x).
    by eexists.
  - congruence.
  - exfalso. apply not_true_iff_false in Hfull. apply Hfull.
    apply cap_permits_iff. simpl.
    destruct (decide (max_running_external_requests_ s = 0)) as [|Hn];
      [by left|right].
    specialize (Hcap Hn).
    rewrite map_size_delete, Hk. simpl.
    assert (size (running_external_func_calls_ s) <> 0%nat) as Hs.
    { intros H0. apply map_size_empty_iff in H0. rewrite H0 in Hk.
      by rewrite lookup_empty in Hk. }
    lia.
Qed.

Lemma foldl_DiscardFuncCall_connections (calls : list FuncCall) :
  forall s : Server,
  message_connections_
    (foldl (fun s' func_call => DiscardFuncCall func_call s') s calls)
  = message_connections_ s.
Proof.
  induction calls as [|fc calls IH]; intros s; simpl; [done|]. by rewrite IH.
Qed.

(** X18.  The calls of a worker that went away fail at the next drain.
    When a message connection whose handshake was done is closed, it leaves
    the set of message connections, and the calls that the worker manager
    discards for it are recorded.  At the next drain each of them that is a
    running external call is finalized by [FinishWithDispatchFailure],
    which answers HTTP 404 or gRPC UNIMPLEMENTED, and destroyed; nothing
    stays recorded. *)
Theorem disconnected_worker_calls_fail (env env' : Env)
    (connection : ConnectionBase) (s : Server) (fc : FuncCall)
    (c : ExternalFuncCallContext) :
  conn_type connection = MessageConnection ->
  handshake_done connection = true ->
  fc ∈ worker_manager_discards env connection ->
  client_id fc = 0 ->
  running_external_func_calls_ s !! fc = Some c ->
  let s1 := OnConnectionClose env connection s in
  let r := ProcessDiscarded' env' s1 in
  (conn_id connection ∉ message_connections_ s1)
  /\ fc ∈ discarded_func_calls_ s1
  /\ EDestroyed (FinishWithDispatchFailure c) ∈ r.2
  /\ response_status (FinishWithDispatchFailure c)
     = (if is_http c then inl 404%Z else inr UNIMPLEMENTED)
  /\ discarded_func_calls_ r.1 = [].
Proof.
  intros Hty Hhd Hfc Hcl Hk s1 r.
  destruct (OnConnectionClose_spec env connection s) as ((_ & _ & R & _) & _ & D).
  fold s1 in R, D. simpl in R. rewrite Hty, Hhd in D.
  assert (fc ∈ discarded_func_calls_ s1) as Hin.
  { rewrite D. apply elem_of_app. by right. }
  split_and!.
  - unfold s1, OnConnectionClose. rewrite Hty, Hhd. simpl.
    rewrite foldl_DiscardFuncCall_connections.
    rewrite elem_of_difference, elem_of_singleton. by intros [_ ?].
  - done.
  - unfold r. destruct (ProcessDiscarded' env' s1) as [s' l] eqn:E. simpl.
    apply ProcessDiscarded_unfold in E
      as (s2 & ext & int & ds & l1 & s4 & l4 & E1 & _ & _ & _ & ->).
    apply ProcessDiscarded_locked_spec in E1 as (_ & _ & Hext & _).
    apply elem_of_app. right. apply elem_of_app. left.
    apply list_elem_of_fmap_2. apply list_elem_of_fmap_2.
    apply Hext. exists fc. by rewrite <- R.
  - by destruct (FinishWithDispatchFailure_spec c) as (_ & _ & ? & _).
  - unfold r. destruct (ProcessDiscarded' env' s1) as [s' l] eqn:E. simpl.
    by apply ProcessDiscarded_drained in E as [? _].
Qed.

(** X19.  What the client of a finalized request gets.  Along every run
    from the initial state in which the call id counter does not wrap,
    every context destroyed stems from a context created, for the same
    call, and its response is one of three: the response of the created
    context with the output appended and the status untouched; the error
    response (HTTP 500 with ["Function call failed"] appended, gRPC
    UNKNOWN); or the dispatch failure response (HTTP 404 with ["Dispatch
    failed for func_id N"] appended, gRPC UNIMPLEMENTED). *)
Theorem responses_of_finalized_requests (es : list Event) (cap : N)
    (cfg : FuncConfig) :
  let r := run' es (Server_init cap cfg) in
  N.of_nat (length (created r.2)) + 1 < 2 ^ 32 ->
  forall c', c' ∈ destroyed r.2 ->
  exists c0,
    c0 ∈ created r.2 /\ call_ c' = call_ c0 /\ is_http c' = is_http c0
    /\ ((response_status c' = response_status c0
         /\ exists output, response_body c' = response_body c0 +:+ output)
        \/ (response_status c' = (if is_http c0 then inl 500%Z else inr UNKNOWN)
            /\ response_body c'
               = (if is_http c0
                  then response_body c0 +:+ "Function call failed" +:+ newline
                  else response_body c0))
        \/ (response_status c'
            = (if is_http c0 then inl 404%Z else inr UNIMPLEMENTED)
            /\ response_body c'
               = (if is_http c0
                  then response_body c0 +:+ "Dispatch failed for func_id "
                         +:+ pretty (func_id (call_ c0)) +:+ newline
                  else response_body c0))).
Proof.
  intros r Hb c' Hc'. unfold r in *. clear r.
  destruct (run' es (Server_init cap cfg)) as [s l] eqn:E. simpl in *.
  pose proof (run_moves _ _ _ _ _ _ _ _ (tables_of_view (Server_init cap cfg) []) E)
    as Hm.
  rewrite <- (view_extend (Server_init cap cfg) s [] l) in Hm. simpl in Hm.
  apply moves_lifecycle in Hm; [|apply lifecycle_init|done].
  destruct Hm as (_ & _ & _ & _ & _ & J5). simpl in J5.
  destruct (J5 c' Hc') as (c0 & Hc0 & fv & c1 & Hcall & Hsink & ->).
  exists c0. split; [done|].
  assert (response_status c1 = response_status c0
          /\ response_body c1 = response_body c0 /\ is_http c1 = is_http c0)
    as (Hst & Hbo & Hht).
  { unfold response_status, response_body, is_http. by rewrite Hsink. }
  assert (is_http (finish_with fv c1) = is_http c0) as HF.
  { rewrite <- Hht. clear.
    destruct c1 as [k [h|g] i o], fv as [reg|output| |]; simpl;
      unfold FinishWithShmOutput, FinishWithOutput, is_http; simpl;
      by repeat case_match. }
  split; [by destruct (finish_with_call fv c1) as [-> _]|].
  split; [done|]. clear HF.
  destruct fv as [reg|output| |]; cbn [finish_with].
  - destruct (FinishWithShmOutput_spec reg c1) as (_ & _ & -> & -> & _).
    left. split; [done|]. eexists. by rewrite Hbo.
  - destruct (FinishWithOutput_spec output c1) as (_ & _ & -> & ->).
    left. split; [done|]. eexists. by rewrite Hbo.
  - destruct (FinishWithError_spec c1) as (_ & _ & -> & -> & _).
    right; left. by rewrite Hht, Hbo.
  - destruct (FinishWithDispatchFailure_spec c1) as (_ & _ & -> & -> & _).
    right; right. by rewrite Hht, Hbo, Hcall.
Qed.

End GatewayOutcomes.

Lemma completion_admits_oldest_waiting_witness :
  let s := (sample_run three_requests).1 in
  let r := OnRecvMessage 1024 4096 sample_invalid_call env_ready
             complete_first s in
  exists ps,
    popped r.2 = sample_context 3 "c" :: ps
    /\ dispatched r.2 = call_ (sample_context 3 "c") :: map call_ ps.
Proof.
  intros s r.
  apply (completion_admits_oldest_waiting 1024 4096 sample_invalid_call
           env_ready complete_first s (sample_context 1 "a")
           (sample_context 3 "c") []).
  - intros _. vm_compute. discriminate.
  - reflexivity.
  - vm_compute. reflexivity.
  - left. reflexivity.
  - vm_compute. reflexivity.
Defined.

Lemma disconnected_worker_calls_fail_witness :
  let s := (sample_run three_requests).1 in
  let connection := mkConn MessageConnection 7 true false in
  let s1 := OnConnectionClose env_worker_gone connection s in
  let r := ProcessDiscardedFuncCallIfNecessary 1024 sample_invalid_call
             env_ready s1 in
  EDestroyed (FinishWithDispatchFailure (sample_context 1 "a")) ∈ r.2
  /\ response_status (FinishWithDispatchFailure (sample_context 1 "a"))
     = inl 404%Z
  /\ discarded_func_calls_ r.1 = [].
Proof.
  intros s connection s1 r.
  destruct (disconnected_worker_calls_fail 1024 sample_invalid_call
              env_worker_gone env_ready connection s (mkFuncCall 1 0 0 1)
              (sample_context 1 "a"))
    as (_ & _ & H3 & H4 & H5).
  - reflexivity.
  - reflexivity.
  - vm_compute. apply list_elem_of_In. simpl. tauto.
  - reflexivity.
  - vm_compute. reflexivity.
  - split; [exact H3|]. split; [exact H4|exact H5].
Defined.

Lemma responses_of_finalized_requests_witness :
  let es := three_requests
            ++ [RecvMessage env_ready complete_first;
                Discard (mkFuncCall 1 0 0 2);
                ProcessDiscarded env_no_worker] in
  let r := sample_run es in
  let c' := FinishWithDispatchFailure (sample_context 2 "b") in
  map response_status (destroyed r.2) = [inl 200%Z; inl 404%Z]
  /\ exists c0, c0 ∈ created r.2 /\ call_ c' = call_ c0.
Proof.
  intros es r c'. split; [vm_compute; reflexivity|].
  destruct (responses_of_finalized_requests 1024 4096 sample_invalid_call es 2
              sample_config) with (c' := c') as (c0 & H1 & H2 & _).
  - vm_compute. reflexivity.
  - vm_compute. apply list_elem_of_In. simpl. tauto.
  - exists c0. split; [exact H1|exact H2].
Defined.

(** * Further properties: identifiers *)

Lemma move_call_ids (v v' : View) :
  move v v' ->
  v_next v = (1 + N.of_nat (length (v_created v))) mod 2 ^ 32
  /\ (forall i c, v_created v !! i = Some c ->
        call_id (call_ c) = (1 + N.of_nat i) mod 2 ^ 32) ->
  v_next v' = (1 + N.of_nat (length (v_created v'))) mod 2 ^ 32
  /\ (forall i c, v_created v' !! i = Some c ->
        call_id (call_ c) = (1 + N.of_nat i) mod 2 ^ 32).
Proof.
  assert (forall (cs : list ExternalFuncCallContext) c nx,
            nx = (1 + N.of_nat (length cs)) mod 2 ^ 32 ->
            call_id (call_ c) = nx ->
            (forall i c0, cs !! i = Some c0 ->
               call_id (call_ c0) = (1 + N.of_nat i) mod 2 ^ 32) ->
            (nx + 1) mod 2 ^ 32
            = (1 + N.of_nat (length (cs ++ [c]))) mod 2 ^ 32
            /\ forall i c0, (cs ++ [c]) !! i = Some c0 ->
                 call_id (call_ c0) = (1 + N.of_nat i) mod 2 ^ 32) as Hadd.
  { intros cs c nx Hn Hc Hcs. split.
    - rewrite Hn, N.Div0.add_mod_idemp_l, length_app. simpl.
      f_equal. lia.
    - intros i c0 [Hi|[Hlen Hi]]%lookup_app_Some; [by apply Hcs|].
      apply list_lookup_singleton_Some in Hi as [Hi <-].
      rewrite Hc, Hn. f_equal. lia. }
  destruct 1 as [v c _ Hf|v c _ Hf|v p rest _ _|v k c c1 _ _ _|v k c c1 fv _ _ _|v d _];
    simpl; intros [Hn Hcs]; try done; by apply Hadd.
Qed.

(** X20.  Call ids are handed out in sequence.  Along every run from the
    initial state the [i]-th context created, counting from zero, has the
    call id [i + 1] modulo [2 ^ 32], and [next_call_id_] is the id the next
    one will get; so the ids of two requests coincide only when [2 ^ 32]
    requests lie between them. *)
Theorem call_ids_sequential (MESSAGE_INLINE_DATA_SIZE PIPE_BUF : N)
    (kInvalidFuncCall : FuncCall) (es : list Event) (cap : N)
    (cfg : FuncConfig) :
  let r := run MESSAGE_INLINE_DATA_SIZE PIPE_BUF kInvalidFuncCall es
             (Server_init cap cfg) in
  next_call_id_ r.1 = (1 + N.of_nat (length (created r.2))) mod 2 ^ 32
  /\ (forall i c, created r.2 !! i = Some c ->
        call_id (call_ c) = (1 + N.of_nat i) mod 2 ^ 32)
  /\ (forall i j ci cj,
        created r.2 !! i = Some ci -> created r.2 !! j = Some cj ->
        call_id (call_ ci) = call_id (call_ cj) ->
        (N.of_nat i) mod 2 ^ 32 = (N.of_nat j) mod 2 ^ 32).
Proof.
  intros r. unfold r. clear r.
  destruct (run _ _ _ es (Server_init cap cfg)) as [s l] eqn:E. simpl.
  apply run_view in E.
  assert (forall v v', rtc move v v' ->
            v_next v = (1 + N.of_nat (length (v_created v))) mod 2 ^ 32
            /\ (forall i c, v_created v !! i = Some c ->
                  call_id (call_ c) = (1 + N.of_nat i) mod 2 ^ 32) ->
            v_next v' = (1 + N.of_nat (length (v_created v'))) mod 2 ^ 32
            /\ (forall i c, v_created v' !! i = Some c ->
                  call_id (call_ c) = (1 + N.of_nat i) mod 2 ^ 32)) as H.
  { induction 1 as [|v v1 v2 Hm _ IH]; [done|].
    intros Hv. apply IH. by apply (move_call_ids v). }
  destruct (H _ _ E) as [Hn Hcs]; [split; [done|by intros []]|].
  simpl in *. split; [done|]. split; [done|].
  intros i j ci cj Hi Hj Heq.
  rewrite (Hcs i ci Hi), (Hcs j cj Hj) in Heq.
  apply (f_equal (fun x => (x + (2 ^ 32 - 1)) mod 2 ^ 32)) in Heq.
  rewrite !N.Div0.add_mod_idemp_l in Heq.
  replace (1 + N.of_nat i + (2 ^ 32 - 1)) with (N.of_nat i + 1 * 2 ^ 32) in Heq
    by lia.
  replace (1 + N.of_nat j + (2 ^ 32 - 1)) with (N.of_nat j + 1 * 2 ^ 32) in Heq
    by lia.
  by rewrite !N.Div0.mod_add in Heq.
Qed.

Lemma int_succ_small (x : Z) :
  (- 2 ^ 31 <= x)%Z -> (x + 1 < 2 ^ 31)%Z -> int_succ x = (x + 1)%Z.
Proof.
  intros H1 H2. unfold int_succ.
  rewrite Z.mod_small by lia. lia.
Qed.

Lemma int_succ_wraps : int_succ (2 ^ 31 - 1) = (- 2 ^ 31)%Z.
Proof. reflexivity. Qed.

(** What one accept callback does to the counters of connection ids and
    which id the connection it registers gets. *)
Lemma accept_ids (e : AcceptEvent) (s s' : Server) (w w' : Listener)
    (r : option Registration) :
  accept e (s, w) = Some (s', w', r) ->
  next_http_connection_id_ w'
  = (if http_attempt e then int_succ (next_http_connection_id_ w)
     else next_http_connection_id_ w)
  /\ next_grpc_connection_id_ w'
     = (if grpc_attempt e then int_succ (next_grpc_connection_id_ w)
        else next_grpc_connection_id_ w)
  /\ http_ids (option_list r)
     = (if http_attempt e && bool_decide (is_Some r)
        then [next_http_connection_id_ w] else [])
  /\ grpc_ids (option_list r)
     = (if grpc_attempt e && bool_decide (is_Some r)
        then [next_grpc_connection_id_ w] else []).
Proof.
  destruct e as [status a accepted|status a accepted|status a accepted];
    cbn [accept http_attempt grpc_attempt];
    unfold HttpConnectionCallback, GrpcConnectionCallback,
      MessageConnectionCallback;
    (destruct (decide (status = 0%Z)) as [->|Hst];
       [rewrite bool_decide_eq_false_2 by (by intros H; apply H);
        rewrite ?bool_decide_eq_true_2 by done
       |rewrite bool_decide_eq_true_2 by done;
        rewrite ?bool_decide_eq_false_2 by done;
        by intros [= <- <- <-]]);
    (destruct accepted; [|by intros [= <- <- <-]]).
  - unfold PickHttpWorker. simpl.
    destruct (http_workers_ w !! _) as [x|]; [|done]. by intros [= <- <- <-].
  - unfold PickHttpWorker. simpl.
    destruct (http_workers_ w !! _) as [x|]; [|done]. by intros [= <- <- <-].
  - unfold PickIpcWorker. simpl.
    destruct (ipc_workers_ w !! _) as [x|]; [|done]. by intros [= <- <- <-].
Qed.

(** X21.  Connection ids are unique per type as long as the counter does
    not overflow.  Take any sequence of accept callbacks that is short
    enough for the two [int] counters to stay below [2 ^ 31].  Then each
    counter ends at its start plus the number of callbacks of its type with
    status zero, so a callback whose [uv_accept] fails uses up an id
    without registering a connection; and the ids of the HTTP connections
    registered are strictly increasing and lie between the counter before
    and the counter after, as do those of the gRPC connections. *)
Theorem connection_ids_increasing (es : list AcceptEvent) :
  forall (s s' : Server) (w w' : Listener) (rs : list Registration),
  accept_all es (s, w) = Some (s', w', rs) ->
  (- 2 ^ 31 <= next_http_connection_id_ w)%Z ->
  (next_http_connection_id_ w
   + Z.of_nat (length (List.filter http_attempt es)) < 2 ^ 31)%Z ->
  (- 2 ^ 31 <= next_grpc_connection_id_ w)%Z ->
  (next_grpc_connection_id_ w
   + Z.of_nat (length (List.filter grpc_attempt es)) < 2 ^ 31)%Z ->
  next_http_connection_id_ w'
  = (next_http_connection_id_ w
     + Z.of_nat (length (List.filter http_attempt es)))%Z
  /\ next_grpc_connection_id_ w'
     = (next_grpc_connection_id_ w
        + Z.of_nat (length (List.filter grpc_attempt es)))%Z
  /\ StronglySorted Z.lt (http_ids rs)
  /\ StronglySorted Z.lt (grpc_ids rs)
  /\ (forall id, id ∈ http_ids rs ->
        (next_http_connection_id_ w <= id < next_http_connection_id_ w')%Z)
  /\ (forall id, id ∈ grpc_ids rs ->
        (next_grpc_connection_id_ w <= id < next_grpc_connection_id_ w')%Z).
Proof.
  induction es as [|e es IH]; intros s s' w w' rs; cbn [accept_all].
  - intros [= <- <- <-] _ _ _ _. simpl.
    split_and!; try lia; try apply SSorted_nil;
      intros id Hid; by apply elem_of_nil in Hid.
  - destruct (accept e (s, w)) as [[[s1 w1] r]|] eqn:E; [|done].
    destruct (accept_all es (s1, w1)) as [[[s2 w2] rs2]|] eqn:E2; [|done].
    intros [= <- <- <-] Lh Uh Lg Ug.
    apply accept_ids in E as (Nh & Ng & Ih & Ig).
    cbn [List.filter] in Uh, Ug |- *.
    assert (next_http_connection_id_ w1
            = (next_http_connection_id_ w
               + (if http_attempt e then 1 else 0))%Z) as Nh'.
    { rewrite Nh. destruct (http_attempt e); [|lia].
      simpl in Uh. apply int_succ_small; lia. }
    assert (next_grpc_connection_id_ w1
            = (next_grpc_connection_id_ w
               + (if grpc_attempt e then 1 else 0))%Z) as Ng'.
    { rewrite Ng. destruct (grpc_attempt e); [|lia].
      simpl in Ug. apply int_succ_small; lia. }
    destruct (IH _ _ _ _ _ E2) as (Fh & Fg & Sh & Sg & Bh & Bg).
    { rewrite Nh'. destruct (http_attempt e); lia. }
    { rewrite Nh'. destruct (http_attempt e); simpl in Uh; lia. }
    { rewrite Ng'. destruct (grpc_attempt e); lia. }
    { rewrite Ng'. destruct (grpc_attempt e); simpl in Ug; lia. }
    assert (http_ids (option_list r ++ rs2)
            = http_ids (option_list r) ++ http_ids rs2) as ->
      by apply omap_app.
    assert (grpc_ids (option_list r ++ rs2)
            = grpc_ids (option_list r) ++ grpc_ids rs2) as ->
      by apply omap_app.
    rewrite Ih, Ig.
    split_and!.
    + rewrite Fh, Nh'. destruct (http_attempt e); simpl; lia.
    + rewrite Fg, Ng'. destruct (grpc_attempt e); simpl; lia.
    + destruct (http_attempt e && bool_decide (is_Some r)) eqn:Hb; [|done].
      apply andb_true_iff in Hb as [Hb _]. rewrite Hb in Nh'.
      simpl. constructor; [done|]. apply Forall_forall. intros id Hid.
      specialize (Bh id Hid). lia.
    + destruct (grpc_attempt e && bool_decide (is_Some r)) eqn:Hb; [|done].
      apply andb_true_iff in Hb as [Hb _]. rewrite Hb in Ng'.
      simpl. constructor; [done|]. apply Forall_forall. intros id Hid.
      specialize (Bg id Hid). lia.
    + intros id Hid.
      assert (next_http_connection_id_ w <= next_http_connection_id_ w1)%Z
        by (rewrite Nh'; destruct (http_attempt e); lia).
      destruct (http_attempt e && bool_decide (is_Some r)) eqn:Hb.
      * apply andb_true_iff in Hb as [Hb _]. rewrite Hb in Nh'.
        simpl in Hid. apply elem_of_cons in Hid as [->|Hid].
        -- assert (next_http_connection_id_ w1 <= next_http_connection_id_ w2)%Z
             by (rewrite Fh; lia).
           lia.
        -- specialize (Bh id Hid). lia.
      * simpl in Hid. specialize (Bh id Hid). lia.
    + intros id Hid.
      assert (next_grpc_connection_id_ w <= next_grpc_connection_id_ w1)%Z
        by (rewrite Ng'; destruct (grpc_attempt e); lia).
      destruct (grpc_attempt e && bool_decide (is_Some r)) eqn:Hb.
      * apply andb_true_iff in Hb as [Hb _]. rewrite Hb in Ng'.
        simpl in Hid. apply elem_of_cons in Hid as [->|Hid].
        -- assert (next_grpc_connection_id_ w1 <= next_grpc_connection_id_ w2)%Z
             by (rewrite Fg; lia).
           lia.
        -- specialize (Bg id Hid). lia.
      * simpl in Hid. specialize (Bg id Hid). lia.
Qed.

Lemma connection_ids_increasing_witness :
  let es := [AcceptHttp 0 10 true; AcceptHttp 0 11 false; AcceptGrpc 0 12 true;
             AcceptHttp 0 13 true; AcceptMessage 0 14 true] in
  exists s' w' rs,
    accept_all es (Server_init 2 sample_config, sample_listener)
    = Some (s', w', rs)
    /\ http_ids rs = [0; 2]%Z
    /\ next_http_connection_id_ w' = 3%Z
    /\ StronglySorted Z.lt (http_ids rs)
    /\ StronglySorted Z.lt (grpc_ids rs).
Proof.
  intros es.
  destruct (accept_all es (Server_init 2 sample_config, sample_listener))
    as [[[s' w'] rs]|] eqn:E; [|vm_compute in E; discriminate E].
  exists s', w', rs. split; [reflexivity|].
  destruct (connection_ids_increasing es _ _ _ _ _ E)
    as (H0 & _ & H1 & H2 & _).
  - simpl. lia.
  - simpl. lia.
  - simpl. lia.
  - simpl. lia.
  - split; [|split; [exact H0|split; [exact H1|exact H2]]].
    vm_compute in E. injection E as <- <- <-. reflexivity.
Defined.

(** * Further properties: inline input or shared memory *)

Section InlineOrShm.

Variable MESSAGE_INLINE_DATA_SIZE : N.
Variable PIPE_BUF : N.
Variable kInvalidFuncCall : FuncCall.

Local Abbreviation Dispatch :=
  (DispatchExternalFuncCall MESSAGE_INLINE_DATA_SIZE kInvalidFuncCall).
Local Abbreviation dispatch_or_erase' :=
  (dispatch_or_erase MESSAGE_INLINE_DATA_SIZE kInvalidFuncCall).
Local Abbreviation dispatch_all' :=
  (dispatch_all MESSAGE_INLINE_DATA_SIZE kInvalidFuncCall).
Local Abbreviation NewExternalFuncCall' :=
  (NewExternalFuncCall MESSAGE_INLINE_DATA_SIZE kInvalidFuncCall).
Local Abbreviation ProcessDiscarded' :=
  (ProcessDiscardedFuncCallIfNecessary MESSAGE_INLINE_DATA_SIZE kInvalidFuncCall).
Local Abbreviation OnRecvMessage' :=
  (OnRecvMessage MESSAGE_INLINE_DATA_SIZE PIPE_BUF kInvalidFuncCall).
Local Abbreviation handle' :=
  (handle MESSAGE_INLINE_DATA_SIZE PIPE_BUF kInvalidFuncCall).
Local Abbreviation run' :=
  (run MESSAGE_INLINE_DATA_SIZE PIPE_BUF kInvalidFuncCall).
Local Abbreviation notices_ok src :=
  (Forall (notice_ok MESSAGE_INLINE_DATA_SIZE kInvalidFuncCall src)).

Lemma notices_ok_mono (src src' : list ExternalFuncCallContext)
    (l : list Effect) :
  (forall c, c ∈ src -> c ∈ src') -> notices_ok src l -> notices_ok src' l.
Proof.
  intros Hsub Hl. eapply Forall_impl; [exact Hl|]. intros [] H; try done.
  destruct H as (Hp & c & Hc & H). split; [done|]. exists c. split; [auto|done].
Qed.

Lemma notices_ok_destroyed (src : list ExternalFuncCallContext)
    (cs : list ExternalFuncCallContext) :
  notices_ok src (map EDestroyed cs).
Proof. induction cs; by constructor. Qed.

Lemma notices_ok_finished (src : list ExternalFuncCallContext)
    (int : list FuncCall) :
  notices_ok src (map (fun fc => EFuncCallFinished fc false) int).
Proof. induction int; by constructor. Qed.

Lemma slots_ok_tables (src : list ExternalFuncCallContext)
    (keys : list FuncCall) (s s' : Server) :
  running_external_func_calls_ s' = running_external_func_calls_ s ->
  slots_ok src keys s -> slots_ok src keys s'.
Proof. intros R H k c Hk Hc. rewrite R in Hc. exact (H k c Hk Hc). Qed.

Lemma slots_ok_delete (src : list ExternalFuncCallContext)
    (keys : list FuncCall) (s s' : Server) (k0 : FuncCall) :
  running_external_func_calls_ s' = delete k0 (running_external_func_calls_ s) ->
  slots_ok src keys s -> slots_ok src keys s'.
Proof.
  intros R H k c Hk Hc. rewrite R in Hc.
  apply lookup_delete_Some in Hc as [_ Hc]. exact (H k c Hk Hc).
Qed.

Lemma slots_ok_store (src : list ExternalFuncCallContext)
    (keys : list FuncCall) (s s2 : Server) (k0 : FuncCall)
    (c c' : ExternalFuncCallContext) :
  slots_ok src keys s ->
  k0 ∈ keys -> running_external_func_calls_ s !! k0 = Some c ->
  call_ c' = call_ c -> GetInput c' = GetInput c ->
  running_external_func_calls_ s2 = running_external_func_calls_ s ->
  slots_ok src keys
    (set_running (<[k0 := c']> (running_external_func_calls_ s2)) s2).
Proof.
  intros H Hk0 Hc0 E1 E2 R k x Hk Hx. simpl in Hx. rewrite R in Hx.
  destruct (decide (k0 = k)) as [<-|Hne].
  - rewrite lookup_insert_eq in Hx. injection Hx as <-.
    destruct (H k0 c Hk0 Hc0) as (p & Hp & Hpc & Hpi).
    exists p. split; [done|]. split; congruence.
  - rewrite lookup_insert_ne in Hx by done. exact (H k x Hk Hx).
Qed.

(** A dispatch of the slot of a key of [keys] tells the dispatcher of a
    context of [src], as [notice_ok] says, and keeps the slots as they
    were, up to what a dispatch changes. *)
Lemma Dispatch_told (src : list ExternalFuncCallContext) (keys : list FuncCall)
    (env : Env) (k : FuncCall) (s : Server) :
  slots_ok src keys s -> k ∈ keys ->
  notices_ok src (Dispatch env k s).2
  /\ slots_ok src keys (Dispatch env k s).1.1.
Proof.
  intros H Hk. unfold DispatchExternalFuncCall.
  destruct (running_external_func_calls_ s !! k) as [c|] eqn:Hc;
    [|split; [by repeat constructor|done]].
  destruct (H k c Hk Hc) as (p & Hp & Hpc & Hpi).
  assert (notice_ok MESSAGE_INLINE_DATA_SIZE kInvalidFuncCall src
            (EOnNewFuncCall (call_ c) kInvalidFuncCall
               (N.of_nat (String.length (GetInput c)))
               (if MESSAGE_INLINE_DATA_SIZE <? N.of_nat (String.length (GetInput c))
                then EmptyString else GetInput c)
               (MESSAGE_INLINE_DATA_SIZE <? N.of_nat (String.length (GetInput c)))))
    as Hnotice.
  { split; [done|]. exists p. rewrite Hpi. by split_and!. }
  destruct (FinishWithError_regions c) as (E1 & _ & _ & E4).
  destruct (FinishWithDispatchFailure_regions c) as (F1 & _ & _ & F4).
  destruct (MESSAGE_INLINE_DATA_SIZE <? _) eqn:Hlarge; simpl.
  - unfold CreateShmInput. destruct (ShmCreate_input env (call_ c)); simpl.
    2: { split; [by repeat constructor|].
         by apply (slots_ok_store src keys s s k c). }
    set (c1 := mkCtx (call_ c) (sink_ c)
                 (Some (EnableRemoveOnDestruction (mkShm (GetInput c) false)))
                 (output_region_ c)).
    destruct (FinishWithDispatchFailure_regions c1) as (G1 & _ & _ & G4).
    destruct (GetOrCreateDispatcherLocked _ _) as [s2 d] eqn:Hd.
    apply GetOrCreateDispatcherLocked_tables in Hd as ((_ & _ & R & _) & _).
    simpl in R. symmetry in R.
    destruct d; simpl; [destruct (OnNewFuncCall env (call_ c))|];
      (split;
         [repeat (constructor; [first [exact I|exact Hnotice]|]); constructor|]);
      by apply (slots_ok_store src keys s s2 k c).
  - destruct (GetOrCreateDispatcherLocked _ _) as [s2 d] eqn:Hd.
    apply GetOrCreateDispatcherLocked_tables in Hd as ((_ & _ & R & _) & _).
    simpl in R. symmetry in R.
    destruct d; simpl; [destruct (OnNewFuncCall env (call_ c))|];
      (split;
         [repeat (constructor; [first [exact I|exact Hnotice]|]); constructor|]);
      by apply (slots_ok_store src keys s s2 k c).
Qed.

Lemma dispatch_or_erase_told (src : list ExternalFuncCallContext)
    (keys : list FuncCall) (env : Env) (k : FuncCall) (s : Server) :
  slots_ok src keys s -> k ∈ keys ->
  notices_ok src (dispatch_or_erase' env k s).2
  /\ slots_ok src keys (dispatch_or_erase' env k s).1.
Proof.
  intros H Hk. unfold dispatch_or_erase.
  destruct (Dispatch_told src keys env k s H Hk) as [H1 H2].
  destruct (Dispatch env k s) as [[s1 ok] l1]. simpl in H1, H2.
  destruct ok; [done|].
  unfold running_erase, destroy.
  destruct (running_external_func_calls_ s1 !! k); simpl.
  - split; [apply Forall_app; split; [done|by repeat constructor]|].
    by apply (slots_ok_delete src keys s1 _ k).
  - by rewrite app_nil_r.
Qed.

Lemma dispatch_all_told (src : list ExternalFuncCallContext)
    (keys : list FuncCall) (env : Env) (ks : list FuncCall) :
  forall s : Server,
  slots_ok src keys s -> (forall k, k ∈ ks -> k ∈ keys) ->
  notices_ok src (dispatch_all' env ks s).2.
Proof.
  induction ks as [|k ks IH]; intros s H Hks; simpl; [by constructor|].
  destruct (dispatch_or_erase_told src keys env k s H) as [H1 H2];
    [apply Hks; by left|].
  destruct (dispatch_or_erase' env k s) as [s1 l1]. simpl in H1, H2.
  assert (forall k', k' ∈ ks -> k' ∈ keys) as Hks'.
  { intros k' Hk'. apply Hks. by right. }
  specialize (IH s1 H2 Hks').
  destruct (dispatch_all' env ks s1) as [s2 l2]. simpl in *.
  by apply Forall_app.
Qed.

Lemma promote_pending_silent (src : list ExternalFuncCallContext)
    (queue : list ExternalFuncCallContext) :
  forall s : Server, notices_ok src (promote_pending queue s).2.
Proof.
  induction queue as [|p rest IH]; intros s; simpl; [by constructor|].
  destruct (cap_permits s); [|by constructor].
  unfold promote_front, running_assign, destroy.
  destruct (running_external_func_calls_ (set_pending rest s) !! _);
    match goal with
    | |- context [promote_pending rest ?s1] =>
        specialize (IH s1); destruct (promote_pending rest s1) as [[s2 ds] l2]
    end; simpl in *; by repeat constructor.
Qed.

(** The drain tells the dispatchers of contexts of the pending queue
    only. *)
Lemma ProcessDiscarded_told (env : Env) (s : Server) :
  notices_ok (pending_external_func_calls_ s) (ProcessDiscarded' env s).2.
Proof.
  destruct (ProcessDiscarded' env s) as [s' l] eqn:E. simpl.
  apply ProcessDiscarded_unfold in E
    as (s1 & ext & int & ds & l1 & s4 & l4 & E1 & T & _ & E5 & ->).
  pose proof (ProcessDiscarded_locked_exact _ _ _ _ _ _ E1) as (_ & Hr & _).
  pose proof (ProcessDiscarded_locked_spec _ _ _ _ _ _ E1)
    as (_ & _ & _ & _ & Q & Hds & _).
  assert (notices_ok (pending_external_func_calls_ s) l1) as Hl1.
  { unfold ProcessDiscardedFuncCallIfNecessary_locked in E1.
    destruct (collect_discarded _ s [] []) as [[s0 ext0] int0].
    pose proof (promote_pending_silent (pending_external_func_calls_ s)
                  (pending_external_func_calls_ (set_discarded [] s0))
                  (set_discarded [] s0)) as H.
    destruct (promote_pending _ (set_discarded [] s0)) as [[s3 ds3] l3].
    by injection E1 as <- <- <- <- <-. }
  rewrite !Forall_app. split_and!; try done.
  - apply notices_ok_destroyed.
  - apply notices_ok_finished.
  - pose proof (dispatch_all_told (pending_external_func_calls_ s) ds env ds s4)
      as H. rewrite E5 in H. apply H; [|done].
    intros k c Hk Hc. destruct T as (_ & _ & T3 & _). simpl in T3.
    rewrite <- T3, Hr in Hc. rewrite Hds in Hk.
    destruct (promoted_lookup_call _
                (without_discarded (discarded_func_calls_ s)
                   (running_external_func_calls_ s)) k Hk)
      as (p & Hp & Hpk & Hpl).
    rewrite Hpl in Hc. injection Hc as <-.
    exists p. split; [|done]. rewrite Q. apply elem_of_app. by left.
Qed.

Lemma OnRecvMessage_told (env : Env) (m : Message) (s : Server) :
  IsInvokeFuncMessage m = false ->
  notices_ok (pending_external_func_calls_ s) (OnRecvMessage' env m s).2.
Proof.
  intros Hinv. unfold OnRecvMessage. rewrite Hinv.
  destruct (IsFuncCallCompleteMessage m || IsFuncCallFailedMessage m).
  2: { pose proof (ProcessDiscarded_told env s) as H.
       by destruct (ProcessDiscarded' env s) as [s2 l2]. }
  destruct (OnRecvMessage_finished_locked PIPE_BUF m s)
    as [[[[sa ctx] fd] d] la] eqn:EL.
  apply OnRecvMessage_finished_locked_spec in EL as (_ & _ & _ & Hcase).
  set (src := pending_external_func_calls_ s).
  assert (notices_ok src la
          /\ (forall c, c ∈ pending_external_func_calls_ sa -> c ∈ src)
          /\ match fd with
             | Some k => slots_ok src [k] sa
             | None => True
             end) as (Hla & Hsub & Hfd).
  { destruct Hcase as [(c & _ & _ & _ & [(p & rest & Hp & _ & -> & R & P & ->)
                                        |(-> & _ & _ & P & ->)])
                      |(_ & _ & -> & -> & _ & P)].
    - split_and!.
      + constructor; [done|]. apply notices_ok_destroyed.
      + intros c0 Hc0. unfold src. rewrite Hp. rewrite P in Hc0. by right.
      + intros k c0 Hk Hc0. apply list_elem_of_singleton in Hk as ->.
        rewrite R, lookup_insert_eq in Hc0. injection Hc0 as <-.
        exists p. split; [|done]. unfold src. rewrite Hp. by left.
    - split_and!; [by constructor| |done]. intros c0. by rewrite P.
    - split_and!; [by constructor| |done]. intros c0. by rewrite P. }
  set (ctx' := if client_id _ =? 0 then _ else ctx).
  destruct (match fd with Some k => _ | None => (sa, []) end) as [sb lb] eqn:Eb.
  assert (notices_ok src lb
          /\ pending_external_func_calls_ sb = pending_external_func_calls_ sa)
    as [Hlb Hpb].
  { destruct fd as [k|]; [|injection Eb as <- <-; split; [by constructor|done]].
    destruct (dispatch_or_erase_told src [k] env k sa Hfd) as [H _];
      [by left|].
    rewrite Eb in H. split; [done|].
    by apply dispatch_or_erase_dispatched in Eb as (_ & _ & _ & _ & _ & ? & _). }
  destruct (match ctx' with Some c => _ | None => (sb, []) end) as [sc lc] eqn:Ec.
  assert (notices_ok src lc
          /\ pending_external_func_calls_ sc = pending_external_func_calls_ sb)
    as [Hlc Hpc].
  { destruct ctx'; injection Ec as <- <-; split; by repeat constructor. }
  pose proof (ProcessDiscarded_told env sc) as H.
  destruct (ProcessDiscarded' env sc) as [s2 l2]. simpl in *.
  rewrite !Forall_app. split_and!; try done.
  - by repeat case_match; repeat constructor.
  - eapply notices_ok_mono; [|exact H]. intros c Hc. apply Hsub.
    by rewrite <- Hpb, <- Hpc.
Qed.

Lemma admission_told (env : Env) (c : ExternalFuncCallContext) (s : Server) :
  notices_ok [c] (NewExternalFuncCall' env c s).2.
Proof.
  unfold NewExternalFuncCall, NewExternalFuncCall_locked.
  set (s1 := Tick _ _).
  destruct (cap_permits s1); [|by repeat constructor].
  destruct (running_assign c s1) as [s2 l2] eqn:E2.
  apply running_assign_spec in E2 as (R & _ & _ & _ & _ & ->).
  destruct (dispatch_or_erase_told [c] [full_call_id (call_ c)] env
              (full_call_id (call_ c)) s2) as [H _].
  - intros k c0 Hk Hc0. apply list_elem_of_singleton in Hk as ->.
    unfold full_call_id in Hc0. rewrite R, lookup_insert_eq in Hc0.
    injection Hc0 as <-. exists c. split; [by left|done].
  - by left.
  - destruct (dispatch_or_erase' env _ s2) as [s3 l3]. simpl in *.
    apply Forall_app. split; [apply notices_ok_destroyed|done].
Qed.

Lemma handle_told (e : Event) (s : Server) :
  not_invoke e ->
  notices_ok (pending_external_func_calls_ s ++ created (handle' e s).2)
    (handle' e s).2.
Proof.
  destruct e as [env f h|env g|env m|env|fc|f|env c]; cbn [handle not_invoke];
    intros He.
  - unfold OnExternalFuncCall, new_context, prepend. cbn [fst snd].
    set (c := mkCtx _ (HttpSink h) None None).
    constructor; [done|].
    eapply notices_ok_mono; [|apply admission_told].
    intros c0 ->%list_elem_of_singleton. apply elem_of_app. right.
    change (c ∈ c :: created
              (NewExternalFuncCall' env c
                 (set_inflight (inflight_external_requests_ s + 1)%Z
                    (set_next_call_id ((next_call_id_ s + 1) mod 2 ^ 32) s))).2).
    by left.
  - unfold OnNewGrpcCall, new_context, prepend.
    destruct (find_by_func_name _ _) as [e|]; [|by repeat constructor].
    destruct (grpc_method_ids e !! _) as [method|]; [|by repeat constructor].
    cbn [fst snd].
    set (c := mkCtx _ (GrpcSink g) None None).
    constructor; [done|].
    eapply notices_ok_mono; [|apply admission_told].
    intros c0 ->%list_elem_of_singleton. apply elem_of_app. right.
    change (c ∈ c :: created
              (NewExternalFuncCall' env c
                 (set_inflight (inflight_external_requests_ s + 1)%Z
                    (set_next_call_id ((next_call_id_ s + 1) mod 2 ^ 32) s))).2).
    by left.
  - eapply notices_ok_mono; [|by apply OnRecvMessage_told].
    intros c0 Hc0. apply elem_of_app. by left.
  - eapply notices_ok_mono; [|apply ProcessDiscarded_told].
    intros c0 Hc0. apply elem_of_app. by left.
  - by constructor.
  - by constructor.
  - by constructor.
Qed.

Lemma run_told (es : list Event) :
  forall s : Server,
  Forall not_invoke es ->
  notices_ok (pending_external_func_calls_ s ++ created (run' es s).2)
    (run' es s).2.
Proof.
  induction es as [|e es IH]; intros s Hes; simpl; [by constructor|].
  apply Forall_cons in Hes as [He Hes].
  pose proof (handle_told e s He) as H1.
  pose proof (handle_accounts MESSAGE_INLINE_DATA_SIZE PIPE_BUF
                kInvalidFuncCall e s) as (_ & _ & _ & _ & _ & Hp).
  destruct (handle' e s) as [s1 l1]. specialize (IH s1 Hes).
  destruct (run' es s1) as [s2 l2]. simpl in *.
  rewrite created_app. apply Forall_app. split.
  - eapply notices_ok_mono; [|exact H1]. intros c Hc.
    rewrite app_assoc. apply elem_of_app. by left.
  - eapply notices_ok_mono; [|exact IH]. intros c [Hc|Hc]%elem_of_app.
    + destruct (Hp c Hc) as [H|H]; apply elem_of_app; [by left|right].
      apply elem_of_app. by left.
    + apply elem_of_app. right. apply elem_of_app. by right.
Qed.

(** X23.  Inline input or shared memory.  In a run without Invoke
    messages, that is, without requests of workers, every call of
    [Dispatcher::OnNewFuncCall] is made for a context that waited at the
    start of the run or was created in it: it names the call of that
    context and no parent, its input size is the length of the input of
    the context, it announces shared memory exactly when that input is
    longer than [MESSAGE_INLINE_DATA_SIZE], and it passes no inline input
    then and the whole input of the context inline otherwise.  From the
    initial state the context is one created in the run. *)
Theorem inline_or_shm_by_input_size (es : list Event) (s : Server) :
  Forall not_invoke es ->
  forall call parent input_size inline_input shm_input,
  EOnNewFuncCall call parent input_size inline_input shm_input ∈ (run' es s).2 ->
  parent = kInvalidFuncCall
  /\ exists c,
       (c ∈ pending_external_func_calls_ s \/ c ∈ created (run' es s).2)
       /\ call_ c = call
       /\ input_size = N.of_nat (String.length (GetInput c))
       /\ shm_input = (MESSAGE_INLINE_DATA_SIZE <? input_size)
       /\ inline_input = (if shm_input then EmptyString else GetInput c).
Proof.
  intros Hes call parent input_size inline_input shm_input Hin.
  pose proof (run_told es s Hes) as H. rewrite Forall_forall in H.
  destruct (H _ Hin) as (Hp & c & Hc & Hrest).
  split; [done|]. exists c. split; [by apply elem_of_app in Hc|done].
Qed.

End InlineOrShm.

Lemma inline_or_shm_by_input_size_witness :
  let r := sample_run [ExternalFuncCall env_ready 1 (sample_http big_body);
                       ExternalFuncCall env_ready 1 (sample_http "hi")] in
  (exists c, c ∈ created r.2 /\ call_ c = mkFuncCall 1 0 0 1
             /\ 1025 = N.of_nat (String.length (GetInput c)))
  /\ (exists c, c ∈ created r.2 /\ call_ c = mkFuncCall 1 0 0 2
                /\ "hi" = GetInput c).
Proof.
  intros r.
  assert (Forall not_invoke
            [ExternalFuncCall env_ready 1 (sample_http big_body);
             ExternalFuncCall env_ready 1 (sample_http "hi")]) as Hes.
  { constructor; [exact I|]. constructor; [exact I|constructor]. }
  assert (EOnNewFuncCall (mkFuncCall 1 0 0 1) sample_invalid_call 1025
            EmptyString true ∈ r.2) as Hbig.
  { vm_compute. apply list_elem_of_In. simpl. tauto. }
  assert (EOnNewFuncCall (mkFuncCall 1 0 0 2) sample_invalid_call 2
            "hi" false ∈ r.2) as Hsmall.
  { vm_compute. apply list_elem_of_In. simpl. tauto. }
  destruct (inline_or_shm_by_input_size 1024 4096 sample_invalid_call _
              (Server_init 2 sample_config) Hes _ _ _ _ _ Hbig)
    as (_ & c1 & [H1|H1] & H2 & H3 & _); [by apply elem_of_nil in H1|].
  destruct (inline_or_shm_by_input_size 1024 4096 sample_invalid_call _
              (Server_init 2 sample_config) Hes _ _ _ _ _ Hsmall)
    as (_ & c2 & [G1|G1] & G2 & _ & _ & G5); [by apply elem_of_nil in G1|].
  split; [exists c1|exists c2]; split_and!; done.
Defined.

(** * Further examples *)

Lemma dispatchers_follow_config_witness :
  let r := sample_run (three_requests ++ [GetDispatcher 7]) in
  dispatchers_ r.1 = {[1]}
  /\ (GetOrCreateDispatcher 7 r.1).2 = false
  /\ (GetOrCreateDispatcher 2 r.1).2 = true.
Proof.
  intros r. split; [vm_compute; reflexivity|].
  destruct (dispatchers_follow_config 1024 4096 sample_invalid_call
              (three_requests ++ [GetDispatcher 7]) 2 sample_config 7)
    as (_ & _ & H7 & _).
  destruct (dispatchers_follow_config 1024 4096 sample_invalid_call
              (three_requests ++ [GetDispatcher 7]) 2 sample_config 2)
    as (_ & _ & H2 & _).
  split.
  - apply not_true_is_false. intros H. apply H7 in H. vm_compute in H.
    destruct H as [x H]. discriminate H.
  - apply H2. vm_compute. eexists. reflexivity.
Defined.

Lemma only_three_routes_witness :
  let s := Server_init 2 sample_config in
  is_Some (MatchRequest (RegisterInternalRequestHandlers 1024
                           sample_invalid_call [])
             s "POST" "/function/echo")
  /\ ~ is_Some (MatchRequest (RegisterInternalRequestHandlers 1024
                                sample_invalid_call [])
                  s "POST" "/function/nope").
Proof.
  intros s.
  destruct (only_three_routes 1024 sample_invalid_call s "POST" "/function/echo")
    as [[_ H1] _].
  destruct (only_three_routes 1024 sample_invalid_call s "POST" "/function/nope")
    as [[H2 _] _].
  split.
  - apply H1. right; right. split; [reflexivity|].
    exists "echo". split; [reflexivity|]. vm_compute. eexists. reflexivity.
  - intros H. apply H2 in H.
    destruct H as [[_ H]|[[H _]|(_ & name & Hp & Hn)]];
      [discriminate H|discriminate H|].
    cbv [String.append] in Hp. injection Hp as <-.
    vm_compute in Hn. destruct Hn as [x Hn]. discriminate Hn.
Defined.

Lemma handshake_answered_iff_witness :
  let s := Server_init 2 sample_config in
  hs_response (sample_OnNewHandshake env_ready true true
                 (sample_handshake LAUNCHER_HANDSHAKE 1 "abcd") s)
  = Some (sample_handshake_response 2, "{}")
  /\ ~ is_Some (hs_response (sample_OnNewHandshake env_ready true true
                               (sample_handshake LAUNCHER_HANDSHAKE 1 "abc") s)).
Proof.
  intros s.
  destruct (handshake_answered_iff 1024 sample_invalid_call 4 "none"
              sample_handshake_response env_ready true "{}" true true
              (sample_handshake LAUNCHER_HANDSHAKE 1 "abcd") s) as [[_ H1] H2].
  destruct (handshake_answered_iff 1024 sample_invalid_call 4 "none"
              sample_handshake_response env_ready true "{}" true true
              (sample_handshake LAUNCHER_HANDSHAKE 1 "abc") s) as [[H3 _] _].
  split.
  - destruct H1 as [r Hr].
    + split; [vm_compute; eexists; reflexivity|]. left.
      split; [reflexivity|]. split; reflexivity.
    + unfold sample_OnNewHandshake. rewrite Hr. f_equal. exact (H2 r Hr).
  - intros H. apply H3 in H.
    destruct H as [_ [(_ & H & _)|[H _]]]; discriminate H.
Defined.

Lemma handshake_side_effects_witness :
  let s := (sample_run (three_requests ++ [Discard (mkFuncCall 1 0 0 1)])).1 in
  let h := sample_OnNewHandshake env_ready true false
             (sample_handshake FUNC_WORKER_HANDSHAKE 1 EmptyString) s in
  discarded_func_calls_ s = [mkFuncCall 1 0 0 1]
  /\ hs_response h = None
  /\ discarded_func_calls_ (hs_server h) = [].
Proof.
  intros s h.
  destruct (handshake_side_effects 1024 sample_invalid_call 4 "none"
              sample_handshake_response env_ready true "{}" true false
              (sample_handshake FUNC_WORKER_HANDSHAKE 1 EmptyString) s)
    as ([_ H] & _).
  - split; [reflexivity|]. vm_compute. eexists. reflexivity.
  - split; [vm_compute; reflexivity|]. split; [vm_compute; reflexivity|exact H].
Defined.

Lemma running_only_after_accepted_handshake_witness :
  let es := [Watchdog.EvStart; Watchdog.EvWriteHandshake 0;
             Watchdog.EvReadHandshakeResponse 4 "abcd" true] in
  exists nread data, Watchdog.EvReadHandshakeResponse nread data true ∈ es.
Proof.
  intros es.
  destruct (running_only_after_accepted_handshake 4) as [_ H].
  apply (H es (Watchdog.mkGatewayConnection Watchdog.kRunning EmptyString false
                 (Some Watchdog.ReadMessage))).
  - apply Watchdog.trace_cons; [reflexivity|].
    apply Watchdog.trace_cons; [reflexivity|].
    apply Watchdog.trace_cons; [reflexivity|].
    apply Watchdog.trace_nil.
  - reflexivity.
Defined.

Lemma failures_close_the_connection_witness :
  let c := Watchdog.Start Watchdog.GatewayConnection_new in
  Watchdog.step 4 (Watchdog.EvConnect 1) c
  = Watchdog.mkGatewayConnection Watchdog.kClosing EmptyString true None
  /\ Watchdog.step 4 (Watchdog.EvWriteMessage 1) Watchdog.GatewayConnection_new
     = Watchdog.GatewayConnection_new.
Proof.
  intros c.
  destruct (failures_close_the_connection 4 (Watchdog.EvConnect 1) c)
    as [H1 _].
  destruct (failures_close_the_connection 4 (Watchdog.EvWriteMessage 1)
              Watchdog.GatewayConnection_new) as [H2 _].
  split.
  - destruct H1 as (_ & H & _); [reflexivity|]. apply H. left. reflexivity.
  - destruct H2 as (_ & _ & H); [reflexivity|]. apply H; discriminate.
Defined.

Lemma call_ids_sequential_witness :
  let r := sample_run three_requests in
  next_call_id_ r.1 = 4
  /\ call_id (call_ (sample_context 3 "c")) = 3.
Proof.
  intros r.
  destruct (call_ids_sequential 1024 4096 sample_invalid_call three_requests 2
              sample_config) as (H1 & H2 & _).
  split.
  - exact H1.
  - apply (H2 2%nat (sample_context 3 "c")). vm_compute. reflexivity.
Defined.
